(** * pycuda/elementwise.py: the elementwise kernel specialisation engine

    A shallow embedding of [ElementwiseSourceModule] (layout classification,
    cache key, traversal plan, emitted odometer code) together with the
    properties of the design document that can be stated over it.

    Conventions.
    - Python integers and numpy int64 values are mathematical integers [Z];
      the quantities of the planner (shape sizes, strides, thread counts) are
      far below the 64-bit range, and the emitted C variables are likewise
      read as ideal integers.
    - A Python exception is a value of [exn]; a call that may raise returns a
      [result].
    - Tuples and lists are [list]; [None]-able values are [option]. *)

From Stdlib Require Import ZArith Lia.
From stdpp Require Import base numbers option list strings gmap.
From stdpp Require Import pretty.

Local Open Scope Z_scope.
Set Warnings "-register-all".

(** ** Exceptions and results *)

(** The exceptions the module can raise: the two [Exception(...)] of the
    source, and the built-in ones of the operations it uses. *)
Inductive exn :=
  | ShapeMismatch (shape : option (list Z)) (curshape : list Z)
  | InvalidGeometry (grid block : list Z)
  | AssertionError
  | AttributeError (attr : string)
  | IndexError
  | TypeError
  | ValueError.

Inductive result (A : Type) :=
  | Ok (a : A)
  | Raise (e : exn).
Arguments Ok {A} a.
Arguments Raise {A} e.

#[global] Instance result_ret : MRet result := fun _ a => Ok a.
#[global] Instance result_bind : MBind result := fun _ _ f r =>
  match r with
  | Ok a => f a
  | Raise e => Raise e
  end.
#[global] Instance result_fmap : FMap result := fun _ _ f r =>
  match r with
  | Ok a => Ok (f a)
  | Raise e => Raise e
  end.

Definition raises {A} (r : result A) : Prop := exists e, r = Raise e.
Definition returns {A} (r : result A) : Prop := exists a, r = Ok a.

(** [seq[i]]: IndexError when out of range. *)
Definition getitem {A} (l : list A) (i : nat) : result A :=
  match l !! i with
  | Some a => Ok a
  | None => Raise IndexError
  end.

(** A comprehension [f(x) for x in l] whose body may raise. *)
Fixpoint for_each {A B} (f : A -> result B) (l : list A) : result (list B) :=
  match l with
  | [] => Ok []
  | x :: l' => y ← f x; ys ← for_each f l'; Ok (y :: ys)
  end.

(** A [for] loop threading a state, whose body may raise. *)
Fixpoint for_loop {A S} (body : S -> A -> result S) (s : S) (l : list A)
  : result S :=
  match l with
  | [] => Ok s
  | x :: l' => s' ← body s x; for_loop body s' l'
  end.

(** ** numpy integer helpers *)

(** Integer [%] and [//] of numpy: floored, and 0 for a zero divisor. *)
Definition np_mod (a b : Z) : Z := if b =? 0 then 0 else a mod b.
Definition np_floordiv (a b : Z) : Z := if b =? 0 then 0 else a / b.

(** [x * y] on one-dimensional arrays, with numpy's broadcasting: equal
    lengths, or one operand of length one; ValueError otherwise. *)
Definition np_mul (xs ys : list Z) : result (list Z) :=
  if decide (length xs = length ys) then Ok (zip_with Z.mul xs ys)
  else match xs, ys with
       | [x], _ => Ok (map (Z.mul x) ys)
       | _, [y] => Ok (map (fun x => x * y) xs)
       | _, _ => Raise ValueError
       end.

(** [np.sum]. *)
Definition np_sum (xs : list Z) : Z := foldr Z.add 0 xs.

(** [np.argmin]: index of the first minimal entry; ValueError on an empty
    sequence. *)
Fixpoint argmin_from (best : Z) (besti : nat) (i : nat) (xs : list Z) : nat :=
  match xs with
  | [] => besti
  | x :: xs' =>
      if x <? best then argmin_from x i (S i) xs'
      else argmin_from best besti (S i) xs'
  end.
Definition np_argmin (xs : list Z) : result nat :=
  match xs with
  | [] => Raise ValueError
  | x :: xs' => Ok (argmin_from x 0%nat 1%nat xs')
  end.

(** ** Block-step derivation (create_source, lines 279-289) *)

Definition block_step_body (st : list Z * Z) (dimnum : nat) : list Z * Z :=
  let '(block_step, tmpnumthreads) := st in
  let newstep := np_mod tmpnumthreads (block_step !!! dimnum) in
  let tmpnumthreads := np_floordiv tmpnumthreads (block_step !!! dimnum) in
  (<[dimnum := newstep]> block_step, tmpnumthreads).

(** [shape] is the shape in traversal order (already reversed when
    [do_reverse]). *)
Definition calc_block_step (shape : list Z) (numthreads : Z) : list Z :=
  let ndim := length shape in
  let block_step := shape in
  fst (foldl block_step_body (block_step, numthreads) (seq 0 ndim)).

(** Product of a list of dimension sizes. *)
Definition prod (xs : list Z) : Z := foldr Z.mul 1 xs.

(** ** Call arguments (the array collaborator)

    An actual parameter is a GPUArray, of which only the shape, the byte
    strides, the item size and the two contiguity flags are consumed, or
    something without layout attributes: a [DeviceAllocation] (a GPUArray's
    [gpudata]) or a scalar. *)

Record GPUArray := {
  shape : list Z;
  strides : list Z;
  itemsize : Z;
  f_contiguous : bool;
  c_contiguous : bool;
}.

Inductive arg :=
  | ArrayArg (a : GPUArray)
  | DeviceAllocation
  | ScalarValue (v : Z).

(** [arg.itemsize] and [arg.strides]: AttributeError on an object that has
    no such attribute. *)
Definition attr_itemsize (a : arg) : result Z :=
  match a with
  | ArrayArg g => Ok (itemsize g)
  | _ => Raise (AttributeError "itemsize")
  end.
Definition attr_strides (a : arg) : result (list Z) :=
  match a with
  | ArrayArg g => Ok (strides g)
  | _ => Raise (AttributeError "strides")
  end.

(** ** Layout classification (_precalc_array_info, lines 98-141) *)

(** The loop variables of [_precalc_array_info]; [pa_args] is the argument
    list, whose arrays the loop updates in place ([arg.strides = ...]). *)
Record precalc_state := {
  pa_contigmatch : bool;
  pa_arrayspecificinds : bool;
  pa_shape : option (list Z);
  pa_order : option string;
  pa_args : list arg;
}.

(** The returned tuple
    [(contigmatch, arrayspecificinds, shape, arrayitemstrides)]. *)
Record array_info := {
  contigmatch : bool;
  arrayspecificinds : bool;
  canonical_shape : option (list Z);
  arrayitemstrides : list (Z * list Z);
}.

(** [(np.array(curshape) > 1) * arg.strides] *)
Definition normalized_strides (curshape st : list Z) : result (list Z) :=
  np_mul (map (fun n => if 1 <? n then 1 else 0) curshape) st.

Definition precalc_body (shape_arg_index : option nat)
    (st : precalc_state) (i : nat) : result precalc_state :=
  arg ← getitem (pa_args st) i;
  if negb (pa_arrayspecificinds st) then Ok st
  else match arg with
  | ArrayArg a =>
      let curshape := shape a in
      newstrides ← normalized_strides curshape (strides a);
      let a := {| shape := shape a; strides := newstrides;
                  itemsize := itemsize a;
                  f_contiguous := f_contiguous a;
                  c_contiguous := c_contiguous a |} in
      let args := <[i := ArrayArg a]> (pa_args st) in
      let curorder := "N"%string in
      let '(contigmatch, shape, order) :=
        if pa_contigmatch st then
          let curorder :=
            if f_contiguous a then "F"%string
            else if c_contiguous a then "C"%string
            else curorder in
          let contigmatch :=
            if decide (curorder = "N"%string) then false
            else pa_contigmatch st in
          match pa_shape st with
          | None => (contigmatch, Some curshape, Some curorder)
          | Some _ =>
              if decide (pa_order st <> Some curorder)
              then (false, pa_shape st, pa_order st)
              else (contigmatch, pa_shape st, pa_order st)
          end
        else (pa_contigmatch st, pa_shape st, pa_order st) in
      if decide (shape_arg_index = None /\ shape <> Some curshape)
      then Raise (ShapeMismatch shape curshape)
      else
        let shape :=
          if decide (shape_arg_index = Some i) then Some curshape
          else shape in
        Ok {| pa_contigmatch := contigmatch;
              pa_arrayspecificinds := true;
              pa_shape := shape;
              pa_order := order;
              pa_args := args |}
  | _ =>
      Ok {| pa_contigmatch := pa_contigmatch st;
            pa_arrayspecificinds := false;
            pa_shape := pa_shape st;
            pa_order := pa_order st;
            pa_args := pa_args st |}
  end.

Definition _precalc_array_info (array_arg_inds : list nat)
    (args : list arg) (shape_arg_index : option nat)
  : result (list arg * array_info) :=
  st ← for_loop (precalc_body shape_arg_index)
         {| pa_contigmatch := true; pa_arrayspecificinds := true;
            pa_shape := None; pa_order := None; pa_args := args |}
         array_arg_inds;
  arrayitemstrides ←
    for_each (fun i =>
                arg ← getitem (pa_args st) i;
                isz ← attr_itemsize arg;
                str ← attr_strides arg;
                Ok (isz, str))
             array_arg_inds;
  Ok (pa_args st,
      {| contigmatch := pa_contigmatch st;
         arrayspecificinds := pa_arrayspecificinds st;
         canonical_shape := pa_shape st;
         arrayitemstrides := arrayitemstrides |}).

(** ** The module instance (ElementwiseSourceModule.__init__, lines 69-96) *)

(** A kernel parameter descriptor ([VectorArg] or [ScalarArg] of
    pycuda.tools): whether it is a [VectorArg], its name, and the text its
    [declarator()] returns. *)
Record argument := {
  is_VectorArg : bool;
  name : string;
  declarator : string;
}.

(** [self._init_args] *)
Record init_args := {
  ia_arg_names : list string;
  ia_arg_decls : string;
  ia_operation : string;
  ia_name : string;
  ia_preamble : string;
  ia_loop_prep : string;
  ia_after_loop : string;
}.

Record ElementwiseSourceModule := {
  _do_range : bool;
  _do_indices : bool;
  _order : string;
  _arg_decls : string;
  _array_arg_inds : list nat;
  _shape_arg_index : nat;
  _arg_names : list string;
  _array_arg_names : list string;
  _init_args : init_args;
  _init_args_repr : string;
  _debug : bool;
}.

(** The few Python values the [assert] statement of the constructor handles,
    and their truth value. *)
Inductive pyobj :=
  | PyBool (b : bool)
  | PyStr (s : string)
  | PyTuple (items : list pyobj).

Definition truth (v : pyobj) : bool :=
  match v with
  | PyBool b => b
  | PyStr s => negb (bool_decide (s = ""%string))
  | PyTuple items => negb (bool_decide (items = []))
  end.

(** [assert v] *)
Definition py_assert (v : pyobj) : result unit :=
  if truth v then Ok tt else Raise AssertionError.

(** [s in t] on strings: [s] occurs in [t]. *)
Definition str_in (s t : string) : bool :=
  match String.index 0 s t with
  | Some _ => true
  | None => false
  end.

(** [sep.join(l)] *)
Definition join (sep : string) (l : list string) : string :=
  String.concat sep l.

Definition order_message : string := "order must be 'F', 'C', or 'K'".

(** The constructor.  [py_repr] is Python's [repr] on the tuple
    [_init_args]; the compile keywords handed to the base class play no
    role here. *)
Definition __init__ (py_repr : init_args -> string)
    (arguments : list argument) (operation : string)
    (name_ preamble loop_prep after_loop : string)
    (do_range : bool)
    (shape_arg_index : option nat)
    (array_arg_inds : option (list nat))
    (do_indices : bool)
    (order : string)
    (debug : bool) : result ElementwiseSourceModule :=
  _ ← py_assert (PyTuple [PyBool (str_in order "CFK"); PyStr order_message]);
  let arg_decls := join ", " (map declarator arguments) in
  let array_arg_inds :=
    match array_arg_inds with
    | None =>
        filter (fun i => is_VectorArg <$> arguments !! i = Some true)
               (seq 0 (length arguments))
    | Some inds => inds
    end in
  shape_arg_index ←
    match shape_arg_index with
    | None => getitem array_arg_inds 0
    | Some i => Ok i
    end;
  let arg_names := map name arguments in
  array_arg_names ← for_each (getitem arg_names) array_arg_inds;
  let init_args :=
    {| ia_arg_names := arg_names; ia_arg_decls := arg_decls;
       ia_operation := operation; ia_name := name_;
       ia_preamble := preamble; ia_loop_prep := loop_prep;
       ia_after_loop := after_loop |} in
  Ok {| _do_range := do_range;
        _do_indices := do_indices;
        _order := order;
        _arg_decls := arg_decls;
        _array_arg_inds := array_arg_inds;
        _shape_arg_index := shape_arg_index;
        _arg_names := arg_names;
        _array_arg_names := array_arg_names;
        _init_args := init_args;
        _init_args_repr := py_repr init_args;
        _debug := debug |}.

(** ** Cache key (create_key, lines 144-185) *)

(** The nine-component tuple that is both the slow-path key and the
    [precalc] value handed to [create_source]; on the fast path the last
    five components are [None]. *)
Record signature := {
  sig_init_args_repr : string;
  sig_shape : option (list Z);
  sig_contigmatch : bool;
  sig_arrayspecificinds : bool;
  sig_arrayitemstrides : option (list (Z * list Z));
  sig_arg_decls : option string;
  sig_do_reverse : option bool;
  sig_grid : option (list Z);
  sig_block : option (list Z);
}.

(** The key is a string on the fast path and the tuple on the slow path. *)
Inductive key :=
  | KeyStr (s : string)
  | KeyTuple (t : signature).

(** [len(shape)]: TypeError on [None]. *)
Definition len {A} (l : option (list A)) : result nat :=
  match l with
  | Some l => Ok (length l)
  | None => Raise TypeError
  end.

(** [if v != 1: raise e], as a step of a sequence. *)
Definition require_unit (v : Z) (e : exn) : result unit :=
  if decide (v <> 1) then Raise e else Ok tt.

(** [create_key].  The layout classifier it calls is the compiled
    [_drv._precalc_array_info], which is not part of the Python sources: it
    is the parameter [drv_precalc_array_info], with the calling convention
    of the call site (returning also the arguments as it leaves them). *)
Definition create_key
    (drv_precalc_array_info :
       list arg -> list nat -> nat -> result (list arg * array_info))
    (self : ElementwiseSourceModule)
    (grid block : list Z) (args : list arg)
  : result (key * signature) :=
  let array_arg_inds := _array_arg_inds self in
  '(args, precalc_init) ←
    drv_precalc_array_info args array_arg_inds (_shape_arg_index self);
  let contigmatch := contigmatch precalc_init in
  let arrayspecificinds := arrayspecificinds precalc_init in
  let shape := canonical_shape precalc_init in
  let arrayitemstrides := arrayitemstrides precalc_init in
  if (contigmatch || negb arrayspecificinds) && negb (_do_indices self) then
    let key := _init_args_repr self in
    Ok (KeyStr key,
        {| sig_init_args_repr := _init_args_repr self;
           sig_shape := shape;
           sig_contigmatch := contigmatch;
           sig_arrayspecificinds := arrayspecificinds;
           sig_arrayitemstrides := None;
           sig_arg_decls := None;
           sig_do_reverse := None;
           sig_grid := None;
           sig_block := None |})
  else
    (* grid[1] != 1 or block[1] != 1 or block[2] != 1 *)
    g1 ← getitem grid 1;
    _ ← require_unit g1 (InvalidGeometry grid block);
    b1 ← getitem block 1;
    _ ← require_unit b1 (InvalidGeometry grid block);
    b2 ← getitem block 2;
    _ ← require_unit b2 (InvalidGeometry grid block);
    ndim ← len shape;
    do_reverse ←
      (if decide (_order self = "C"%string) then Ok true
       else if decide (_order self = "K"%string) then
         a ← getitem args (_shape_arg_index self);
         st ← attr_strides a;
         m ← np_argmin (map Z.abs st);
         Ok (bool_decide (ndim `div` 2 < m)%nat)
       else Ok false);
    let key :=
      {| sig_init_args_repr := _init_args_repr self;
         sig_shape := shape;
         sig_contigmatch := contigmatch;
         sig_arrayspecificinds := arrayspecificinds;
         sig_arrayitemstrides := Some arrayitemstrides;
         sig_arg_decls := Some (_arg_decls self);
         sig_do_reverse := Some do_reverse;
         sig_grid := Some grid;
         sig_block := Some block |} in
    Ok (KeyTuple key, key).

(** ** Traversal plan (create_source, lines 270-311) *)

(** One entry of [arrayarginfos]:
    [(arg_name, elemstrides, dimelemstrides, blockelemstrides, inforef)]. *)
Record arrayarginfo := {
  ai_name : string;
  ai_elemstrides : list Z;
  ai_dimelemstrides : list Z;
  ai_blockelemstrides : list Z;
  ai_inforef : option nat;
}.

(** The lists the planning loop builds. *)
Record plan_state := {
  arrayindnames : list string;
  arrayrefnames : list (string * string);
  arrayarginfos : list arrayarginfo;
}.

(** [strides[0:n] = vals] on a list. *)
Definition slice_assign (l : list Z) (n : nat) (vals : list Z) : list Z :=
  vals ++ drop n l.

(** The search [for i, arrayarginfo in enumerate(arrayarginfos)]: the last
    earlier entry with the same element strides. *)
Definition find_inforef (elemstrides : list Z) (infos : list arrayarginfo)
  : option nat :=
  foldl (fun inforef '(i, arrayarginfo) =>
           if decide (elemstrides = ai_elemstrides arrayarginfo)
           then Some i else inforef)
        None (imap pair infos).

Definition arginfo_body (ndim : nat) (do_reverse : bool)
    (shapearr block_step : list Z)
    (st : plan_state) (a : string * Z * list Z) : result plan_state :=
  let '(arg_name, arg_itemsize, arg_strides) := a in
  let strides := replicate ndim 0 in
  let strides :=
    if do_reverse
    then slice_assign strides (length arg_strides) (reverse arg_strides)
    else slice_assign strides (length arg_strides) arg_strides in
  let elemstrides := map (fun s => np_floordiv s arg_itemsize) strides in
  dimelemstrides ← np_mul elemstrides shapearr;
  blockelemstrides ← np_mul elemstrides block_step;
  let inforef := find_inforef elemstrides (arrayarginfos st) in
  '(indnames, refnames) ←
    match inforef with
    | None => Ok (arrayindnames st ++ [arg_name], arrayrefnames st)
    | Some i =>
        info ← getitem (arrayarginfos st) i;
        Ok (arrayindnames st, arrayrefnames st ++ [(arg_name, ai_name info)])
    end;
  Ok {| arrayindnames := indnames;
        arrayrefnames := refnames;
        arrayarginfos :=
          arrayarginfos st ++
            [{| ai_name := arg_name;
                ai_elemstrides := elemstrides;
                ai_dimelemstrides := dimelemstrides;
                ai_blockelemstrides := blockelemstrides;
                ai_inforef := inforef |}] |}.

(** Everything the emission part of the slow path reads. *)
Record plan := {
  ndim : nat;
  numthreads : Z;
  plan_shape : list Z;
  block_step : list Z;
  plan_names : plan_state;
}.

(** Lines 277-311: [array_arg_names] is that of line 194. *)
Definition make_plan (array_arg_names : list string)
    (precalc : signature) (grid block : list Z) : result plan :=
  ais ← match sig_arrayitemstrides precalc with
        | Some ais => Ok ais
        | None => Raise TypeError
        end;
  let argnamestrides :=
    map (fun '(arg_name, itemstride) =>
           (arg_name, itemstride.1, itemstride.2))
        (zip array_arg_names ais) in
  ndim ← len (sig_shape precalc);
  b0 ← getitem block 0;
  g0 ← getitem grid 0;
  let numthreads := b0 * g0 in
  let do_reverse := default false (sig_do_reverse precalc) in
  let shape := default [] (sig_shape precalc) in
  let shape := if do_reverse then reverse shape else shape in
  let shapearr := shape in
  let block_step := calc_block_step shapearr numthreads in
  st ← for_loop (arginfo_body ndim do_reverse shapearr block_step)
         {| arrayindnames := []; arrayrefnames := []; arrayarginfos := [] |}
         argnamestrides;
  Ok {| ndim := ndim; numthreads := numthreads; plan_shape := shape;
        block_step := block_step; plan_names := st |}.

(** ** Emitted source

    The slow path assembles its text in [DeferredSource] objects
    (pycuda.deferred, not part of these sources).  A deferred source is
    kept here as the sequence of templates added to it, each with the
    values substituted into it, in the order of the additions.  The fast
    path builds a plain string, which is kept as such. *)

(** A macro the emitted text refers to: [SHAPE_d], [BLOCK_STEP_d], or
    [ELEMSTRIDE_x_d], [DIMELEMSTRIDE_x_d], [BLOCKELEMSTRIDE_x_d]. *)
Inductive macro :=
  | DimMacro (definename : string) (dimnum : nat)
  | ArrMacro (definename name : string) (dimnum : nat).

#[global] Instance macro_eq_dec : EqDecision macro.
Proof. solve_decision. Defined.

(** Additions to [defines]. *)
Inductive define :=
  | DefNDIM (ndim : nat)          (* #define NDIM %d *)
  | DefValue (m : macro) (val : Z)
      (* #define %s_%d %d   and   #define %s_%s_%d %d *)
  | DefAlias (name refname : string)   (* #define %s_i %s_i *)
  | DefINDEX (d1 d2 : nat).       (* #define INDEX_%d (INDEX[%d]) *)

(** Additions to [decls]. *)
Inductive decl :=
  | DeclGLOBAL_i                  (* unsigned _GLOBAL_i = _CTA_START + _TID; *)
  | DeclArrayIndex (name : string)    (* long %s_i = 0; *)
  | DeclINDEXArray (ndim : nat)   (* long INDEX[%d]; *)
  | DeclINDEX (dimnum : nat).     (* long INDEX_%d; *)

(** Additions inside the braces of a carry test. *)
Inductive carry_stmt :=
  | CarryIndex (d1 d2 d3 : nat)
      (* INDEX_%d -= SHAPE_%d; INDEX_%d ++; *)
  | CarryArray (n1 n2 : string) (d2 : nat) (n3 : string) (d3 : nat).
      (* %s_i += ELEMSTRIDE_%s_%d - DIMELEMSTRIDE_%s_%d; *)

(** Additions to [loop_inds_calc] and [loop_inds_inc]. *)
Inductive stmt :=
  | CalcTmp                       (* unsigned int _TMP_GLOBAL_i = _GLOBAL_i; *)
  | CalcIndex (d1 d2 d3 : nat)
      (* INDEX_%d = _TMP_GLOBAL_i %% SHAPE_%d;
         _TMP_GLOBAL_i = _TMP_GLOBAL_i / SHAPE_%d; *)
  | CalcArray (n1 : string) (d1 : nat) (n2 : string) (d2 : nat)
      (* %s_i += INDEX_%d * ELEMSTRIDE_%s_%d; *)
  | IncArray (n : string) (terms : list macro)
      (* %s_i += %s;  with the terms joined by " + " *)
  | IncIndex (d1 d2 : nat)        (* INDEX_%d += BLOCK_STEP_%d; *)
  | IfCarry (d1 d2 : nat) (body : list carry_stmt)
      (* if (INDEX_%d >= SHAPE_%d) { ... } *)
  | DebugCall (funcname : string)
      (* if (_CTA_START == 0 && _TID == 0) { printf ... CALLING FUNC %s *)
  | DebugArray (funcname name : string) (maxoffset : Z) (name' : string)
      (* printf("(%s) %s: ptr=0x%%lx maxoffset(elems)=%s\n", ... %s) *)
  | DebugEnd.                     (* } *)

(** The bounds probes of lines 440-455, of which [loop_preop] consists. *)
Inductive preop :=
  | IndTest (name : string) (maxoffset : Z) (name' : string) (ndim : nat).
      (* if (%s_i > %s || %s_i < 0) { printf(...); break; } *)

(** Additions to the caller's text pieces. *)
Inductive text :=
  | UserText (s : string)
  | IncludeStdio                  (* #include <stdio.h> *)
  | DebugDone (funcname : string).    (* ... DONE CALLING FUNC %s ... *)

(** [loop_body]: the range or the bounded loop around
    [loop_preop; operation; loop_inds_inc]. *)
Record loop := {
  loop_is_range : bool;
  loop_preop : list preop;
  loop_operation : list text;
  loop_inds_inc : list stmt;
}.

(** [source], by the entries of its [format_dict]. *)
Record DeferredSource := {
  src_arg_decls : string;
  src_name : string;
  src_preamble : list text;
  src_loop_prep : list text;
  src_after_loop : list text;
  src_defines : list define;
  src_decls : list decl;
  src_loop_inds_calc : list stmt;
  src_loop_body : loop;
}.

Inductive source :=
  | SourceText (s : string)
  | SourceDeferred (d : DeferredSource).

(** ** Source emission, slow path (create_source, lines 313-547) *)

(** One [#define] of the macro [mk dimnum] with the value [vals[dimnum]]:
    the body of the loops of lines 331-343. *)
Definition emit_one (mk : nat -> macro) (vals : list Z) (dimnum : nat)
  : result define :=
  v ← getitem vals dimnum; Ok (DefValue (mk dimnum) v).

(** [#define %s_%d %d] for each dimension. *)
Definition emit_dim_defines (ndim : nat) (definename : string)
    (vals : list Z) : result (list define) :=
  for_each (emit_one (DimMacro definename) vals) (seq 0 ndim).

(** [#define %s_%s_%d %d] for each dimension. *)
Definition emit_arr_defines (ndim : nat) (definename name : string)
    (vals : list Z) : result (list define) :=
  for_each (emit_one (ArrMacro definename name) vals) (seq 0 ndim).

Definition emit_info_defines (ndim : nat) (info : arrayarginfo)
  : result (list define) :=
  e ← emit_arr_defines ndim "ELEMSTRIDE" (ai_name info)
        (ai_elemstrides info);
  d ← emit_arr_defines ndim "DIMELEMSTRIDE" (ai_name info)
        (ai_dimelemstrides info);
  b ← emit_arr_defines ndim "BLOCKELEMSTRIDE" (ai_name info)
        (ai_blockelemstrides info);
  Ok (e ++ d ++ b).

Definition emit_defines (do_indices : bool) (p : plan)
  : result (list define) :=
  let ndim := ndim p in
  let d0 := if do_indices then [DefNDIM ndim] else [] in
  d1 ← emit_dim_defines ndim "SHAPE" (plan_shape p);
  d2 ← emit_dim_defines ndim "BLOCK_STEP" (block_step p);
  d3 ← for_each (emit_info_defines ndim) (arrayarginfos (plan_names p));
  let d4 := map (fun '(name, refname) => DefAlias name refname)
                (arrayrefnames (plan_names p)) in
  let d5 := if do_indices
            then map (fun dimnum => DefINDEX dimnum dimnum) (seq 0 ndim)
            else [] in
  Ok (d0 ++ d1 ++ d2 ++ concat d3 ++ d4 ++ d5).

Definition emit_decls (do_indices : bool) (p : plan) : list decl :=
  [DeclGLOBAL_i]
  ++ map DeclArrayIndex (arrayindnames (plan_names p))
  ++ (if do_indices then [DeclINDEXArray (ndim p)]
      else map DeclINDEX (seq 0 (ndim p))).

(** Lines 377-387: what [loop_inds_calc] gets for the dimension
    [dimnum]. *)
Definition calc_dim (arrayindnames : list string) (dimnum : nat)
  : list stmt :=
  CalcIndex dimnum dimnum dimnum
  :: map (fun name => CalcArray name dimnum name dimnum) arrayindnames.

(** Lines 374-387. *)
Definition emit_loop_inds_calc (ndim : nat) (arrayindnames : list string)
  : list stmt :=
  [CalcTmp] ++ flat_map (calc_dim arrayindnames) (seq 0 ndim).

(** Lines 396-417: what [loop_inds_inc] gets for the dimension [dimnum].
    The test [dimnum < ndim - 1] is only reached with [ndim >= 1]. *)
Definition inc_dim (arrayindnames : list string) (ndim : nat) (dimnum : nat)
  : list stmt :=
  IncIndex dimnum dimnum
  :: (if bool_decide (dimnum < ndim - 1)%nat then
        [IfCarry dimnum dimnum
           (CarryIndex dimnum dimnum (dimnum + 1)
            :: map (fun name =>
                      CarryArray name name (dimnum + 1) name dimnum)
                   arrayindnames)]
      else []).

(** Lines 389-417. *)
Definition emit_loop_inds_inc (ndim : nat) (arrayindnames : list string)
  : list stmt :=
  map (fun name =>
         IncArray name
           (map (fun dimnum => ArrMacro "BLOCKELEMSTRIDE" name dimnum)
                (seq 0 ndim)))
      arrayindnames
  ++ flat_map (inc_dim arrayindnames ndim) (seq 0 ndim).

(** [np.sum((np.array(shape) - 1) * np.array(elemstrides))] *)
Definition maxoffset (shape elemstrides : list Z) : result Z :=
  np_sum <$> np_mul (map (fun s => s - 1) shape) elemstrides.

(** Lines 423-439. *)
Definition emit_debug_calc (funcname : string) (p : plan)
  : result (list stmt) :=
  arrs ← for_each (fun info =>
                     m ← maxoffset (plan_shape p) (ai_elemstrides info);
                     Ok (DebugArray funcname (ai_name info) m (ai_name info)))
                  (arrayarginfos (plan_names p));
  Ok ([DebugCall funcname] ++ arrs ++ [DebugEnd]).

(** Lines 440-455. *)
Definition emit_indtest (p : plan) : result (list preop) :=
  for_each (fun info =>
              m ← maxoffset (plan_shape p) (ai_elemstrides info);
              Ok (IndTest (ai_name info) m (ai_name info) (ndim p)))
           (filter (fun info => ai_inforef info = None)
                   (arrayarginfos (plan_names p))).

Definition emit (self : ElementwiseSourceModule) (p : plan)
  : result DeferredSource :=
  let ia := _init_args self in
  let funcname := ia_name ia in
  let names := plan_names p in
  defines ← emit_defines (_do_indices self) p;
  let decls := emit_decls (_do_indices self) p in
  let loop_inds_calc := emit_loop_inds_calc (ndim p) (arrayindnames names) in
  let loop_inds_inc := emit_loop_inds_inc (ndim p) (arrayindnames names) in
  '(preamble, loop_inds_calc, loop_preop, after_loop) ←
    (if _debug self then
       dbg ← emit_debug_calc funcname p;
       indtest ← emit_indtest p;
       Ok ([UserText (ia_preamble ia); IncludeStdio],
           loop_inds_calc ++ dbg,
           indtest ++ [],
           [UserText (ia_after_loop ia); DebugDone funcname])
     else
       Ok ([UserText (ia_preamble ia)], loop_inds_calc, [],
           [UserText (ia_after_loop ia)]));
  let loop_body :=
    {| loop_is_range := _do_range self;
       loop_preop := loop_preop;
       loop_operation := [UserText (ia_operation ia)];
       loop_inds_inc := loop_inds_inc |} in
  Ok {| src_arg_decls := ia_arg_decls ia;
        src_name := funcname;
        src_preamble := preamble;
        src_loop_prep := [UserText (ia_loop_prep ia)];
        src_after_loop := after_loop;
        src_defines := defines;
        src_decls := decls;
        src_loop_inds_calc := loop_inds_calc;
        src_loop_body := loop_body |}.

(** ** Source emission, fast path (create_source, lines 196-266)

    The templates are those of the source, character for character. *)

Definition fast_define_template (arg_name : string) : string :=
  "
                        #define "
  +:+ arg_name
  +:+ "_i i
                    ".

Definition fast_range_loop_template (operation : string) : string :=
  "
                  if (step < 0)
                  {
                    for (i = start + (_CTA_START + _TID)*step;
                      i > stop; i += total_threads*step)
                    {
                      "
  +:+ operation
  +:+ ";
                    }
                  }
                  else
                  {
                    for (i = start + (_CTA_START + _TID)*step;
                      i < stop; i += total_threads*step)
                    {
                      "
  +:+ operation
  +:+ ";
                    }
                  }
                ".

Definition fast_loop_template (operation : string) : string :=
  "
                  for (i = _CTA_START + _TID; i < n; i += total_threads)
                  {
                    "
  +:+ operation
  +:+ ";
                  }
                ".

Definition fast_kernel_template
  (arg_decls name preamble loop_prep after_loop loop_body indtype : string)
  : string :=
  "
                #include <pycuda-complex.hpp>

                "
  +:+ preamble
  +:+ "

                __global__ void "
  +:+ name
  +:+ "("
  +:+ arg_decls
  +:+ ")
                {
                  unsigned _TID = threadIdx.x;
                  unsigned total_threads = gridDim.x*blockDim.x;
                  unsigned _CTA_START = blockDim.x*blockIdx.x;

                  "
  +:+ indtype
  +:+ " i;

                  "
  +:+ loop_prep
  +:+ ";

                  "
  +:+ loop_body
  +:+ ";

                  "
  +:+ after_loop
  +:+ ";
                }
                ".

Definition create_source_fast (self : ElementwiseSourceModule)
    (arrayspecificinds : bool) (array_arg_names : list string) : string :=
  let ia := _init_args self in
  let indtype := if _do_range self then "long"%string
                 else "unsigned"%string in
  let preamble :=
    if arrayspecificinds
    then foldl (fun preamble arg_name =>
                  preamble +:+ fast_define_template arg_name)
               (ia_preamble ia) array_arg_names
    else ia_preamble ia in
  let loop_body :=
    if _do_range self then fast_range_loop_template (ia_operation ia)
    else fast_loop_template (ia_operation ia) in
  fast_kernel_template (ia_arg_decls ia) (ia_name ia) preamble
    (ia_loop_prep ia) (ia_after_loop ia) loop_body indtype.

(** ** create_source (lines 187-547) *)

Definition create_source (self : ElementwiseSourceModule)
    (precalc : signature) (grid block : list Z) : result source :=
  let arg_names := ia_arg_names (_init_args self) in
  array_arg_names ← for_each (getitem arg_names) (_array_arg_inds self);
  if sig_contigmatch precalc && negb (_do_indices self) then
    Ok (SourceText
          (create_source_fast self (sig_arrayspecificinds precalc)
             array_arg_names))
  else
    p ← make_plan array_arg_names precalc grid block;
    d ← emit self p;
    Ok (SourceDeferred d).

(** ** Meaning of the emitted index code

    What one thread computes when it runs the declarations, the initial
    decomposition [loop_inds_calc] and the update [loop_inds_inc].  A
    statement that uses an undefined macro or an unset variable, or divides
    by zero, has no meaning ([None]). *)

(** The value the preprocessor gives a macro: that of its latest
    definition. *)
Fixpoint macro_value (defines : list define) (m : macro) : option Z :=
  match defines with
  | [] => None
  | d :: ds =>
      match macro_value ds m with
      | Some v => Some v
      | None =>
          match d with
          | DefValue m' v => if decide (m' = m) then Some v else None
          | _ => None
          end
      end
  end.

(** [#define x_i y_i]: the name [x_i] stands for [y_i]. *)
Fixpoint alias_target (defines : list define) (name : string)
  : option string :=
  match defines with
  | [] => None
  | d :: ds =>
      match alias_target ds name with
      | Some r => Some r
      | None =>
          match d with
          | DefAlias n r => if decide (n = name) then Some r else None
          | _ => None
          end
      end
  end.

(** The index variable that [name_i] denotes after macro expansion. *)
Fixpoint expand_alias (fuel : nat) (defines : list define) (name : string)
  : string :=
  match fuel with
  | O => name
  | S fuel' =>
      match alias_target defines name with
      | Some r => expand_alias fuel' defines r
      | None => name
      end
  end.
Definition index_variable (defines : list define) (name : string) : string :=
  expand_alias (length defines) defines name.

(** The variables of one thread: [_GLOBAL_i], [_TMP_GLOBAL_i], the
    per-dimension indices [INDEX_d] and the flat offsets [x_i]. *)
Record cstate := {
  _GLOBAL_i : Z;
  _TMP_GLOBAL_i : Z;
  INDEX : gmap nat Z;
  offsets : gmap string Z;
}.

(** [start] is the thread's [_CTA_START + _TID]. *)
Definition exec_decl (start : Z) (st : cstate) (d : decl) : cstate :=
  match d with
  | DeclGLOBAL_i =>
      {| _GLOBAL_i := start; _TMP_GLOBAL_i := _TMP_GLOBAL_i st;
         INDEX := INDEX st; offsets := offsets st |}
  | DeclArrayIndex name =>
      {| _GLOBAL_i := _GLOBAL_i st; _TMP_GLOBAL_i := _TMP_GLOBAL_i st;
         INDEX := INDEX st; offsets := <[name := 0]> (offsets st) |}
  | DeclINDEXArray _ | DeclINDEX _ => st
  end.

Definition set_INDEX (d : nat) (v : Z) (st : cstate) : cstate :=
  {| _GLOBAL_i := _GLOBAL_i st; _TMP_GLOBAL_i := _TMP_GLOBAL_i st;
     INDEX := <[d := v]> (INDEX st); offsets := offsets st |}.
Definition set_offset (n : string) (v : Z) (st : cstate) : cstate :=
  {| _GLOBAL_i := _GLOBAL_i st; _TMP_GLOBAL_i := _TMP_GLOBAL_i st;
     INDEX := INDEX st; offsets := <[n := v]> (offsets st) |}.
Definition set_TMP (v : Z) (st : cstate) : cstate :=
  {| _GLOBAL_i := _GLOBAL_i st; _TMP_GLOBAL_i := v;
     INDEX := INDEX st; offsets := offsets st |}.

(** A sequence of statements, run in order. *)
Fixpoint exec_list {A} (ex : cstate -> A -> option cstate)
    (st : cstate) (l : list A) : option cstate :=
  match l with
  | [] => Some st
  | s :: l' => st' ← ex st s; exec_list ex st' l'
  end.

Section Exec.
Variable M : macro -> option Z.

Definition exec_carry (st : cstate) (s : carry_stmt) : option cstate :=
  match s with
  | CarryIndex d1 d2 d3 =>
      i ← INDEX st !! d1;
      sh ← M (DimMacro "SHAPE" d2);
      let st := set_INDEX d1 (i - sh) st in
      j ← INDEX st !! d3;
      Some (set_INDEX d3 (j + 1) st)
  | CarryArray n1 n2 d2 n3 d3 =>
      v ← offsets st !! n1;
      e ← M (ArrMacro "ELEMSTRIDE" n2 d2);
      de ← M (ArrMacro "DIMELEMSTRIDE" n3 d3);
      Some (set_offset n1 (v + (e - de)) st)
  end.

Definition exec_carries : cstate -> list carry_stmt -> option cstate :=
  exec_list exec_carry.

Definition exec_stmt (st : cstate) (s : stmt) : option cstate :=
  match s with
  | CalcTmp => Some (set_TMP (_GLOBAL_i st) st)
  | CalcIndex d1 d2 d3 =>
      sh ← M (DimMacro "SHAPE" d2);
      if decide (sh = 0) then None else
      let st := set_INDEX d1 (Z.rem (_TMP_GLOBAL_i st) sh) st in
      sh' ← M (DimMacro "SHAPE" d3);
      if decide (sh' = 0) then None else
      Some (set_TMP (Z.quot (_TMP_GLOBAL_i st) sh') st)
  | CalcArray n1 d1 n2 d2 =>
      v ← offsets st !! n1;
      i ← INDEX st !! d1;
      e ← M (ArrMacro "ELEMSTRIDE" n2 d2);
      Some (set_offset n1 (v + i * e) st)
  | IncArray n terms =>
      v ← offsets st !! n;
      ts ← mapM M terms;
      Some (set_offset n (v + np_sum ts) st)
  | IncIndex d1 d2 =>
      i ← INDEX st !! d1;
      b ← M (DimMacro "BLOCK_STEP" d2);
      Some (set_INDEX d1 (i + b) st)
  | IfCarry d1 d2 body =>
      i ← INDEX st !! d1;
      sh ← M (DimMacro "SHAPE" d2);
      if decide (sh <= i) then exec_carries st body else Some st
  | DebugCall _ | DebugArray _ _ _ _ | DebugEnd => Some st
  end.

Definition exec_stmts : cstate -> list stmt -> option cstate :=
  exec_list exec_stmt.

(** [k] rounds of the update. *)
Fixpoint iterate (k : nat) (inc : list stmt) (st : cstate)
  : option cstate :=
  match k with
  | O => Some st
  | S k' => st' ← iterate k' inc st; exec_stmts st' inc
  end.
End Exec.

(** The state of the thread that starts at flat position [start], after the
    declarations. *)
Definition thread_start (src : DeferredSource) (start : Z) : cstate :=
  foldl (exec_decl start)
        {| _GLOBAL_i := 0; _TMP_GLOBAL_i := 0; INDEX := ∅; offsets := ∅ |}
        (src_decls src).

(** Direct decomposition: the declarations and [loop_inds_calc], for a
    thread at flat position [pos]. *)
Definition run_calc (src : DeferredSource) (pos : Z) : option cstate :=
  exec_stmts (macro_value (src_defines src)) (thread_start src pos)
             (src_loop_inds_calc src).

(** Incremental computation: the initial decomposition at [start] followed
    by [k] rounds of [loop_inds_inc]. *)
Definition run_odometer (src : DeferredSource) (start : Z) (k : nat)
  : option cstate :=
  st ← run_calc src start;
  iterate (macro_value (src_defines src)) k
          (loop_inds_inc (src_loop_body src)) st.

(** The flat offset the operation text reads as [name_i]. *)
Definition array_offset (src : DeferredSource) (st : cstate) (name : string)
  : option Z :=
  offsets st !! index_variable (src_defines src) name.

(** ** Direct decomposition, as the design document words it

    Mixed-radix digits of a flat position, innermost dimension first, and
    the flat offset of an array with given element strides. *)
Fixpoint direct_indices (shape : list Z) (pos : Z) : list Z :=
  match shape with
  | [] => []
  | s :: shape' => pos mod s :: direct_indices shape' (pos / s)
  end.

Definition direct_offset (elemstrides indices : list Z) : Z :=
  np_sum (zip_with Z.mul indices elemstrides).

(** ** The update on lists of indices

    What one round of [loop_inds_inc] does to the indices of the dimensions
    it still has to treat, as a function of the sizes, block steps and
    current indices of those dimensions; and the sum of the corrections the
    carries add to the offset of an array with element strides [es]. *)
Fixpoint odometer (shape bs idx : list Z) : list Z :=
  match shape, bs, idx with
  | s :: shape', b :: bs', i :: idx' =>
      let x := i + b in
      match idx' with
      | [] => [x]
      | j :: idx'' =>
          if decide (s <= x)
          then (x - s) :: odometer shape' bs' ((j + 1) :: idx'')
          else x :: odometer shape' bs' idx'
      end
  | _, _, _ => []
  end.

Fixpoint carry_correction (shape bs idx es : list Z) : Z :=
  match shape, bs, idx, es with
  | s :: shape', b :: bs', i :: idx', e :: es' =>
      match idx', es' with
      | j :: idx'', e' :: _ =>
          if decide (s <= i + b)
          then (e' - e * s)
               + carry_correction shape' bs' ((j + 1) :: idx'') es'
          else carry_correction shape' bs' idx' es'
      | _, _ => 0
      end
  | _, _, _, _ => 0
  end.

(** An incoming carry, added to the first index. *)
Definition add_head (c : Z) (l : list Z) : list Z :=
  match l with
  | [] => []
  | i :: l' => (i + c) :: l'
  end.

(** Number of occurrences of a name in a list of names. *)
Definition count (n : string) (names : list string) : nat :=
  length (filter (fun x => x = n) names).

(** ** Instances used in the statements below *)

(** The instance with another dimension-ordering policy. *)
Definition with_order (order : string) (m : ElementwiseSourceModule)
  : ElementwiseSourceModule :=
  {| _do_range := _do_range m; _do_indices := _do_indices m;
     _order := order; _arg_decls := _arg_decls m;
     _array_arg_inds := _array_arg_inds m;
     _shape_arg_index := _shape_arg_index m;
     _arg_names := _arg_names m; _array_arg_names := _array_arg_names m;
     _init_args := _init_args m; _init_args_repr := _init_args_repr m;
     _debug := _debug m |}.

(** What [create_source] reads of an instance. *)
Definition same_template (m1 m2 : ElementwiseSourceModule) : Prop :=
  _init_args m1 = _init_args m2
  /\ _array_arg_inds m1 = _array_arg_inds m2
  /\ _do_range m1 = _do_range m2
  /\ _do_indices m1 = _do_indices m2
  /\ _debug m1 = _debug m2.

(** [create_key] with the Python [_precalc_array_info] of this module in
    the place of the compiled one. *)
Definition py_precalc_array_info (args : list arg) (array_arg_inds : list nat)
    (shape_arg_index : nat) : result (list arg * array_info) :=
  _precalc_array_info array_arg_inds args (Some shape_arg_index).

(** [repr] of a tuple of texts and of [_init_args], for texts without
    quotes, backslashes or control characters. *)
Definition quote (s : string) : string := "'" +:+ s +:+ "'".
Definition tuple_repr (items : list string) : string :=
  match items with
  | [x] => "(" +:+ x +:+ ",)"
  | _ => "(" +:+ join ", " items +:+ ")"
  end.
Definition simple_repr (ia : init_args) : string :=
  tuple_repr [tuple_repr (map quote (ia_arg_names ia));
              quote (ia_arg_decls ia); quote (ia_operation ia);
              quote (ia_name ia); quote (ia_preamble ia);
              quote (ia_loop_prep ia); quote (ia_after_loop ia)].

(** [VectorArg] and [ScalarArg] descriptors with their declarators. *)
Definition VectorArg (ctype name : string) : argument :=
  {| is_VectorArg := true; name := name;
     declarator := ctype +:+ " *" +:+ name |}.
Definition ScalarArg (ctype name : string) : argument :=
  {| is_VectorArg := false; name := name;
     declarator := ctype +:+ " " +:+ name |}.

(** An elementwise addition [z = x + y] over [n] elements. *)
Definition add_arguments : list argument :=
  [VectorArg "float" "x"; VectorArg "float" "y"; VectorArg "float" "z";
   ScalarArg "unsigned long" "n"].
Definition add_operation : string := "z[z_i] = x[x_i] + y[y_i]".

Definition add_init_args : init_args :=
  {| ia_arg_names := ["x"; "y"; "z"; "n"]%string;
     ia_arg_decls := "float *x, float *y, float *z, unsigned long n";
     ia_operation := add_operation; ia_name := "add";
     ia_preamble := ""; ia_loop_prep := ""; ia_after_loop := "" |}.

Definition add_module_with (do_range debug : bool)
  : ElementwiseSourceModule :=
  {| _do_range := do_range; _do_indices := false; _order := "K";
     _arg_decls := "float *x, float *y, float *z, unsigned long n";
     _array_arg_inds := [0; 1; 2]%nat; _shape_arg_index := 0;
     _arg_names := ["x"; "y"; "z"; "n"]%string;
     _array_arg_names := ["x"; "y"; "z"]%string;
     _init_args := add_init_args;
     _init_args_repr := simple_repr add_init_args;
     _debug := debug |}.
Definition add_module : ElementwiseSourceModule :=
  add_module_with false false.
Definition add_range_module : ElementwiseSourceModule :=
  add_module_with true false.

(** float32 arrays. *)
Definition float_array (shape strides : list Z) (f c : bool) : arg :=
  ArrayArg {| shape := shape; strides := strides; itemsize := 4;
              f_contiguous := f; c_contiguous := c |}.
Definition c_array_3x4 : arg := float_array [3; 4] [16; 4] false true.
Definition f_array_3x4 : arg := float_array [3; 4] [4; 12] true false.
Definition c_array_4x4 : arg := float_array [4; 4] [16; 4] false true.
Definition c_array_4x3 : arg := float_array [4; 3] [12; 4] false true.
(** Every second element of a vector of ten. *)
Definition strided_vector_5 : arg := float_array [5] [8] false false.
Definition c_vector_5 : arg := float_array [5] [4] true true.

(** x and z row-major, y column-major: the slow path. *)
Definition mixed_args : list arg :=
  [c_array_3x4; f_array_3x4; c_array_3x4; ScalarValue 12].
(** All row-major: the fast path. *)
Definition contiguous_args : list arg :=
  [c_array_3x4; c_array_3x4; c_array_3x4; ScalarValue 12].
Definition contiguous_args_4x4 : list arg :=
  [c_array_4x4; c_array_4x4; c_array_4x4; ScalarValue 16].
Definition strided_args : list arg :=
  [strided_vector_5; c_vector_5; c_vector_5; ScalarValue 5].

(** The precalc value and source of [add_module] for [mixed_args] on a
    launch of 2 blocks of 3 threads, and for [strided_args] on 3 blocks of
    one thread. *)
Definition mixed_precalc : signature :=
  {| sig_init_args_repr := simple_repr add_init_args;
     sig_shape := Some [3; 4];
     sig_contigmatch := false;
     sig_arrayspecificinds := true;
     sig_arrayitemstrides := Some [(4, [16; 4]); (4, [4; 12]); (4, [16; 4])];
     sig_arg_decls := Some "float *x, float *y, float *z, unsigned long n"%string;
     sig_do_reverse := Some false;
     sig_grid := Some [2; 1];
     sig_block := Some [3; 1; 1] |}.

Definition strided_precalc : signature :=
  {| sig_init_args_repr := simple_repr add_init_args;
     sig_shape := Some [5];
     sig_contigmatch := false;
     sig_arrayspecificinds := true;
     sig_arrayitemstrides := Some [(4, [8]); (4, [4]); (4, [4])];
     sig_arg_decls := Some "float *x, float *y, float *z, unsigned long n"%string;
     sig_do_reverse := Some false;
     sig_grid := Some [3; 1];
     sig_block := Some [1; 1; 1] |}.

(** The precalc value of the addition for [contiguous_args], on any
    launch. *)
Definition contiguous_precalc : signature :=
  {| sig_init_args_repr := simple_repr add_init_args;
     sig_shape := Some [3; 4];
     sig_contigmatch := true;
     sig_arrayspecificinds := true;
     sig_arrayitemstrides := None; sig_arg_decls := None;
     sig_do_reverse := None; sig_grid := None; sig_block := None |}.

(** The source in a [result], or an empty one. *)
Definition empty_source : DeferredSource :=
  {| src_arg_decls := ""; src_name := ""; src_preamble := [];
     src_loop_prep := []; src_after_loop := []; src_defines := [];
     src_decls := []; src_loop_inds_calc := [];
     src_loop_body := {| loop_is_range := false; loop_preop := [];
                         loop_operation := []; loop_inds_inc := [] |} |}.
Definition deferred (r : result source) : DeferredSource :=
  match r with
  | Ok (SourceDeferred d) => d
  | _ => empty_source
  end.

Definition mixed_source : DeferredSource :=
  deferred (create_source add_module mixed_precalc [2; 1] [3; 1; 1]).
Definition strided_source : DeferredSource :=
  deferred (create_source add_module strided_precalc [3; 1] [1; 1; 1]).

(** The plan in a [result], or an empty one. *)
Definition empty_plan : plan :=
  {| ndim := 0; numthreads := 0; plan_shape := []; block_step := [];
     plan_names := {| arrayindnames := []; arrayrefnames := [];
                      arrayarginfos := [] |} |}.
Definition planned (r : result plan) : plan :=
  match r with
  | Ok p => p
  | Raise _ => empty_plan
  end.

Definition mixed_plan : plan :=
  planned (make_plan ["x"; "y"; "z"]%string mixed_precalc [2; 1] [3; 1; 1]).

(** An argument without layout attributes ([hasattr(arg, 'shape')] is
    false). *)
Definition lacks_layout (a : arg) : Prop :=
  match a with
  | ArrayArg _ => False
  | _ => True
  end.

(** A GPUArray with as many strides as dimensions. *)
Definition well_formed (a : GPUArray) : Prop :=
  length (strides a) = length (shape a).

(** ** Predicates of the statements *)

(** Element strides [Ev n d] of array [n] for the dimensions [a], ...,
    [a+k-1]. *)
Definition strides_from (Ev : string -> nat -> Z) (n : string) (a k : nat)
  : list Z :=
  map (Ev n) (seq a k).

(** The offsets [o'] are the offsets [o], each [m] grown by [g m] once per
    occurrence of [m] in [names]. *)
Definition shifted (names : list string) (g : string -> Z)
    (o o' : gmap string Z) : Prop :=
  forall m, o' !! m = (fun v => v + Z.of_nat (count m names) * g m) <$> o !! m.

(** What the macros of a plan's defines stand for. *)
Record env_ok (M : macro -> option Z) (names : list string) (nd : nat)
    (shape bs : list Z) (Ev : string -> nat -> Z) : Prop := {
  env_shape_length : length shape = nd;
  env_bs_length : length bs = nd;
  env_SHAPE : forall d s,
    shape !! d = Some s -> M (DimMacro "SHAPE" d) = Some s;
  env_BLOCK_STEP : forall d b,
    bs !! d = Some b -> M (DimMacro "BLOCK_STEP" d) = Some b;
  env_ELEMSTRIDE : forall n d,
    n ∈ names -> (d < nd)%nat ->
    M (ArrMacro "ELEMSTRIDE" n d) = Some (Ev n d);
  env_DIMELEMSTRIDE : forall n d s,
    n ∈ names -> shape !! d = Some s ->
    M (ArrMacro "DIMELEMSTRIDE" n d) = Some (Ev n d * s);
  env_BLOCKELEMSTRIDE : forall n d b,
    n ∈ names -> bs !! d = Some b ->
    M (ArrMacro "BLOCKELEMSTRIDE" n d) = Some (Ev n d * b);
}.

Definition no_values (ds : list define) : Prop :=
  Forall (fun d => forall m v, d <> DefValue m v) ds.

Definition info_ok (shape bs : list Z) (info : arrayarginfo) : Prop :=
  forall d s b, shape !! d = Some s -> bs !! d = Some b ->
    exists e, ai_elemstrides info !! d = Some e
              /\ ai_dimelemstrides info !! d = Some (e * s)
              /\ ai_blockelemstrides info !! d = Some (e * b).

Definition plan_state_ok (shape bs : list Z) (st : plan_state) : Prop :=
  Forall (info_ok shape bs) (arrayarginfos st)
  /\ (forall n, n ∈ arrayindnames st -> n ∈ map ai_name (arrayarginfos st)).

(** The shape in traversal order. *)
Definition traversal_shape (precalc : signature) : list Z :=
  let shape := default [] (sig_shape precalc) in
  if default false (sig_do_reverse precalc) then reverse shape else shape.

(** The element stride the defines give array [n] in dimension [d]. *)
Definition ELEMSTRIDE (defs : list define) (n : string) (d : nat) : Z :=
  default 0 (macro_value defs (ArrMacro "ELEMSTRIDE" n d)).

Definition is_debug (s : stmt) : Prop :=
  match s with
  | DebugCall _ | DebugArray _ _ _ _ | DebugEnd => True
  | _ => False
  end.

(** A thread state that holds the direct decomposition of the flat position
    [pos]: the mixed-radix digits in [INDEX], and in the offset of every
    canonical array the digits weighted by its element strides (once per
    declaration of the name). *)
Definition represents (defs : list define) (names : list string)
    (shape : list Z) (pos : Z) (st : cstate) : Prop :=
  INDEX st = map_seq 0 (direct_indices shape pos)
  /\ forall m, offsets st !! m
       = if decide (m ∈ names)
         then Some (Z.of_nat (count m names)
                    * direct_offset (map (ELEMSTRIDE defs m)
                                         (seq 0 (length shape)))
                                    (direct_indices shape pos))
         else None.

(** The arrays of [args] are still arrays of the same shape in [args']. *)
Definition same_shapes (args args' : list arg) : Prop :=
  forall i a, args !! i = Some (ArrayArg a) -> well_formed a ->
    exists a', args' !! i = Some (ArrayArg a')
               /\ shape a' = shape a /\ well_formed a'.

(** How the three lists of the planning loop hang together. *)
Definition is_alias (info : arrayarginfo) : Prop := ai_inforef info <> None.

Definition alias_of (infos : list arrayarginfo) (info : arrayarginfo)
  : string * string :=
  (ai_name info,
   default ""%string (ai_name <$> (ai_inforef info ≫= (infos !!.)))).

Record dedup_ok (st : plan_state) : Prop := {
  dedup_inforef : forall j info,
    arrayarginfos st !! j = Some info ->
    ai_inforef info
    = find_inforef (ai_elemstrides info) (take j (arrayarginfos st));
  dedup_indnames :
    arrayindnames st
    = map ai_name (filter (fun info => ai_inforef info = None)
                          (arrayarginfos st));
  dedup_refnames :
    arrayrefnames st
    = map (alias_of (arrayarginfos st)) (filter is_alias (arrayarginfos st));
}.

Definition no_aliases (ds : list define) : Prop :=
  Forall (fun d => forall n r, d <> DefAlias n r) ds.

(** ** More of the classifier's vocabulary *)

(** The order the classifier reads off the flags of an array (lines
    120-124): ['F'] before ['C'], ['N'] for neither. *)
Definition array_order (a : GPUArray) : string :=
  if f_contiguous a then "F" else if c_contiguous a then "C" else "N".

(** The array after [arg.strides = ...] (line 119). *)
Definition with_strides (a : GPUArray) (ns : list Z) : GPUArray :=
  {| shape := shape a; strides := ns; itemsize := itemsize a;
     f_contiguous := f_contiguous a; c_contiguous := c_contiguous a |}.

(** All three stride tuples of an entry of [arrayarginfos] have one value
    for each of [nd] dimensions. *)
Definition info_sized (nd : nat) (info : arrayarginfo) : Prop :=
  length (ai_elemstrides info) = nd
  /\ length (ai_dimelemstrides info) = nd
  /\ length (ai_blockelemstrides info) = nd.

(** ** Module builders (get_elwise_module, get_elwise_range_module,
    lines 550-569)

    The keyword arguments a caller may add, as far as this file reads
    them: the texts of the template and the keywords of the constructor of
    [ElementwiseSourceModule]; a keyword left out is [None].  [keep],
    [options] and further compile keywords end in the base class and play
    no role here. *)
Record module_kwargs := {
  kw_preamble : option string;
  kw_loop_prep : option string;
  kw_after_loop : option string;
  kw_do_range : option bool;
  kw_shape_arg_index : option nat;
  kw_array_arg_inds : option (list nat);
  kw_do_indices : option bool;
  kw_order : option string;
  kw_debug : option bool;
}.

Definition no_kwargs : module_kwargs :=
  {| kw_preamble := None; kw_loop_prep := None; kw_after_loop := None;
     kw_do_range := None; kw_shape_arg_index := None;
     kw_array_arg_inds := None; kw_do_indices := None; kw_order := None;
     kw_debug := None |}.

Definition get_elwise_module (py_repr : init_args -> string)
    (arguments : list argument) (operation name : string)
    (kwargs : module_kwargs) : result ElementwiseSourceModule :=
  __init__ py_repr arguments operation name
    (default ""%string (kw_preamble kwargs))
    (default ""%string (kw_loop_prep kwargs))
    (default ""%string (kw_after_loop kwargs))
    (default false (kw_do_range kwargs))
    (kw_shape_arg_index kwargs) (kw_array_arg_inds kwargs)
    (default false (kw_do_indices kwargs))
    (default "K"%string (kw_order kwargs))
    (default false (kw_debug kwargs)).

(** [do_range=True] is passed beside [**kwargs]: a [do_range] among the
    keywords is a second value for the same keyword, a TypeError. *)
Definition get_elwise_range_module (py_repr : init_args -> string)
    (arguments : list argument) (operation name : string)
    (kwargs : module_kwargs) : result ElementwiseSourceModule :=
  match kw_do_range kwargs with
  | Some _ => Raise TypeError
  | None =>
      __init__ py_repr arguments operation name
        (default ""%string (kw_preamble kwargs))
        (default ""%string (kw_loop_prep kwargs))
        (default ""%string (kw_after_loop kwargs))
        true
        (kw_shape_arg_index kwargs) (kw_array_arg_inds kwargs)
        (default false (kw_do_indices kwargs))
        (default "K"%string (kw_order kwargs))
        (default false (kw_debug kwargs))
  end.

(** ** get_elwise_kernel_and_types (lines 571-597) *)

(** [s.split(sep)] for a separator of one character. *)
Fixpoint split (sep : Ascii.ascii) (s : string) : list string :=
  match s with
  | EmptyString => [EmptyString]
  | String c s' =>
      if decide (c = sep) then EmptyString :: split sep s'
      else match split sep s' with
           | [] => [String c EmptyString]
           | w :: ws => String c w :: ws
           end
  end.

(** The character [","] (code 44). *)
Definition comma : Ascii.ascii := Ascii.ascii_of_nat 44.

(** The [arguments] parameter: a string of C declarations, or a list of
    descriptors.  A list is the caller's object: what is appended to it is
    appended for the caller, too. *)
Inductive arguments_value :=
  | ArgStr (s : string)
  | ArgList (l : list argument).

(** What of pycuda.tools and numpy the function uses: [parse_c_arg], the
    C type names [dtype_to_ctype] gives [np.intp] and [np.uintp], and the
    [struct_char] of a descriptor. *)
Record tools := {
  parse_c_arg : string -> result argument;
  intp : string;
  uintp : string;
  struct_char : argument -> string;
}.

(** The [Function] that [mod.get_function(name)] returns, after
    [func.prepare(...)]: its module, its name and the argument format it
    was prepared with. *)
Record kernel_function := {
  fn_module : ElementwiseSourceModule;
  fn_name : string;
  fn_prepared : string;
}.

(** The first component is the [arguments] object after the call: the
    caller's list with the additions, whether or not the module could be
    built; the list in the result is that same list. *)
Definition get_elwise_kernel_and_types (t : tools)
    (py_repr : init_args -> string)
    (arguments : arguments_value) (operation name : string)
    (use_range : bool) (kwargs : module_kwargs)
  : arguments_value
    * result (ElementwiseSourceModule * kernel_function * list argument) :=
  let parsed :=
    match arguments with
    | ArgStr s => for_each (parse_c_arg t) (split comma s)
    | ArgList l => Ok l
    end in
  match parsed with
  | Raise e => (arguments, Raise e)
  | Ok l =>
      let l :=
        if use_range then
          l ++ [ScalarArg (intp t) "start"; ScalarArg (intp t) "stop";
                ScalarArg (intp t) "step"]
        else l ++ [ScalarArg (uintp t) "n"] in
      let module_builder :=
        if use_range then get_elwise_range_module else get_elwise_module in
      (match arguments with
       | ArgStr s => ArgStr s
       | ArgList _ => ArgList l
       end,
       module ← module_builder py_repr l operation name kwargs;
       let func :=
         {| fn_module := module; fn_name := name;
            fn_prepared := String.concat "" (map (struct_char t) l) |} in
       Ok (module, func, l))
  end.

(** ** ElementwiseKernel (lines 611-681) *)

(** The [arguments] of a generated kernel: the list object of
    [gen_kwargs] when that is a list, a list of its own when the
    declarations were given as a string. *)
Inductive arguments_ref :=
  | SharedList
  | OwnList (l : list argument).

Record generated := {
  g_mod : ElementwiseSourceModule;
  g_func : kernel_function;
  g_arguments : arguments_ref;
}.

(** The instance: [gen_kwargs] and the dictionary of [memoize_method],
    with an entry for each [use_range] the kernel was generated for. *)
Record ElementwiseKernel := {
  ek_arguments : arguments_value;
  ek_operation : string;
  ek_name : string;
  ek_kwargs : module_kwargs;
  ek_memo : bool -> option generated;
}.

Definition ElementwiseKernel_init (arguments : arguments_value)
    (operation name : string) (kwargs : module_kwargs)
  : ElementwiseKernel :=
  {| ek_arguments := arguments; ek_operation := operation;
     ek_name := name; ek_kwargs := kwargs; ek_memo := fun _ => None |}.

(** The list a generated kernel's [arguments] refers to, as it is now. *)
Definition arguments_of (self : ElementwiseKernel) (r : arguments_ref)
  : list argument :=
  match r with
  | OwnList l => l
  | SharedList =>
      match ek_arguments self with
      | ArgList l => l
      | ArgStr _ => []
      end
  end.

Definition set_arguments (self : ElementwiseKernel) (a : arguments_value)
  : ElementwiseKernel :=
  {| ek_arguments := a; ek_operation := ek_operation self;
     ek_name := ek_name self; ek_kwargs := ek_kwargs self;
     ek_memo := ek_memo self |}.

Definition remember (self : ElementwiseKernel) (use_range : bool)
    (g : generated) : ElementwiseKernel :=
  {| ek_arguments := ek_arguments self; ek_operation := ek_operation self;
     ek_name := ek_name self; ek_kwargs := ek_kwargs self;
     ek_memo := fun u => if decide (u = use_range) then Some g
                         else ek_memo self u |}.

(** [generate_stride_kernel_and_types], memoized by [use_range]: a result
    is stored when the body returns, not when it raises. *)
Definition generate_stride_kernel_and_types (t : tools)
    (py_repr : init_args -> string)
    (self : ElementwiseKernel) (use_range : bool)
  : ElementwiseKernel * result generated :=
  match ek_memo self use_range with
  | Some g => (self, Ok g)
  | None =>
      let '(arguments', r) :=
        get_elwise_kernel_and_types t py_repr (ek_arguments self)
          (ek_operation self) (ek_name self) use_range (ek_kwargs self) in
      let self := set_arguments self arguments' in
      match r with
      | Raise e => (self, Raise e)
      | Ok (module, knl, arguments) =>
          (* assert [i for i, arg in enumerate(arguments)
                     if isinstance(arg, VectorArg)], "...":
             an empty list is false *)
          if decide (filter (fun a => is_VectorArg a = true) arguments = [])
          then (self, Raise AssertionError)
          else
            let g :=
              {| g_mod := module; g_func := knl;
                 g_arguments :=
                   match arguments' with
                   | ArgList _ => SharedList
                   | ArgStr _ => OwnList arguments
                   end |} in
            (remember self use_range g, Ok g)
      end
  end.

(** ** ElementwiseKernel.__call__ (lines 635-681) *)

(** A Python [slice], the value of the [range] and [slice] keywords:
    start, stop and step, each an integer or [None]. *)
Record py_slice := {
  sl_start : option Z;
  sl_stop : option Z;
  sl_step : option Z;
}.

(** [slice.indices(length)] of Python: the bounds clipped to the
    sequence; ValueError for a step of zero or a negative length. *)
Definition clip (v : option Z) (dflt lower upper length : Z) : Z :=
  match v with
  | None => dflt
  | Some v => if v <? 0 then Z.max (v + length) lower else Z.min v upper
  end.
Definition slice_indices (s : py_slice) (length : Z) : result (Z * Z * Z) :=
  let step := default 1 (sl_step s) in
  if decide (length < 0) then Raise ValueError
  else if decide (step = 0) then Raise ValueError
  else
    let lower := if step <? 0 then -1 else 0 in
    let upper := if step <? 0 then length - 1 else length in
    let start :=
      clip (sl_start s) (if step <? 0 then upper else lower)
           lower upper length in
    let stop :=
      clip (sl_stop s) (if step <? 0 then lower else upper)
           lower upper length in
    Ok (start, stop, step).

(** What of pycuda.gpuarray the call uses: the attributes [size],
    [mem_size], [_grid] and [_block] of a GPUArray, and [splay]. *)
Record gpuarray := {
  vec_size : GPUArray -> Z;
  vec_mem_size : GPUArray -> Z;
  vec_grid : GPUArray -> list Z;
  vec_block : GPUArray -> list Z;
  splay : Z -> list Z * list Z;
}.

(** [arg.attr]: AttributeError on an object without layout attributes. *)
Definition attr {A} (f : GPUArray -> A) (attrname : string) (a : arg)
  : result A :=
  match a with
  | ArrayArg g => Ok (f g)
  | _ => Raise (AttributeError attrname)
  end.

(** The keywords of a call: [range], [slice], [stream], and the names of
    any others. *)
Record call_kwargs := {
  ck_range : option py_slice;
  ck_slice : option py_slice;
  ck_stream : option nat;
  ck_others : list string;
}.

(** A value handed to the kernel: an argument of the call, or an integer
    or [None] that the call adds. *)
Inductive value :=
  | Given (a : arg)
  | PyInt (z : Z)
  | PyNone.

Definition of_option (v : option Z) : value :=
  match v with
  | Some z => PyInt z
  | None => PyNone
  end.

(** [func.prepared_async_call(grid, block, stream, *invocation_args)] *)
Record launch := {
  l_func : kernel_function;
  l_grid : list Z;
  l_block : list Z;
  l_stream : option nat;
  l_args : list value;
}.

(** The exceptions of a call: those of [exn], and the division by zero. *)
Inductive call_exn :=
  | PyExn (e : exn)
  | ZeroDivisionError.

Inductive outcome :=
  | Launch (l : launch)
  | Failed (e : call_exn).

(** Lines 650-681, after the kernel has been generated. *)
Definition call_body (g : gpuarray) (self : ElementwiseKernel)
    (gen : generated) (args : list arg) (kw : call_kwargs) : outcome :=
  let arguments := arguments_of self (g_arguments gen) in
  let pairs := zip args arguments in
  let vectors :=
    map fst (filter (fun p => is_VectorArg (snd p) = true) pairs) in
  let invocation_args := map (fun p => Given (fst p)) pairs in
  match getitem vectors 0 with
  | Raise e => Failed (PyExn e)
  | Ok repr_vec =>
      let range_ :=
        match ck_slice kw with
        | Some slice_ =>
            match ck_range kw with
            | Some _ => Raise TypeError
            | None =>
                size ← attr (vec_size g) "size" repr_vec;
                '(start, stop, step) ← slice_indices slice_ size;
                Ok (Some {| sl_start := Some start; sl_stop := Some stop;
                            sl_step := Some step |})
            end
        | None => Ok (ck_range kw)
        end in
      match range_ with
      | Raise e => Failed (PyExn e)
      | Ok (Some range_) =>
          let invocation_args :=
            invocation_args
            ++ [of_option (sl_start range_); of_option (sl_stop range_);
                match sl_step range_ with
                | None => PyInt 1
                | Some step => PyInt step
                end] in
          (* splay(abs(range_.stop - range_.start)//range_.step) *)
          match sl_stop range_, sl_start range_, sl_step range_ with
          | Some stop, Some start, Some step =>
              if decide (step = 0) then Failed ZeroDivisionError
              else
                let '(grid, block) :=
                  splay g (Z.abs (stop - start) / step) in
                Launch {| l_func := g_func gen; l_grid := grid;
                          l_block := block; l_stream := ck_stream kw;
                          l_args := invocation_args |}
          | _, _, _ => Failed (PyExn TypeError)
          end
      | Ok None =>
          match (block ← attr (vec_block g) "_block" repr_vec;
                 grid ← attr (vec_grid g) "_grid" repr_vec;
                 mem_size ← attr (vec_mem_size g) "mem_size" repr_vec;
                 Ok (block, grid, mem_size)) with
          | Raise e => Failed (PyExn e)
          | Ok (block, grid, mem_size) =>
              Launch {| l_func := g_func gen; l_grid := grid;
                        l_block := block; l_stream := ck_stream kw;
                        l_args := invocation_args ++ [PyInt mem_size] |}
          end
      end
  end.

(** The call: the instance with what the call has generated and appended,
    and the launch or the exception. *)
Definition __call__ (t : tools) (py_repr : init_args -> string)
    (g : gpuarray) (self : ElementwiseKernel) (args : list arg)
    (kw : call_kwargs) : ElementwiseKernel * outcome :=
  if decide (ck_others kw <> []) then (self, Failed (PyExn TypeError))
  else
    let '(self, r) :=
      generate_stride_kernel_and_types t py_repr self
        (bool_decide (is_Some (ck_range kw))
         || bool_decide (is_Some (ck_slice kw))) in
    match r with
    | Raise e => (self, Failed (PyExn e))
    | Ok gen => (self, call_body g self gen args kw)
    end.

(** ** More instances for the statements below *)



(** A classifier result for a strided array followed by a bare pointer:
    no contiguity match, array-relative indexing unusable. *)
Definition pointer_classifier (args : list arg) (array_arg_inds : list nat)
    (shape_arg_index : nat) : result (list arg * array_info) :=
  Ok (args, {| contigmatch := false; arrayspecificinds := false;
               canonical_shape := Some [5]; arrayitemstrides := [] |}).

(** A row vector: one dimension of size one. *)
Definition row_vector_4 : arg := float_array [1; 4] [16; 4] true true.

(** Tools for the examples: every declaration is read as a float vector
    of that name; [intp] is [long] and [uintp] is [unsigned long]. *)
Definition example_tools : tools :=
  {| parse_c_arg := fun s => Ok (VectorArg "float" s);
     intp := "long"; uintp := "unsigned long";
     struct_char := fun a => if is_VectorArg a then "P"%string
                             else "l"%string |}.

(** Arrays for the examples: as many elements as the shape has, one
    block of 32 threads per 32 elements. *)
Definition example_gpuarray : gpuarray :=
  {| vec_size := fun a => prod (shape a);
     vec_mem_size := fun a => prod (shape a);
     vec_grid := fun a => [prod (shape a) / 32 + 1; 1];
     vec_block := fun _ => [32; 1; 1];
     splay := fun n => ([n / 32 + 1; 1], [32; 1; 1]) |}.

(** A copy kernel [z = x], from a list of descriptors and from a string of
    declarations. *)
Definition copy_arguments : list argument :=
  [VectorArg "float" "x"; VectorArg "float" "z"].
Definition copy_kernel : ElementwiseKernel :=
  ElementwiseKernel_init (ArgList copy_arguments) "z[z_i] = x[x_i]" "copy"
    no_kwargs.
Definition copy_kernel_str : ElementwiseKernel :=
  ElementwiseKernel_init (ArgStr "x,z") "z[z_i] = x[x_i]" "copy" no_kwargs.

(** The generated kernel in a result, or one of the addition. *)
Definition the_generated (r : result generated) : generated :=
  match r with
  | Ok g => g
  | Raise _ =>
      {| g_mod := add_module;
         g_func := {| fn_module := add_module; fn_name := "";
                      fn_prepared := "" |};
         g_arguments := OwnList [] |}
  end.

(** [copy_kernel] after its plain variant has been generated, and after
    the range variant has been generated as well. *)
Definition copy_kernel_1 : ElementwiseKernel :=
  fst (generate_stride_kernel_and_types example_tools simple_repr
         copy_kernel false).
Definition copy_generated_1 : generated :=
  the_generated (snd (generate_stride_kernel_and_types example_tools
                        simple_repr copy_kernel false)).
Definition copy_kernel_2 : ElementwiseKernel :=
  fst (generate_stride_kernel_and_types example_tools simple_repr
         copy_kernel_1 true).
Definition copy_generated_2 : generated :=
  the_generated (snd (generate_stride_kernel_and_types example_tools
                        simple_repr copy_kernel_1 true)).

(** The same for [copy_kernel_str], and its range variant generated
    first. *)
Definition copy_kernel_str_1 : ElementwiseKernel :=
  fst (generate_stride_kernel_and_types example_tools simple_repr
         copy_kernel_str false).
Definition copy_generated_str_1 : generated :=
  the_generated (snd (generate_stride_kernel_and_types example_tools
                        simple_repr copy_kernel_str false)).
Definition copy_kernel_str_2 : ElementwiseKernel :=
  fst (generate_stride_kernel_and_types example_tools simple_repr
         copy_kernel_str_1 true).
Definition copy_generated_str_2 : generated :=
  the_generated (snd (generate_stride_kernel_and_types example_tools
                        simple_repr copy_kernel_str_1 true)).
Definition copy_kernel_range : ElementwiseKernel :=
  fst (generate_stride_kernel_and_types example_tools simple_repr
         copy_kernel true).
Definition copy_generated_range : generated :=
  the_generated (snd (generate_stride_kernel_and_types example_tools
                        simple_repr copy_kernel true)).

(** Calls: no keyword, a slice, and a range without step. *)
Definition plain_call : call_kwargs :=
  {| ck_range := None; ck_slice := None; ck_stream := None;
     ck_others := [] |}.
Definition slice_call (start stop step : option Z) : call_kwargs :=
  {| ck_range := None;
     ck_slice := Some {| sl_start := start; sl_stop := stop;
                         sl_step := step |};
     ck_stream := None; ck_others := [] |}.
Definition range_call (start stop step : option Z) : call_kwargs :=
  {| ck_range := Some {| sl_start := start; sl_stop := stop;
                         sl_step := step |};
     ck_slice := None; ck_stream := None; ck_others := [] |}.

(** ** get_linear_combination_kernel (lines 801-845)

    A dtype is opaque here; [dtype_to_ctype] of pycuda.tools, with its
    [with_fp_tex_hack] flag, is a parameter.  [pretty] writes a number in
    decimal, as ["%d"] does. *)

(** The lists the loop over the summand descriptors builds. *)
Record lincomb := {
  lc_args : list argument;
  lc_preamble : list string;
  lc_loop_prep : list string;
  lc_summands : list string;
  lc_tex_names : list string;
}.

Definition lincomb_body {dtype} (dtype_to_ctype : dtype -> bool -> string)
    (st : lincomb) (x : nat * (bool * dtype * dtype)) : lincomb :=
  let '(i, (is_gpu_scalar, scalar_dtype, vector_dtype)) := x in
  let st :=
    if is_gpu_scalar then
      {| lc_preamble :=
           lc_preamble st
           ++ ["texture <" +:+ dtype_to_ctype scalar_dtype true
               +:+ ", 1, cudaReadModeElementType> tex_a" +:+ pretty i
               +:+ ";"];
         lc_args :=
           lc_args st
           ++ [VectorArg (dtype_to_ctype vector_dtype false)
                         ("x" +:+ pretty i)];
         lc_tex_names := lc_tex_names st ++ ["tex_a" +:+ pretty i];
         lc_loop_prep :=
           lc_loop_prep st
           ++ [dtype_to_ctype scalar_dtype false +:+ " a" +:+ pretty i
               +:+ " = fp_tex1Dfetch(tex_a" +:+ pretty i +:+ ", 0)"];
         lc_summands := lc_summands st |}
    else
      {| lc_preamble := lc_preamble st;
         lc_args :=
           lc_args st
           ++ [ScalarArg (dtype_to_ctype scalar_dtype false)
                         ("a" +:+ pretty i)]
           ++ [VectorArg (dtype_to_ctype vector_dtype false)
                         ("x" +:+ pretty i)];
         lc_tex_names := lc_tex_names st;
         lc_loop_prep := lc_loop_prep st;
         lc_summands := lc_summands st |} in
  {| lc_preamble := lc_preamble st; lc_args := lc_args st;
     lc_tex_names := lc_tex_names st; lc_loop_prep := lc_loop_prep st;
     lc_summands :=
       lc_summands st
       ++ ["a" +:+ pretty i +:+ "*x" +:+ pretty i +:+ "[x" +:+ pretty i
           +:+ "_i]"] |}.

(** The function and the names of the textures it is prepared with. *)
Definition get_linear_combination_kernel {dtype} (t : tools)
    (dtype_to_ctype : dtype -> bool -> string)
    (py_repr : init_args -> string)
    (summand_descriptors : list (bool * dtype * dtype)) (dtype_z : dtype)
  : result (kernel_function * list string) :=
  let st :=
    foldl (lincomb_body dtype_to_ctype)
      {| lc_args := [];
         lc_preamble := ["#include <pycuda-helpers.hpp>

"];
         lc_loop_prep := []; lc_summands := []; lc_tex_names := [] |}
      (imap pair summand_descriptors) in
  let args :=
    lc_args st
    ++ [VectorArg (dtype_to_ctype dtype_z false) "z"]
    ++ [ScalarArg (uintp t) "n"] in
  module ←
    get_elwise_module py_repr args
      ("z[z_i] = " +:+ join " + " (lc_summands st))
      "linear_combination"
      {| kw_preamble := Some (join "
" (lc_preamble st));
         kw_loop_prep := Some (join ";
" (lc_loop_prep st));
         kw_after_loop := None; kw_do_range := None;
         kw_shape_arg_index := None; kw_array_arg_inds := None;
         kw_do_indices := None; kw_order := None; kw_debug := None |};
  Ok ({| fn_module := module; fn_name := "linear_combination";
         fn_prepared := String.concat "" (map (struct_char t) args) |},
      lc_tex_names st).

(** ** The element strides of an argument of the call *)

(** What lines 293-298 make of the [(itemsize, strides)] of an array
    argument: its byte strides, reversed when the traversal is, written
    over the first of [ndim] zeros, each divided by the item size. *)
Definition arg_elemstrides (ndim : nat) (do_reverse : bool)
    (itemstride : Z * list Z) : list Z :=
  let '(arg_itemsize, arg_strides) := itemstride in
  let strides := replicate ndim 0 in
  let strides :=
    if do_reverse
    then slice_assign strides (length arg_strides) (reverse arg_strides)
    else slice_assign strides (length arg_strides) arg_strides in
  map (fun s => np_floordiv s arg_itemsize) strides.

(** Three times every second element of a vector of ten: three array
    arguments with one stride vector, on 3 blocks of one thread. *)
Definition equal_strided_args : list arg :=
  [strided_vector_5; strided_vector_5; strided_vector_5; ScalarValue 5].
Definition equal_strided_precalc : signature :=
  {| sig_init_args_repr := simple_repr add_init_args;
     sig_shape := Some [5];
     sig_contigmatch := false;
     sig_arrayspecificinds := true;
     sig_arrayitemstrides := Some [(4, [8]); (4, [8]); (4, [8])];
     sig_arg_decls := Some "float *x, float *y, float *z, unsigned long n"%string;
     sig_do_reverse := Some false;
     sig_grid := Some [3; 1];
     sig_block := Some [1; 1; 1] |}.
Definition equal_strided_source : DeferredSource :=
  deferred (create_source add_module equal_strided_precalc [3; 1] [1; 1; 1]).

(** Row-major arrays of the shapes (4, 4) and (4, 3) as [x] and [y] of the
    addition. *)
Definition mismatched_args : list arg :=
  [c_array_4x4; c_array_4x3; c_array_4x4; ScalarValue 16].

(** * Properties *)

Lemma prod_pos shape : Forall (fun n => 0 < n) shape -> 0 < prod shape.
Proof. induction 1; simpl; [lia | nia]. Qed.

Lemma direct_indices_length shape p : length (direct_indices shape p) = length shape.
Proof. revert p; induction shape; intros; simpl; auto. Qed.

Lemma np_mod_pos a b : b <> 0 -> np_mod a b = a mod b.
Proof. intros. unfold np_mod. destruct (Z.eqb_spec b 0); [lia|done]. Qed.
Lemma np_floordiv_eq a b : np_floordiv a b = a / b.
Proof. unfold np_floordiv. destruct (Z.eqb_spec b 0); [subst; by rewrite Z.div_0_r|done]. Qed.

Lemma block_step_fold done rest t :
  Forall (fun n => n <> 0) rest ->
  (foldl block_step_body (done ++ rest, t) (seq (length done) (length rest))).1
  = done ++ direct_indices rest t.
Proof.
  revert done t. induction rest as [|s rest IH]; intros done t Hnz.
  - done.
  - inversion Hnz; subst. simpl.
    assert (Hl : (done ++ s :: rest) !!! length done = s).
    { apply list_lookup_total_correct. by rewrite list_lookup_middle. }
    rewrite Hl. rewrite np_mod_pos by done. rewrite np_floordiv_eq.
    replace (<[length done := t mod s]> (done ++ s :: rest)) with ((done ++ [t mod s]) ++ rest).
    2:{ rewrite <- (Nat.add_0_r (length done)). rewrite insert_app_r. simpl. by rewrite <- app_assoc. }
    replace (S (length done)) with (length (done ++ [t mod s])) by (rewrite length_app; simpl; lia).
    rewrite IH by done. by rewrite <- app_assoc.
Qed.

Lemma pos_nonzero shape : Forall (fun n => 0 < n) shape -> Forall (fun n => n <> 0) shape.
Proof. intros H. eapply Forall_impl; [exact H|]. simpl. lia. Qed.

Lemma calc_block_step_direct shape t :
  Forall (fun n => 0 < n) shape ->
  calc_block_step shape t = direct_indices shape t.
Proof.
  intros H. unfold calc_block_step.
  apply (block_step_fold [] shape t). by apply pos_nonzero.
Qed.

Lemma direct_indices_lookup shape p d s :
  Forall (fun n => 0 < n) shape ->
  shape !! d = Some s ->
  direct_indices shape p !! d = Some ((p / prod (take d shape)) mod s).
Proof.
  intros H. revert p d. induction H as [|s0 shape Hs0 Hpos IH]; intros p d Hd.
  - done.
  - destruct d as [|d]; simpl in *.
    + inversion Hd; subst. by rewrite Z.div_1_r.
    + rewrite (IH _ _ Hd). do 2 f_equal.
      rewrite Z.div_div; [done | lia |].
      apply prod_pos. by apply Forall_take.
Qed.

Lemma direct_indices_bounds shape p d i :
  Forall (fun n => 0 < n) shape ->
  direct_indices shape p !! d = Some i ->
  exists s, shape !! d = Some s /\ 0 <= i < s.
Proof.
  intros H Hi.
  destruct (shape !! d) as [s|] eqn:Hs.
  - exists s. split; [done|]. rewrite (direct_indices_lookup _ _ _ _ H Hs) in Hi.
    inversion Hi; subst. apply Z.mod_pos_bound.
    eapply Forall_lookup_1 in H; eauto.
  - apply lookup_ge_None in Hs. apply lookup_lt_Some in Hi. rewrite direct_indices_length in Hi. lia.
Qed.

Lemma odometer_direct shape p t c :
  Forall (fun n => 0 < n) shape ->
  0 <= p -> 0 <= t -> (c = 0 \/ c = 1) ->
  p + t + c < prod shape ->
  odometer shape (direct_indices shape t) (add_head c (direct_indices shape p))
  = direct_indices shape (p + t + c).
Proof.
  intros H. revert p t c.
  induction H as [|s shape Hs Hpos IH]; intros p t c Hp Ht Hc Hlt.
  - done.
  - simpl in Hlt. simpl.
    pose proof (prod_pos _ Hpos) as HP.
    pose proof (Z.div_mod p s ltac:(lia)) as Ep.
    pose proof (Z.div_mod t s ltac:(lia)) as Et.
    pose proof (Z.mod_pos_bound p s Hs) as Bp.
    pose proof (Z.mod_pos_bound t s Hs) as Bt.
    assert (0 <= p / s) by (apply Z.div_pos; lia).
    assert (0 <= t / s) by (apply Z.div_pos; lia).
    destruct shape as [|s' shape'].
    + simpl in *. f_equal.
      assert (p + t + c < s) by lia.
      rewrite (Z.mod_small p), (Z.mod_small t), (Z.mod_small (p + t + c)); lia.
    + remember (s' :: shape') as sh.
      destruct (direct_indices sh (p / s)) as [|j idx''] eqn:Hd.
      { subst sh. simpl in Hd. done. }
      destruct (decide (s <= p mod s + c + t mod s)) as [Hge|Hlt'].
      * assert (Hq : (p + t + c) / s = p / s + t / s + 1).
        { symmetry. apply (Z.div_unique _ _ _ (p mod s + c + t mod s - s)); lia. }
        assert (Hr : (p + t + c) mod s = p mod s + c + t mod s - s).
        { symmetry. apply (Z.mod_unique _ _ (p / s + t / s + 1)); lia. }
        rewrite Hq, Hr. f_equal.
        specialize (IH (p / s) (t / s) 1). rewrite Hd in IH. simpl in IH.
        apply IH; try lia. nia.
      * assert (Hq : (p + t + c) / s = p / s + t / s).
        { symmetry. apply (Z.div_unique _ _ _ (p mod s + c + t mod s)); lia. }
        assert (Hr : (p + t + c) mod s = p mod s + c + t mod s).
        { symmetry. apply (Z.mod_unique _ _ (p / s + t / s)); lia. }
        rewrite Hq, Hr. f_equal.
        specialize (IH (p / s) (t / s) 0). rewrite Hd in IH. simpl in IH.
        replace (j + 0) with j in IH by lia. rewrite IH; try lia; [|nia].
        by rewrite Z.add_0_r.
Qed.

Lemma direct_offset_cons e es i idx :
  direct_offset (e :: es) (i :: idx) = i * e + direct_offset es idx.
Proof. done. Qed.
Lemma direct_offset_nil_r es : direct_offset es [] = 0.
Proof. done. Qed.

Lemma odometer_offset shape bs idx es :
  length bs = length shape -> length idx = length shape ->
  length es = length shape ->
  direct_offset es (odometer shape bs idx)
  = direct_offset es idx + direct_offset es bs + carry_correction shape bs idx es.
Proof.
  revert bs idx es. induction shape as [|s shape IH]; intros bs idx es Hb Hi He.
  - destruct bs, idx, es; done.
  - destruct bs as [|b bs], idx as [|i idx], es as [|e es]; try done.
    simpl in Hb, Hi, He.
    destruct idx as [|j idx'].
    + destruct shape; [|done]. destruct es; [|done]. destruct bs; [|done].
      unfold direct_offset. simpl. lia.
    + destruct es as [|e' es']; [destruct shape; done|].
      cbn [odometer carry_correction].
      destruct (decide (s <= i + b)).
      * rewrite !direct_offset_cons.
        rewrite (IH bs ((j + 1) :: idx') (e' :: es')) by (simpl in *; lia).
        rewrite !direct_offset_cons. lia.
      * rewrite !direct_offset_cons.
        rewrite (IH bs (j :: idx') (e' :: es')) by (simpl in *; lia).
        rewrite !direct_offset_cons. lia.
Qed.

(** ** Running the emitted statements *)

Lemma exec_list_app {A} (ex : cstate -> A -> option cstate) st l1 l2 :
  exec_list ex st (l1 ++ l2)
  = exec_list ex st l1 ≫= fun st' => exec_list ex st' l2.
Proof.
  revert st. induction l1 as [|s l1 IH]; intros st; simpl; [done|].
  destruct (ex st s); simpl; [apply IH | done].
Qed.

Lemma count_cons n m names :
  count m (n :: names)
  = if decide (n = m) then S (count m names) else count m names.
Proof.
  unfold count. rewrite filter_cons. by destruct (decide (n = m)).
Qed.

Lemma shifted_zero names o : shifted names (fun _ => 0) o o.
Proof.
  intros m. destruct (o !! m); simpl; [f_equal; lia | done].
Qed.

Lemma shifted_trans names g1 g2 o o1 o2 :
  shifted names g1 o o1 -> shifted names g2 o1 o2 ->
  shifted names (fun m => g1 m + g2 m) o o2.
Proof.
  intros H1 H2 m. rewrite H2, H1.
  destruct (o !! m); simpl; [f_equal; lia | done].
Qed.

Lemma shifted_ext names g g' o o' :
  shifted names g o o' -> (forall m, g m = g' m) -> shifted names g' o o'.
Proof. intros H Hg m. rewrite H. by rewrite Hg. Qed.

Lemma shifted_is_Some names g o o' m :
  shifted names g o o' -> is_Some (o !! m) -> is_Some (o' !! m).
Proof. intros H [v Hv]. rewrite H, Hv. by eexists. Qed.

Lemma names_loop {A} (ex : cstate -> A -> option cstate)
    (S : string -> A) (g : string -> Z) ns st :
  (forall st' n v, n ∈ ns -> INDEX st' = INDEX st ->
     offsets st' !! n = Some v ->
     ex st' (S n) = Some (set_offset n (v + g n) st')) ->
  (forall n, n ∈ ns -> is_Some (offsets st !! n)) ->
  exists st', exec_list ex st (map S ns) = Some st'
    /\ INDEX st' = INDEX st /\ _TMP_GLOBAL_i st' = _TMP_GLOBAL_i st
    /\ shifted ns g (offsets st) (offsets st').
Proof.
  revert st. induction ns as [|n ns IH]; intros st Hex Hdom.
  - exists st. repeat split; try done. intros m.
    destruct (offsets st !! m); simpl; [f_equal; unfold count; simpl; lia|done].
  - destruct (Hdom n) as [v Hv]; [by left|].
    simpl. rewrite (Hex st n v) by (done || by left). simpl.
    destruct (IH (set_offset n (v + g n) st)) as (st' & Hrun & HI & HT & HO).
    + intros st1 n1 v1 Hn1 HI1 Hv1. apply Hex; [by right | done | done].
    + intros n1 Hn1. simpl. destruct (decide (n = n1)) as [->|Hne].
      * rewrite lookup_insert_eq. by eexists.
      * rewrite lookup_insert_ne by done. apply Hdom. by right.
    + exists st'. repeat split; try done.
      intros m. rewrite HO. simpl. rewrite count_cons.
      destruct (decide (n = m)) as [->|Hne].
      * rewrite lookup_insert_eq, Hv. simpl. f_equal. lia.
      * rewrite lookup_insert_ne by done. done.
Qed.

Lemma set_INDEX_middle st done x rest v :
  INDEX st = map_seq 0 (done ++ x :: rest) ->
  INDEX (set_INDEX (length done) v st) = map_seq 0 (done ++ v :: rest).
Proof.
  intros H. simpl. rewrite H.
  rewrite insert_map_seq_0 by (rewrite length_app; simpl; lia).
  f_equal. rewrite <- (Nat.add_0_r (length done)). by rewrite insert_app_r.
Qed.

Lemma INDEX_middle st done x rest :
  INDEX st = map_seq 0 (done ++ x :: rest) ->
  INDEX st !! length done = Some x.
Proof. intros ->. rewrite lookup_map_seq_0. apply list_lookup_middle. done. Qed.

Section EmittedCode.
Variable M : macro -> option Z.
Variable names : list string.
Variable nd : nat.
Variable shape bs : list Z.
Variable Ev : string -> nat -> Z.
Hypothesis Henv : env_ok M names nd shape bs Ev.

Let shape_length := env_shape_length _ _ _ _ _ _ Henv.
Let bs_length := env_bs_length _ _ _ _ _ _ Henv.
Let M_SHAPE := env_SHAPE _ _ _ _ _ _ Henv.
Let M_BLOCK_STEP := env_BLOCK_STEP _ _ _ _ _ _ Henv.
Let M_ELEMSTRIDE := env_ELEMSTRIDE _ _ _ _ _ _ Henv.
Let M_DIMELEMSTRIDE := env_DIMELEMSTRIDE _ _ _ _ _ _ Henv.
Let M_BLOCKELEMSTRIDE := env_BLOCKELEMSTRIDE _ _ _ _ _ _ Henv.

Lemma inc_dim_eq d :
  inc_dim names nd d
  = IncIndex d d
    :: (if bool_decide (d < nd - 1)%nat then
          [IfCarry d d
             (CarryIndex d d (d + 1)
              :: map (fun name => CarryArray name name (d + 1) name d)
                     names)]
        else []).
Proof. done. Qed.

Lemma exec_inc_dims sh : forall b_ idx pre_s pre_b done st,
  shape = pre_s ++ sh -> bs = pre_b ++ b_ ->
  length b_ = length sh -> length idx = length sh ->
  length pre_s = length done -> length pre_b = length done ->
  INDEX st = map_seq 0 (done ++ idx) ->
  (forall n, n ∈ names -> is_Some (offsets st !! n)) ->
  exists st',
    exec_stmts M st (flat_map (inc_dim names nd) (seq (length done) (length sh)))
    = Some st'
    /\ INDEX st' = map_seq 0 (done ++ odometer sh b_ idx)
    /\ shifted names
         (fun m => carry_correction sh b_ idx
                     (strides_from Ev m (length done) (length sh)))
         (offsets st) (offsets st').
Proof.
  induction sh as [|s sh IH];
    intros b_ idx pre_s pre_b done st Hs Hb Hlb Hli Hps Hpb HI Hdom.
  - destruct b_, idx; try done. exists st. simpl.
    repeat split; try done. apply shifted_zero.
  - destruct b_ as [|b b_], idx as [|i idx]; try done.
    simpl in Hlb, Hli.
    assert (Hsa : shape !! length done = Some s).
    { rewrite Hs, <- Hps. by apply list_lookup_middle. }
    assert (Hba : bs !! length done = Some b).
    { rewrite Hb, <- Hpb. by apply list_lookup_middle. }
    assert (Hnd : nd = (length done + S (length sh))%nat).
    { rewrite <- shape_length, Hs, length_app. simpl. lia. }
    cbn [length seq flat_map]. unfold exec_stmts.
    rewrite exec_list_app. rewrite (inc_dim_eq (length done)).
    cbn [exec_list exec_stmt].
    rewrite (INDEX_middle _ _ _ _ HI). cbn [mbind option_bind].
    rewrite (M_BLOCK_STEP _ _ Hba). cbn [mbind option_bind].
    pose proof (set_INDEX_middle _ _ _ _ (i + b) HI) as HI1.
    set (st1 := set_INDEX (length done) (i + b) st) in *.
    assert (Hdom1 : forall n, n ∈ names -> is_Some (offsets st1 !! n))
      by done.
    destruct idx as [|j idx].
    + (* last dimension: no carry test *)
      destruct sh; [|done]. destruct b_; [|done].
      rewrite bool_decide_eq_false_2 by (simpl in Hnd; lia).
      simpl. exists st1. repeat split; try done. apply shifted_zero.
    + destruct sh as [|s' sh']; [done|].
      destruct b_ as [|b' b_]; [done|].
      rewrite bool_decide_eq_true_2 by (simpl in Hnd; lia).
      cbn [exec_list exec_stmt].
      rewrite (INDEX_middle _ _ _ _ HI1). cbn [mbind option_bind].
      rewrite (M_SHAPE _ _ Hsa). cbn [mbind option_bind].
      cbn [odometer carry_correction strides_from seq map].
      destruct (decide (s <= i + b)) as [Hge|Hlt].
      * (* carry *)
        unfold exec_carries. cbn [exec_list exec_carry].
        rewrite (INDEX_middle _ _ _ _ HI1). cbn [mbind option_bind].
        rewrite (M_SHAPE _ _ Hsa). cbn [mbind option_bind].
        pose proof (set_INDEX_middle _ _ _ _ (i + b - s) HI1) as HI2.
        set (st2 := set_INDEX (length done) (i + b - s) st1) in *.
        assert (HI2' : INDEX st2
                       = map_seq 0 ((done ++ [i + b - s]) ++ j :: idx))
          by (by rewrite <- app_assoc).
        assert (Hl2 : (length done + 1)%nat = length (done ++ [i + b - s]))
          by (rewrite length_app; simpl; lia).
        rewrite Hl2.
        rewrite (INDEX_middle _ _ _ _ HI2'). cbn [mbind option_bind].
        pose proof (set_INDEX_middle _ _ _ _ (j + 1) HI2') as HI3.
        set (st3 := set_INDEX (length (done ++ [i + b - s])) (j + 1) st2)
          in *.
        destruct (names_loop (exec_carry M)
                    (fun name =>
                       CarryArray name name (length (done ++ [i + b - s]))
                                  name (length done))
                    (fun m => Ev m (length (done ++ [i + b - s]))
                              - Ev m (length done) * s)
                    names st3) as (st4 & Hrun4 & HI4 & _ & HO4).
        { intros st' n v Hn _ Hv. cbn [exec_carry]. rewrite Hv.
          cbn [mbind option_bind].
          rewrite M_ELEMSTRIDE by (done || rewrite <- Hl2; simpl in Hnd; lia).
          cbn [mbind option_bind].
          rewrite (M_DIMELEMSTRIDE _ _ _ Hn Hsa). done. }
        { done. }
        rewrite Hrun4. cbn [mbind option_bind].
        destruct (IH (b' :: b_) (j + 1 :: idx) (pre_s ++ [s]) (pre_b ++ [b])
                    (done ++ [i + b - s]) st4)
          as (st' & Hrun & HI' & HO').
        { by rewrite <- app_assoc. }
        { by rewrite <- app_assoc. }
        { simpl in *; lia. }
        { simpl in *; lia. }
        { rewrite !length_app. simpl. lia. }
        { rewrite !length_app. simpl. lia. }
        { by rewrite HI4. }
        { intros n Hn. eapply shifted_is_Some; [exact HO4|]. by apply Hdom. }
        rewrite <- Hl2 in Hrun. rewrite Nat.add_1_r in Hrun.
        unfold exec_stmts in Hrun. rewrite Hrun.
        exists st'. split; [done|]. split.
        { rewrite HI'. by rewrite <- app_assoc. }
        eapply shifted_ext.
        { eapply shifted_trans; [exact HO4 | exact HO']. }
        intros m. cbn beta. unfold strides_from.
        rewrite <- Hl2. rewrite Nat.add_1_r. done.
      * (* no carry *)
        cbn [mbind option_bind].
        assert (HI1' : INDEX st1 = map_seq 0 ((done ++ [i + b]) ++ j :: idx))
          by (by rewrite <- app_assoc).
        destruct (IH (b' :: b_) (j :: idx) (pre_s ++ [s]) (pre_b ++ [b])
                    (done ++ [i + b]) st1)
          as (st' & Hrun & HI' & HO').
        { by rewrite <- app_assoc. }
        { by rewrite <- app_assoc. }
        { simpl in *; lia. }
        { simpl in *; lia. }
        { rewrite !length_app. simpl. lia. }
        { rewrite !length_app. simpl. lia. }
        { done. }
        { done. }
        replace (length (done ++ [i + b])) with (S (length done)) in *
          by (rewrite length_app; simpl; lia).
        unfold exec_stmts in Hrun. rewrite Hrun.
        exists st'. split; [done|]. split.
        { rewrite HI'. by rewrite <- app_assoc. }
        done.
Qed.

Lemma block_terms_sum n : forall suf pre,
  n ∈ names -> bs = pre ++ suf ->
  exists ts,
    mapM M (map (fun dimnum => ArrMacro "BLOCKELEMSTRIDE" n dimnum)
                (seq (length pre) (length suf))) = Some ts
    /\ np_sum ts
       = direct_offset (strides_from Ev n (length pre) (length suf)) suf.
Proof.
  intros suf. induction suf as [|b suf IH]; intros pre Hn Hb.
  - exists []. done.
  - destruct (IH (pre ++ [b]) Hn) as (ts & Hts & Hsum).
    { by rewrite <- app_assoc. }
    replace (length (pre ++ [b])) with (S (length pre)) in *
      by (rewrite length_app; simpl; lia).
    exists (Ev n (length pre) * b :: ts). split.
    + cbn [length seq map mapM].
      rewrite (M_BLOCKELEMSTRIDE n (length pre) b Hn)
        by (rewrite Hb; by apply list_lookup_middle).
      cbn [mbind option_bind]. rewrite Hts. done.
    + unfold strides_from in *. cbn [length seq map].
      rewrite direct_offset_cons. rewrite <- Hsum. simpl. lia.
Qed.

Lemma exec_loop_inds_inc idx st :
  length idx = nd ->
  INDEX st = map_seq 0 idx ->
  (forall n, n ∈ names -> is_Some (offsets st !! n)) ->
  exists st',
    exec_stmts M st (emit_loop_inds_inc nd names) = Some st'
    /\ INDEX st' = map_seq 0 (odometer shape bs idx)
    /\ shifted names
         (fun m => direct_offset (strides_from Ev m 0 nd) bs
                   + carry_correction shape bs idx (strides_from Ev m 0 nd))
         (offsets st) (offsets st').
Proof.
  intros Hl HI Hdom. unfold emit_loop_inds_inc, exec_stmts.
  rewrite exec_list_app.
  destruct (names_loop (exec_stmt M)
              (fun name =>
                 IncArray name
                   (map (fun dimnum => ArrMacro "BLOCKELEMSTRIDE" name dimnum)
                        (seq 0 nd)))
              (fun m => direct_offset (strides_from Ev m 0 nd) bs)
              names st) as (st1 & Hrun1 & HI1 & _ & HO1).
  { intros st' n v Hn _ Hv. cbn [exec_stmt]. rewrite Hv.
    cbn [mbind option_bind].
    destruct (block_terms_sum n bs [] Hn eq_refl) as (ts & Hts & Hsum).
    simpl in Hts. rewrite bs_length in Hts, Hsum. rewrite Hts.
    cbn [mbind option_bind]. by rewrite Hsum. }
  { done. }
  rewrite Hrun1. cbn [mbind option_bind].
  destruct (exec_inc_dims shape bs idx [] [] [] st1)
    as (st' & Hrun & HI' & HO'); try done.
  { lia. } { lia. } { by rewrite HI1. }
  { intros n Hn. eapply shifted_is_Some; [exact HO1|]. by apply Hdom. }
  simpl in Hrun, HI', HO'. rewrite shape_length in Hrun, HO'.
  exists st'. split; [exact Hrun|]. split; [done|].
  eapply shifted_trans; [exact HO1 | exact HO'].
Qed.

Lemma exec_calc_dims sh : forall pre_s done st,
  shape = pre_s ++ sh -> length pre_s = length done ->
  Forall (fun n => 0 < n) sh ->
  INDEX st = map_seq 0 done ->
  0 <= _TMP_GLOBAL_i st ->
  (forall n, n ∈ names -> is_Some (offsets st !! n)) ->
  exists st',
    exec_stmts M st (flat_map (calc_dim names) (seq (length done) (length sh)))
    = Some st'
    /\ INDEX st' = map_seq 0 (done ++ direct_indices sh (_TMP_GLOBAL_i st))
    /\ shifted names
         (fun m => direct_offset (strides_from Ev m (length done) (length sh))
                     (direct_indices sh (_TMP_GLOBAL_i st)))
         (offsets st) (offsets st').
Proof.
  induction sh as [|s sh IH]; intros pre_s done st Hs Hps Hpos HI Ht Hdom.
  - exists st. simpl. rewrite app_nil_r. repeat split; try done.
    apply shifted_zero.
  - inversion Hpos as [|? ? Hs0 Hpos']; subst s sh.
    assert (Hsa : shape !! length done = Some x).
    { rewrite Hs, <- Hps. by apply list_lookup_middle. }
    assert (Hnd : nd = (length done + S (length l))%nat).
    { rewrite <- shape_length, Hs, length_app. simpl. lia. }
    cbn [length seq flat_map]. unfold exec_stmts.
    rewrite exec_list_app.
    change (calc_dim names (length done))
      with (CalcIndex (length done) (length done) (length done)
            :: map (fun name =>
                      CalcArray name (length done) name (length done))
                   names).
    cbn [exec_list exec_stmt].
    rewrite (M_SHAPE _ _ Hsa). cbn [mbind option_bind].
    destruct (decide (x = 0)) as [?|_]; [lia|].
    cbn [set_INDEX _TMP_GLOBAL_i].
    destruct (decide (x = 0)) as [?|_]; [lia|].
    set (t := _TMP_GLOBAL_i st) in *.
    rewrite Z.rem_mod_nonneg by lia. rewrite Z.quot_div_nonneg by lia.
    set (st2 := set_TMP (t / x) (set_INDEX (length done) (t mod x) st)).
    assert (HI2 : INDEX st2 = map_seq 0 (done ++ [t mod x])).
    { subst st2. simpl. rewrite HI. by rewrite map_seq_snoc. }
    destruct (names_loop (exec_stmt M)
                (fun name => CalcArray name (length done) name (length done))
                (fun m => (t mod x) * Ev m (length done))
                names st2) as (st3 & Hrun3 & HI3 & HT3 & HO3).
    { intros st' n v Hn HIn Hv. cbn [exec_stmt]. rewrite Hv.
      cbn [mbind option_bind]. rewrite HIn, HI2.
      rewrite lookup_map_seq_0.
      rewrite (list_lookup_middle done [] (t mod x) (length done) eq_refl).
      cbn [mbind option_bind].
      rewrite M_ELEMSTRIDE by (done || lia). done. }
    { done. }
    cbn [mbind option_bind]. rewrite Hrun3. cbn [mbind option_bind].
    destruct (IH (pre_s ++ [x]) (done ++ [t mod x]) st3)
      as (st' & Hrun & HI' & HO').
    { by rewrite <- app_assoc. }
    { rewrite !length_app. simpl. lia. }
    { done. }
    { by rewrite HI3. }
    { rewrite HT3. subst st2. simpl. apply Z.div_pos; lia. }
    { intros n Hn. eapply shifted_is_Some; [exact HO3|]. by apply Hdom. }
    replace (length (done ++ [t mod x])) with (S (length done)) in *
      by (rewrite length_app; simpl; lia).
    rewrite HT3 in HI', HO'. subst st2. cbn [set_TMP _TMP_GLOBAL_i] in HI', HO'.
    unfold exec_stmts in Hrun. rewrite Hrun.
    exists st'. split; [done|]. split.
    { rewrite HI'. by rewrite <- app_assoc. }
    eapply shifted_ext.
    { eapply shifted_trans; [exact HO3 | exact HO']. }
    intros m. cbn beta. unfold strides_from. cbn [seq map direct_indices].
    by rewrite direct_offset_cons.
Qed.
End EmittedCode.

(** ** Results of loops that may raise *)

Lemma bind_Ok {A B} (r : result A) (f : A -> result B) b :
  r ≫= f = Ok b -> exists a, r = Ok a /\ f a = Ok b.
Proof. destruct r as [a|e]; [by exists a | done]. Qed.

Lemma fmap_Ok {A B} (r : result A) (f : A -> B) b :
  f <$> r = Ok b -> exists a, r = Ok a /\ b = f a.
Proof. destruct r as [a|e]; [|done]. intros [= <-]. by exists a. Qed.

Lemma getitem_Ok {A} (l : list A) i a : getitem l i = Ok a -> l !! i = Some a.
Proof. unfold getitem. destruct (l !! i); [by intros [= ->] | done]. Qed.

Lemma for_each_app {A B} (f : A -> result B) l1 l2 ys :
  for_each f (l1 ++ l2) = Ok ys ->
  exists ys1 ys2, for_each f l1 = Ok ys1 /\ for_each f l2 = Ok ys2
                  /\ ys = ys1 ++ ys2.
Proof.
  revert ys. induction l1 as [|x l1 IH]; intros ys H; simpl in *.
  - by exists [], ys.
  - apply bind_Ok in H as (y & Hy & H). apply bind_Ok in H as (ys' & Hys & H).
    injection H as <-. destruct (IH _ Hys) as (ys1 & ys2 & H1 & H2 & ->).
    exists (y :: ys1), ys2. rewrite Hy, H1. done.
Qed.

Lemma for_each_length {A B} (f : A -> result B) l ys :
  for_each f l = Ok ys -> length ys = length l.
Proof.
  revert ys. induction l as [|x l IH]; intros ys H; simpl in *.
  - by injection H as <-.
  - apply bind_Ok in H as (y & Hy & H). apply bind_Ok in H as (ys' & Hys & H).
    injection H as <-. simpl. f_equal. by apply IH.
Qed.

Lemma for_loop_invariant {A S} (body : S -> A -> result S) (P : S -> Prop)
    l s0 s :
  P s0 ->
  (forall s x s', P s -> x ∈ l -> body s x = Ok s' -> P s') ->
  for_loop body s0 l = Ok s -> P s.
Proof.
  revert s0. induction l as [|x l IH]; intros s0 H0 Hstep H; simpl in *.
  - by injection H as <-.
  - apply bind_Ok in H as (s1 & Hs1 & H).
    apply (IH s1); [| |done].
    + eapply Hstep; [done | by left | done].
    + intros s2 y s3 HP Hy. apply Hstep; [done | by right].
Qed.

(** ** The macro environment of the emitted defines *)

Lemma macro_value_app xs ys m :
  macro_value (xs ++ ys) m
  = match macro_value ys m with
    | Some v => Some v
    | None => macro_value xs m
    end.
Proof.
  induction xs as [|d xs IH]; simpl.
  - by destruct (macro_value ys m).
  - rewrite IH. destruct (macro_value ys m); [done|].
    by destruct (macro_value xs m).
Qed.

Lemma macro_value_no_values ds m : no_values ds -> macro_value ds m = None.
Proof.
  induction 1 as [|d ds Hd _ IH]; simpl; [done|].
  rewrite IH. destruct d as [|m' v| |]; try done. by destruct (Hd m' v).
Qed.

Section DefValues.
Variable mk : nat -> macro.
Variable vals : list Z.
Hypothesis mk_inj : forall d d', mk d = mk d' -> d = d'.

Lemma values_below k : forall a ds d,
  for_each (emit_one mk vals) (seq a k) = Ok ds ->
  (d < a)%nat -> macro_value ds (mk d) = None.
Proof.
  induction k as [|k IH]; intros a ds d H Hd.
  - by injection H as <-.
  - cbn [seq for_each] in H.
    apply bind_Ok in H as (y & Hy & H).
    apply bind_Ok in H as (ys' & Hys & H). injection H as <-.
    unfold emit_one in Hy.
    apply bind_Ok in Hy as (v & Hv & Hy). injection Hy as <-.
    simpl. rewrite (IH _ _ _ Hys) by lia.
    destruct (decide (mk a = mk d)) as [E|]; [|done].
    apply mk_inj in E. lia.
Qed.

Lemma values_hit k : forall a ds d,
  for_each (emit_one mk vals) (seq a k) = Ok ds ->
  (a <= d < a + k)%nat ->
  exists v, vals !! d = Some v /\ macro_value ds (mk d) = Some v.
Proof.
  induction k as [|k IH]; intros a ds d H Hd; [lia|].
  cbn [seq for_each] in H.
  apply bind_Ok in H as (y & Hy & H). apply bind_Ok in H as (ys & Hys & H).
  injection H as <-. unfold emit_one in Hy.
  apply bind_Ok in Hy as (v & Hv & Hy). injection Hy as <-.
  apply getitem_Ok in Hv. simpl.
  destruct (decide (d = a)) as [->|Hne].
  - rewrite (values_below _ _ _ _ Hys) by lia.
    exists v. split; [done|]. by rewrite decide_True.
  - destruct (IH (S a) ys d Hys) as (v' & Hv' & Hm); [lia|].
    exists v'. split; [done|]. by rewrite Hm.
Qed.

Lemma values_miss k a ds m :
  for_each (emit_one mk vals) (seq a k) = Ok ds ->
  (forall d, m <> mk d) -> macro_value ds m = None.
Proof.
  revert a ds. induction k as [|k IH]; intros a ds H Hm.
  - by injection H as <-.
  - cbn [seq for_each] in H.
    apply bind_Ok in H as (y & Hy & H). apply bind_Ok in H as (ys & Hys & H).
    injection H as <-. unfold emit_one in Hy.
    apply bind_Ok in Hy as (v & Hv & Hy). injection Hy as <-.
    simpl. rewrite (IH _ _ Hys Hm).
    destruct (decide (mk a = m)) as [E|]; [|done]. by destruct (Hm a).
Qed.
End DefValues.

Lemma arr_macro_inj dn n d d' : ArrMacro dn n d = ArrMacro dn n d' -> d = d'.
Proof. by intros [=]. Qed.
Lemma dim_macro_inj dn d d' : DimMacro dn d = DimMacro dn d' -> d = d'.
Proof. by intros [=]. Qed.

Lemma info_defines_hit nd info ds d :
  emit_info_defines nd info = Ok ds -> (d < nd)%nat ->
  exists e de be,
    ai_elemstrides info !! d = Some e
    /\ ai_dimelemstrides info !! d = Some de
    /\ ai_blockelemstrides info !! d = Some be
    /\ macro_value ds (ArrMacro "ELEMSTRIDE" (ai_name info) d) = Some e
    /\ macro_value ds (ArrMacro "DIMELEMSTRIDE" (ai_name info) d) = Some de
    /\ macro_value ds (ArrMacro "BLOCKELEMSTRIDE" (ai_name info) d) = Some be.
Proof.
  intros H Hd. unfold emit_info_defines in H.
  apply bind_Ok in H as (e_ & He & H). apply bind_Ok in H as (d_ & Hd_ & H).
  apply bind_Ok in H as (b_ & Hb & H). injection H as <-.
  destruct (values_hit _ _ (arr_macro_inj "ELEMSTRIDE" (ai_name info))
              nd 0%nat e_ d He) as (e & Hel & Hem); [lia|].
  destruct (values_hit _ _ (arr_macro_inj "DIMELEMSTRIDE" (ai_name info))
              nd 0%nat d_ d Hd_) as (de & Hdl & Hdm); [lia|].
  destruct (values_hit _ _ (arr_macro_inj "BLOCKELEMSTRIDE" (ai_name info))
              nd 0%nat b_ d Hb) as (be & Hbl & Hbm); [lia|].
  exists e, de, be. repeat split; try done.
  - rewrite !macro_value_app.
    rewrite (values_miss _ _ _ _ _ _ Hb) by done.
    rewrite (values_miss _ _ _ _ _ _ Hd_) by done. done.
  - rewrite !macro_value_app.
    rewrite (values_miss _ _ _ _ _ _ Hb) by done. by rewrite Hdm.
  - rewrite !macro_value_app. by rewrite Hbm.
Qed.

Lemma info_defines_miss nd info ds m :
  emit_info_defines nd info = Ok ds ->
  (forall dn d, m <> ArrMacro dn (ai_name info) d) ->
  macro_value ds m = None.
Proof.
  intros H Hm. unfold emit_info_defines in H.
  apply bind_Ok in H as (e_ & He & H). apply bind_Ok in H as (d_ & Hd_ & H).
  apply bind_Ok in H as (b_ & Hb & H). injection H as <-.
  rewrite !macro_value_app.
  rewrite (values_miss _ _ _ _ _ _ Hb) by (intros; apply Hm).
  rewrite (values_miss _ _ _ _ _ _ Hd_) by (intros; apply Hm).
  by rewrite (values_miss _ _ _ _ _ _ He) by (intros; apply Hm).
Qed.

(** The defines of all arrays: a name that has an entry gets its three
    macros, in every dimension, from one and the same entry. *)
Lemma infos_defines nd infos : forall dss n,
  for_each (emit_info_defines nd) infos = Ok dss ->
  n ∈ map ai_name infos ->
  exists info, info ∈ infos /\ ai_name info = n /\
    forall d, (d < nd)%nat ->
    exists e de be,
      ai_elemstrides info !! d = Some e
      /\ ai_dimelemstrides info !! d = Some de
      /\ ai_blockelemstrides info !! d = Some be
      /\ macro_value (concat dss) (ArrMacro "ELEMSTRIDE" n d) = Some e
      /\ macro_value (concat dss) (ArrMacro "DIMELEMSTRIDE" n d) = Some de
      /\ macro_value (concat dss) (ArrMacro "BLOCKELEMSTRIDE" n d) = Some be.
Proof.
  induction infos as [|info infos IH] using rev_ind; intros dss n H Hn.
  - by apply elem_of_nil in Hn.
  - apply for_each_app in H as (dss1 & dss2 & H1 & H2 & ->).
    simpl in H2. apply bind_Ok in H2 as (ds & Hds & H2). injection H2 as <-.
    rewrite concat_app. simpl. rewrite app_nil_r.
    destruct (decide (ai_name info = n)) as [E|Hne].
    + exists info. split; [apply elem_of_app; right; by left|]. split; [done|].
      intros d Hd.
      destruct (info_defines_hit _ _ _ d Hds Hd)
        as (e & de & be & ? & ? & ? & He & Hde & Hbe).
      exists e, de, be. rewrite !macro_value_app. rewrite <- E.
      by rewrite He, Hde, Hbe.
    + rewrite map_app in Hn. apply elem_of_app in Hn as [Hn|Hn].
      2:{ simpl in Hn. apply list_elem_of_singleton in Hn. done. }
      destruct (IH _ _ H1 Hn) as (info' & Hin & Hname & Hall).
      exists info'. split; [apply elem_of_app; by left|]. split; [done|].
      intros d Hd. destruct (Hall d Hd) as (e & de & be & ? & ? & ? & ? & ? & ?).
      exists e, de, be. rewrite !macro_value_app.
      rewrite !(info_defines_miss _ _ _ _ Hds) by (intros ? ? [=]; done).
      done.
Qed.

Lemma infos_defines_dim nd infos dss dn d :
  for_each (emit_info_defines nd) infos = Ok dss ->
  macro_value (concat dss) (DimMacro dn d) = None.
Proof.
  revert dss. induction infos as [|info infos IH]; intros dss H; simpl in H.
  - by injection H as <-.
  - apply bind_Ok in H as (ds & Hds & H). apply bind_Ok in H as (dss' & Hdss & H).
    injection H as <-. simpl. rewrite macro_value_app. rewrite (IH _ Hdss).
    by apply (info_defines_miss _ _ _ _ Hds).
Qed.

(** ** Invariants of the traversal plan *)

Lemma np_mul_lookup xs ys zs d y :
  np_mul xs ys = Ok zs -> (length ys <= length xs)%nat ->
  ys !! d = Some y ->
  exists x, xs !! d = Some x /\ zs !! d = Some (x * y).
Proof.
  unfold np_mul. intros H Hlen Hy.
  destruct (decide (length xs = length ys)) as [E|Hne].
  - injection H as <-.
    destruct (xs !! d) as [x|] eqn:Hx.
    + exists x. split; [done|]. rewrite lookup_zip_with, Hx. simpl. by rewrite Hy.
    + apply lookup_ge_None in Hx. apply lookup_lt_Some in Hy. lia.
  - destruct xs as [|x [|x' xs]].
    + destruct ys; simpl in *; [done | lia].
    + destruct ys as [|y0 [|y1 ys]]; simpl in *; try lia. done.
    + destruct ys as [|y0 [|y1 ys]]; try done.
      * injection H as <-. destruct d; [|done]. injection Hy as <-.
        exists x. done.
Qed.

Lemma block_step_fold_length ds : forall l t,
  length (foldl block_step_body (l, t) ds).1 = length l.
Proof.
  induction ds as [|d ds IH]; intros l t; simpl; [done|].
  rewrite IH. by rewrite length_insert.
Qed.

Lemma calc_block_step_length shape t :
  length (calc_block_step shape t) = length shape.
Proof. apply block_step_fold_length. Qed.

Lemma arginfo_body_ok nd do_reverse shape bs st a st' :
  length shape = nd -> length bs = nd ->
  plan_state_ok shape bs st ->
  arginfo_body nd do_reverse shape bs st a = Ok st' ->
  plan_state_ok shape bs st'.
Proof.
  intros Hls Hlb [Hinfos Hnames] H.
  destruct a as [[arg_name arg_itemsize] arg_strides].
  unfold arginfo_body in H.
  set (strides := if do_reverse
                  then slice_assign (replicate nd 0) (length arg_strides)
                         (reverse arg_strides)
                  else slice_assign (replicate nd 0) (length arg_strides)
                         arg_strides) in *.
  set (elemstrides := map (fun s => np_floordiv s arg_itemsize) strides) in *.
  assert (Hlen : (nd <= length elemstrides)%nat).
  { subst elemstrides strides. rewrite length_map. unfold slice_assign.
    destruct do_reverse;
      rewrite length_app, length_drop, length_replicate, ?length_reverse; lia. }
  apply bind_Ok in H as (dimelemstrides & Hd & H).
  apply bind_Ok in H as (blockelemstrides & Hb & H).
  apply bind_Ok in H as ([indnames refnames] & Hn & H). injection H as <-.
  split; simpl.
  - apply Forall_app. split; [done|]. apply Forall_singleton.
    intros d s b Hs Hbd. simpl.
    destruct (np_mul_lookup _ _ _ _ _ Hd ltac:(lia) Hs) as (e & He & Hde).
    destruct (np_mul_lookup _ _ _ _ _ Hb ltac:(lia) Hbd) as (e' & He' & Hbe).
    exists e. replace e' with e in * by congruence. done.
  - intros n Hin. rewrite map_app. apply elem_of_app.
    destruct (find_inforef elemstrides (arrayarginfos st)) as [i|].
    + apply bind_Ok in Hn as (info & _ & Hn). injection Hn as <- <-.
      left. by apply Hnames.
    + injection Hn as <- <-. apply elem_of_app in Hin as [Hin|Hin].
      * left. by apply Hnames.
      * right. simpl. done.
Qed.

Lemma prod_app xs ys : prod (xs ++ ys) = prod xs * prod ys.
Proof. induction xs as [|x xs IH]; simpl; [lia|]. rewrite IH. lia. Qed.

Lemma prod_reverse xs : prod (reverse xs) = prod xs.
Proof.
  induction xs as [|x xs IH]; [done|].
  rewrite reverse_cons, prod_app, IH. simpl. lia.
Qed.

Lemma make_plan_Ok names precalc grid block p :
  make_plan names precalc grid block = Ok p ->
  exists b0 g0,
    block !! 0%nat = Some b0 /\ grid !! 0%nat = Some g0
    /\ numthreads p = b0 * g0
    /\ plan_shape p = traversal_shape precalc
    /\ ndim p = length (plan_shape p)
    /\ block_step p = calc_block_step (plan_shape p) (numthreads p)
    /\ plan_state_ok (plan_shape p) (block_step p) (plan_names p).
Proof.
  unfold make_plan. intros H.
  apply bind_Ok in H as (ais & _ & H).
  apply bind_Ok in H as (nd & Hnd & H).
  apply bind_Ok in H as (b0 & Hb0 & H).
  apply bind_Ok in H as (g0 & Hg0 & H).
  apply bind_Ok in H as (st & Hst & H). injection H as <-.
  apply getitem_Ok in Hb0, Hg0.
  assert (Hlen : nd = length (traversal_shape precalc)).
  { unfold len in Hnd. unfold traversal_shape.
    destruct (sig_shape precalc) as [shape|]; [|done].
    injection Hnd as <-. simpl.
    destruct (default false (sig_do_reverse precalc));
      by rewrite ?length_reverse. }
  exists b0, g0. simpl. repeat split; try done.
  - eapply (for_loop_invariant _ (plan_state_ok _ _)); [| |exact Hst].
    + split; simpl; [by apply Forall_nil | by intros n Hn; apply elem_of_nil in Hn].
    + intros s x s' Hs _ Hbody.
      eapply arginfo_body_ok; [| |exact Hs|exact Hbody].
      * by rewrite Hlen.
      * by rewrite calc_block_step_length.
  - eapply (for_loop_invariant _ (plan_state_ok _ _)); [| |exact Hst].
    + split; simpl; [by apply Forall_nil | by intros n Hn; apply elem_of_nil in Hn].
    + intros s x s' Hs _ Hbody.
      eapply arginfo_body_ok; [| |exact Hs|exact Hbody].
      * by rewrite Hlen.
      * by rewrite calc_block_step_length.
Qed.

Lemma no_values_alias (l : list (string * string)) :
  no_values (map (fun '(name, refname) => DefAlias name refname) l).
Proof.
  apply Forall_forall. intros d Hd. apply list_elem_of_fmap in Hd as ([n r] & -> & _).
  done.
Qed.

Lemma no_values_INDEX (l : list nat) :
  no_values (map (fun dimnum => DefINDEX dimnum dimnum) l).
Proof.
  apply Forall_forall. intros d Hd. apply list_elem_of_fmap in Hd as (n & -> & _).
  done.
Qed.

Lemma emit_defines_env do_indices p defs :
  ndim p = length (plan_shape p) ->
  length (block_step p) = length (plan_shape p) ->
  plan_state_ok (plan_shape p) (block_step p) (plan_names p) ->
  emit_defines do_indices p = Ok defs ->
  env_ok (macro_value defs) (arrayindnames (plan_names p)) (ndim p)
         (plan_shape p) (block_step p) (ELEMSTRIDE defs).
Proof.
  intros Hnd Hbs [Hinfos Hnames] H. unfold emit_defines in H.
  apply bind_Ok in H as (d1 & Hd1 & H). apply bind_Ok in H as (d2 & Hd2 & H).
  apply bind_Ok in H as (d3 & Hd3 & H). injection H as <-.
  set (d0 := if do_indices then [DefNDIM (ndim p)] else []).
  set (d4 := map _ (arrayrefnames (plan_names p))).
  set (d5 := if do_indices then _ else []).
  assert (H0 : no_values d0).
  { subst d0. destruct do_indices; [|by apply Forall_nil].
    apply Forall_singleton. done. }
  assert (H4 : no_values d4) by apply no_values_alias.
  assert (H5 : no_values d5).
  { subst d5. destruct do_indices; [apply no_values_INDEX | by apply Forall_nil]. }
  assert (Harr : forall dn n d,
            macro_value (d0 ++ d1 ++ d2 ++ concat d3 ++ d4 ++ d5)
                        (ArrMacro dn n d)
            = macro_value (concat d3) (ArrMacro dn n d)).
  { intros dn n d. rewrite !macro_value_app.
    rewrite (macro_value_no_values d5), (macro_value_no_values d4) by done.
    destruct (macro_value (concat d3) _); [done|].
    unfold emit_dim_defines in Hd1, Hd2.
    rewrite (values_miss _ _ _ _ _ _ Hd2) by done.
    rewrite (values_miss _ _ _ _ _ _ Hd1) by done.
    by apply macro_value_no_values. }
  assert (Hinfo : forall n, n ∈ arrayindnames (plan_names p) ->
            forall d, (d < ndim p)%nat ->
            exists e s b, plan_shape p !! d = Some s
              /\ block_step p !! d = Some b
              /\ macro_value (concat d3) (ArrMacro "ELEMSTRIDE" n d) = Some e
              /\ macro_value (concat d3) (ArrMacro "DIMELEMSTRIDE" n d)
                 = Some (e * s)
              /\ macro_value (concat d3) (ArrMacro "BLOCKELEMSTRIDE" n d)
                 = Some (e * b)).
  { intros n Hn d Hd.
    destruct (infos_defines _ _ _ n Hd3 (Hnames n Hn))
      as (info & Hin & _ & Hall).
    destruct (Hall d Hd) as (e & de & be & He & Hde & Hbe & HMe & HMd & HMb).
    destruct (lookup_lt_is_Some_2 (plan_shape p) d) as [s Hs]; [lia|].
    destruct (lookup_lt_is_Some_2 (block_step p) d) as [b Hb]; [lia|].
    eapply Forall_forall in Hinfos; [|exact Hin].
    destruct (Hinfos d s b Hs Hb) as (e' & He' & Hde' & Hbe').
    exists e, s, b. replace e' with e in * by congruence.
    repeat split; try done; congruence. }
  split.
  - by rewrite Hnd.
  - by rewrite Hnd, Hbs.
  - intros d s Hs. rewrite !macro_value_app.
    rewrite (macro_value_no_values d5), (macro_value_no_values d4) by done.
    rewrite (infos_defines_dim _ _ _ _ _ Hd3).
    unfold emit_dim_defines in Hd1, Hd2.
    rewrite (values_miss _ _ _ _ _ _ Hd2) by done.
    destruct (values_hit _ _ (dim_macro_inj "SHAPE") _ _ _ d Hd1)
      as (v & Hv & ->); [apply lookup_lt_Some in Hs; lia|]. congruence.
  - intros d b Hb. rewrite !macro_value_app.
    rewrite (macro_value_no_values d5), (macro_value_no_values d4) by done.
    rewrite (infos_defines_dim _ _ _ _ _ Hd3).
    unfold emit_dim_defines in Hd2.
    destruct (values_hit _ _ (dim_macro_inj "BLOCK_STEP") _ _ _ d Hd2)
      as (v & Hv & ->); [apply lookup_lt_Some in Hb; lia|]. congruence.
  - intros n d Hn Hd. unfold ELEMSTRIDE. rewrite Harr.
    destruct (Hinfo n Hn d Hd) as (e & s & b & _ & _ & -> & _). done.
  - intros n d s Hn Hs. unfold ELEMSTRIDE. rewrite !Harr.
    destruct (Hinfo n Hn d) as (e & s' & b & Hs' & _ & -> & -> & _).
    { apply lookup_lt_Some in Hs. lia. }
    simpl. congruence.
  - intros n d b Hn Hb. unfold ELEMSTRIDE. rewrite !Harr.
    destruct (Hinfo n Hn d) as (e & s & b' & _ & Hb' & -> & _ & ->).
    { apply lookup_lt_Some in Hb. lia. }
    simpl. congruence.
Qed.

(** ** The emitted source of a plan *)

Lemma exec_debug M st l : Forall is_debug l -> exec_stmts M st l = Some st.
Proof.
  induction 1 as [|s l Hs _ IH]; [done|].
  unfold exec_stmts in *. simpl. by destruct s.
Qed.

Lemma emit_debug_calc_is_debug funcname p l :
  emit_debug_calc funcname p = Ok l -> Forall is_debug l.
Proof.
  unfold emit_debug_calc. intros H. apply bind_Ok in H as (arrs & Harrs & H).
  injection H as <-. apply Forall_cons. split; [done|].
  apply Forall_app. split; [|by apply Forall_singleton].
  revert arrs Harrs. induction (arrayarginfos (plan_names p)) as [|i l IH];
    intros arrs H; simpl in H.
  - injection H as <-. by apply Forall_nil.
  - apply bind_Ok in H as (y & Hy & H). apply bind_Ok in H as (ys & Hys & H).
    injection H as <-. apply bind_Ok in Hy as (m & _ & Hy). injection Hy as <-.
    apply Forall_cons. split; [done|]. by apply IH.
Qed.

Lemma emit_Ok self p src :
  emit self p = Ok src ->
  exists dbg,
    emit_defines (_do_indices self) p = Ok (src_defines src)
    /\ src_decls src = emit_decls (_do_indices self) p
    /\ src_loop_inds_calc src
       = emit_loop_inds_calc (ndim p) (arrayindnames (plan_names p)) ++ dbg
    /\ Forall is_debug dbg
    /\ loop_inds_inc (src_loop_body src)
       = emit_loop_inds_inc (ndim p) (arrayindnames (plan_names p)).
Proof.
  unfold emit. intros H. apply bind_Ok in H as (defs & Hdefs & H).
  apply bind_Ok in H as ([[[pre calc] preop] after] & Hdbg & H).
  injection H as <-. simpl.
  destruct (_debug self).
  - apply bind_Ok in Hdbg as (dbg & Hd & Hdbg).
    apply bind_Ok in Hdbg as (indtest & _ & Hdbg). injection Hdbg as <- <- <- <-.
    exists dbg. repeat split; try done. by eapply emit_debug_calc_is_debug.
  - injection Hdbg as <- <- <- <-. exists []. rewrite app_nil_r.
    repeat split; try done.
Qed.

Lemma create_source_deferred self precalc grid block src :
  create_source self precalc grid block = Ok (SourceDeferred src) ->
  exists names p,
    for_each (getitem (ia_arg_names (_init_args self))) (_array_arg_inds self)
    = Ok names
    /\ make_plan names precalc grid block = Ok p
    /\ emit self p = Ok src.
Proof.
  unfold create_source. intros H. apply bind_Ok in H as (names & Hn & H).
  destruct (sig_contigmatch precalc && negb (_do_indices self)); [done|].
  apply bind_Ok in H as (p & Hp & H). apply bind_Ok in H as (d & Hd & H).
  injection H as <-. by exists names, p.
Qed.

(** ** The state of a thread *)

Lemma decl_array_indices start names : forall st,
  let st' := foldl (exec_decl start) st (map DeclArrayIndex names) in
  _GLOBAL_i st' = _GLOBAL_i st /\ INDEX st' = INDEX st
  /\ forall m, offsets st' !! m
               = if decide (m ∈ names) then Some 0 else offsets st !! m.
Proof.
  induction names as [|n names IH]; intros st; simpl.
  - repeat split; done.
  - destruct (IH (exec_decl start st (DeclArrayIndex n))) as (HG & HI & HO).
    repeat split; try done. intros m. rewrite HO. simpl.
    destruct (decide (m ∈ names)) as [Hin|Hnin].
    + rewrite decide_True; [done | by right].
    + destruct (decide (n = m)) as [->|Hne].
      * rewrite lookup_insert_eq. rewrite decide_True; [done | by left].
      * rewrite lookup_insert_ne by done. rewrite decide_False; [done|].
        intros Hin. apply elem_of_cons in Hin as [?|?]; congruence.
Qed.

Lemma decl_INDEX start (do_indices : bool) nd st :
  foldl (exec_decl start) st
        (if do_indices then [DeclINDEXArray nd]
         else map DeclINDEX (seq 0 nd) : list decl) = st.
Proof.
  destruct do_indices; [done|].
  generalize (seq 0 nd). intros l. revert st.
  induction l as [|d l IH]; intros st; [done|].
  simpl. apply IH.
Qed.

Lemma thread_start_spec src do_indices p start :
  src_decls src = emit_decls do_indices p ->
  let st := thread_start src start in
  _GLOBAL_i st = start /\ INDEX st = ∅
  /\ forall m, offsets st !! m
               = if decide (m ∈ arrayindnames (plan_names p)) then Some 0
                 else None.
Proof.
  intros Hd. unfold thread_start. rewrite Hd. unfold emit_decls.
  rewrite !foldl_app. rewrite decl_INDEX. simpl.
  destruct (decl_array_indices start (arrayindnames (plan_names p))
              {| _GLOBAL_i := start; _TMP_GLOBAL_i := 0;
                 INDEX := ∅; offsets := ∅ |}) as (HG & HI & HO).
  split; [done|]. split; [done|]. intros m. rewrite HO. simpl.
  by rewrite lookup_empty.
Qed.

(** ** Incremental and direct index computation agree *)


Lemma add_head_0 l : add_head 0 l = l.
Proof. destruct l; simpl; [done|]. f_equal. lia. Qed.

Section Agreement.
Variable src : DeferredSource.
Variable do_indices : bool.
Variable p : plan.
Variable dbg : list stmt.
Local Abbreviation defs := (src_defines src).
Local Abbreviation names := (arrayindnames (plan_names p)).
Local Abbreviation sh := (plan_shape p).
Hypothesis Hdecls : src_decls src = emit_decls do_indices p.
Hypothesis Hcalc :
  src_loop_inds_calc src = emit_loop_inds_calc (ndim p) names ++ dbg.
Hypothesis Hdbg : Forall is_debug dbg.
Hypothesis Hinc :
  loop_inds_inc (src_loop_body src) = emit_loop_inds_inc (ndim p) names.
Hypothesis Henv :
  env_ok (macro_value defs) names (ndim p) sh (block_step p)
         (ELEMSTRIDE defs).
Hypothesis Hpos : Forall (fun n => 0 < n) sh.
Hypothesis Hbs : block_step p = calc_block_step sh (numthreads p).

Lemma run_calc_represents pos :
  0 <= pos ->
  exists st, run_calc src pos = Some st /\ represents defs names sh pos st.
Proof.
  intros Hp. unfold run_calc. rewrite Hcalc.
  destruct (thread_start_spec src do_indices p pos Hdecls) as (HG & HI & HO).
  pose proof (env_shape_length _ _ _ _ _ _ Henv) as Hl1.
  unfold exec_stmts. rewrite exec_list_app. unfold emit_loop_inds_calc.
  cbn [app exec_list exec_stmt mbind option_bind].
  fold defs.
  set (st0 := set_TMP _ _).
  destruct (exec_calc_dims _ _ _ _ _ _ Henv sh [] [] st0)
    as (st' & Hrun & HI' & HO'); try done.
  { subst st0. simpl. by rewrite HG. }
  { intros n Hn. subst st0. simpl. fold names in HO. rewrite HO.
    rewrite decide_True by done. by eexists. }
  unfold exec_stmts in Hrun. simpl in Hrun. rewrite <- Hl1.
  rewrite Hrun. cbn [mbind option_bind].
  rewrite (exec_debug _ _ _ Hdbg : exec_list _ _ _ = _).
  exists st'. split; [done|]. split.
  - rewrite HI'. subst st0. simpl. by rewrite HG.
  - intros m. rewrite HO'. subst st0. cbn [set_TMP offsets _TMP_GLOBAL_i].
    fold names in HO. rewrite HO, HG.
    destruct (decide (m ∈ names)); simpl; [|done].
    unfold strides_from. f_equal; lia.
Qed.

Lemma inc_represents pos st :
  0 <= pos -> 0 <= numthreads p -> pos + numthreads p < prod sh ->
  represents defs names sh pos st ->
  exists st',
    exec_stmts (macro_value defs) st (loop_inds_inc (src_loop_body src))
    = Some st'
    /\ represents defs names sh (pos + numthreads p) st'.
Proof.
  intros Hp Ht Hlt [HI HO]. rewrite Hinc.
  pose proof (env_shape_length _ _ _ _ _ _ Henv) as Hl1.
  pose proof (env_bs_length _ _ _ _ _ _ Henv) as Hl2.
  destruct (exec_loop_inds_inc _ _ _ _ _ _ Henv
              (direct_indices sh pos) st)
    as (st' & Hrun & HI' & HO'); try done.
  { by rewrite direct_indices_length. }
  { intros n Hn. rewrite HO. rewrite decide_True by done. by eexists. }
  exists st'. split; [done|].
  assert (Hodo : odometer sh (block_step p) (direct_indices sh pos)
                 = direct_indices sh (pos + numthreads p)).
  { rewrite Hbs, calc_block_step_direct by done.
    rewrite <- (add_head_0 (direct_indices sh pos)).
    rewrite odometer_direct;
      [f_equal; lia | done | lia | lia | by left | lia]. }
  split.
  - by rewrite HI', Hodo.
  - intros m. rewrite HO', HO.
    destruct (decide (m ∈ names)); simpl; [|done]. f_equal.
    rewrite <- Hodo.
    rewrite (odometer_offset sh (block_step p) (direct_indices sh pos)).
    + unfold strides_from. rewrite <- Hl1. lia.
    + lia.
    + by rewrite direct_indices_length.
    + by rewrite length_map, length_seq.
Qed.

Lemma iterate_represents start k :
  0 <= start -> 0 <= numthreads p ->
  start + Z.of_nat k * numthreads p < prod sh ->
  exists st,
    run_odometer src start k = Some st
    /\ represents defs names sh (start + Z.of_nat k * numthreads p) st.
Proof.
  intros Hs Ht. unfold run_odometer.
  destruct (run_calc_represents start Hs) as (st0 & -> & H0).
  cbn [mbind option_bind]. fold defs.
  induction k as [|k IH]; intros Hlt.
  - exists st0. split; [done|]. by rewrite Z.add_0_r.
  - assert (Hk : 0 <= Z.of_nat k * numthreads p)
      by (apply Z.mul_nonneg_nonneg; lia).
    assert (HS : Z.of_nat (S k) * numthreads p
                 = Z.of_nat k * numthreads p + numthreads p)
      by (rewrite Nat2Z.inj_succ; lia).
    rewrite HS in Hlt |- *.
    destruct IH as (st & Hrun & Hrep); [lia|].
    cbn [iterate]. rewrite Hrun. cbn [mbind option_bind].
    destruct (inc_represents (start + Z.of_nat k * numthreads p) st
                ltac:(lia) Ht ltac:(lia) Hrep)
      as (st' & Hrun' & Hrep').
    exists st'. split; [done|]. by rewrite Z.add_assoc.
Qed.
End Agreement.

Lemma traversal_shape_pos precalc shape :
  sig_shape precalc = Some shape -> Forall (fun n => 0 < n) shape ->
  Forall (fun n => 0 < n) (traversal_shape precalc)
  /\ prod (traversal_shape precalc) = prod shape.
Proof.
  intros Hs Hpos. unfold traversal_shape. rewrite Hs. simpl.
  destruct (default false (sig_do_reverse precalc)); [|done].
  split; [by apply Forall_reverse | apply prod_reverse].
Qed.

(** Everything the agreement lemmas need, from a successful slow-path
    [create_source]. *)
Lemma slow_source_facts self precalc grid block src :
  create_source self precalc grid block = Ok (SourceDeferred src) ->
  exists names p dbg b0 g0,
    make_plan names precalc grid block = Ok p
    /\ emit self p = Ok src
    /\ block !! 0%nat = Some b0 /\ grid !! 0%nat = Some g0
    /\ numthreads p = b0 * g0
    /\ plan_shape p = traversal_shape precalc
    /\ block_step p = calc_block_step (plan_shape p) (numthreads p)
    /\ src_decls src = emit_decls (_do_indices self) p
    /\ src_loop_inds_calc src
       = emit_loop_inds_calc (ndim p) (arrayindnames (plan_names p)) ++ dbg
    /\ Forall is_debug dbg
    /\ loop_inds_inc (src_loop_body src)
       = emit_loop_inds_inc (ndim p) (arrayindnames (plan_names p))
    /\ env_ok (macro_value (src_defines src)) (arrayindnames (plan_names p))
              (ndim p) (plan_shape p) (block_step p)
              (ELEMSTRIDE (src_defines src)).
Proof.
  intros H.
  destruct (create_source_deferred _ _ _ _ _ H) as (names & p & _ & Hp & He).
  destruct (make_plan_Ok _ _ _ _ _ Hp)
    as (b0 & g0 & Hb & Hg & Hn & Hsh & Hnd & Hbs & Hok).
  destruct (emit_Ok _ _ _ He) as (dbg & Hdefs & Hdecls & Hcalc & Hdbg & Hinc).
  exists names, p, dbg, b0, g0. repeat split; try done.
  all: apply (emit_defines_env _ _ _ Hnd
                ltac:(rewrite Hbs; apply calc_block_step_length) Hok Hdefs).
Qed.


(** ** Block step *)

(** C5.  In every slow-path source, the value of [BLOCK_STEP_d] -- the
    block step of the plan in dimension [d] -- is the thread count
    [block[0] * grid[0]], divided (rounding down) by the product of the
    sizes of the dimensions before [d] in traversal order, modulo the size
    of dimension [d]. *)
Theorem block_step_is_mixed_radix
    self precalc grid block src shape b g d s :
  create_source self precalc grid block = Ok (SourceDeferred src) ->
  sig_shape precalc = Some shape ->
  Forall (fun n => 0 < n) shape ->
  block !! 0%nat = Some b -> grid !! 0%nat = Some g ->
  traversal_shape precalc !! d = Some s ->
  calc_block_step (traversal_shape precalc) (b * g) !! d
  = Some (((b * g) / prod (take d (traversal_shape precalc))) mod s)
  /\ macro_value (src_defines src) (DimMacro "BLOCK_STEP" d)
     = Some (((b * g) / prod (take d (traversal_shape precalc))) mod s).
Proof.
  intros Hsrc Hshape Hpos Hb Hg Hd.
  destruct (slow_source_facts _ _ _ _ _ Hsrc)
    as (names & p & dbg & b0 & g0 & Hp & He & Hb0 & Hg0 & Hn & Hsh & Hbs
        & Hdecls & Hcalc & Hdbg & Hinc & Henv).
  assert (b0 = b) as -> by congruence. assert (g0 = g) as -> by congruence.
  destruct (traversal_shape_pos _ _ Hshape Hpos) as [Hpos' _].
  assert (Hstep : calc_block_step (traversal_shape precalc) (b * g) !! d
          = Some (((b * g) / prod (take d (traversal_shape precalc))) mod s)).
  { rewrite calc_block_step_direct by done.
    by apply direct_indices_lookup. }
  split; [done|].
  apply (env_BLOCK_STEP _ _ _ _ _ _ Henv). by rewrite Hbs, Hsh, Hn.
Qed.

(** Every block step lies below the size of its dimension. *)
Lemma block_step_bounds shape t d b :
  Forall (fun n => 0 < n) shape ->
  calc_block_step shape t !! d = Some b ->
  exists s, shape !! d = Some s /\ 0 <= b < s.
Proof.
  intros Hpos. rewrite calc_block_step_direct by done.
  by apply direct_indices_bounds.
Qed.

(** One round of the update on index lists: below the last dimension every
    index is back in range after its single conditional subtraction; the
    last index has grown by its block step and the incoming carry. *)
Lemma odometer_bounds shape : forall bs idx,
  length bs = length shape -> length idx = length shape ->
  (forall d s b, shape !! d = Some s -> bs !! d = Some b -> 0 <= b < s) ->
  (forall s i, shape !! 0%nat = Some s -> idx !! 0%nat = Some i ->
               0 <= i <= s) ->
  (forall d s i, shape !! S d = Some s -> idx !! S d = Some i ->
                 0 <= i < s) ->
  forall d s b i x,
    shape !! d = Some s -> bs !! d = Some b -> idx !! d = Some i ->
    odometer shape bs idx !! d = Some x ->
    ((S d < length shape)%nat -> 0 <= x < s)
    /\ (S d = length shape ->
        i + b <= x <= i + b + 1 /\ (d = 0%nat -> x = i + b)).
Proof.
  induction shape as [|s0 shape IH]; intros bs idx Hlb Hli Hbs H0 HS
    d s b i x Hs Hb Hi Hx; [done|].
  destruct bs as [|b0 bs], idx as [|i0 idx]; try done.
  simpl in Hlb, Hli.
  pose proof (Hbs 0%nat s0 b0 eq_refl eq_refl) as Hb0.
  pose proof (H0 s0 i0 eq_refl eq_refl) as Hi0.
  cbn [odometer] in Hx.
  destruct idx as [|j idx].
  - destruct shape; [|done]. destruct d; [|done].
    simpl in *. injection Hs as <-. injection Hb as <-. injection Hi as <-.
    injection Hx as <-. split; lia.
  - destruct shape as [|s1 shape]; [done|]. destruct bs as [|b1 bs]; [done|].
    pose proof (HS 0%nat s1 j eq_refl eq_refl) as Hj.
    destruct (decide (s0 <= i0 + b0)) as [Hge|Hlt].
    + destruct d as [|d].
      * simpl in *. injection Hs as <-. injection Hb as <-.
        injection Hi as <-. injection Hx as <-. split; lia.
      * simpl in Hs, Hb, Hi, Hx.
        destruct d as [|d].
        -- simpl in Hi. injection Hi as <-.
           destruct (IH (b1 :: bs) (j + 1 :: idx)) with (d := 0%nat) (s := s)
             (b := b) (i := j + 1) (x := x) as [IH1 IH2]; try done.
           ++ simpl in *; lia.
           ++ simpl in *; lia.
           ++ intros d' s' b' Hs' Hb'. apply (Hbs (S d') s' b'); done.
           ++ intros s' i' Hs' [= <-]. simpl in Hs'. injection Hs' as <-. lia.
           ++ intros d' s' i' Hs' Hi'. apply (HS (S d') s' i'); done.
           ++ split; [intros; apply IH1; simpl in *; lia|].
              intros Hlen. destruct IH2 as [IH2 IH3]; [simpl in *; lia|].
              specialize (IH3 eq_refl). split; [lia | done].
        -- destruct (IH (b1 :: bs) (j + 1 :: idx)) with (d := S d) (s := s)
             (b := b) (i := i) (x := x) as [IH1 IH2]; try done.
           ++ simpl in *; lia.
           ++ simpl in *; lia.
           ++ intros d' s' b' Hs' Hb'. apply (Hbs (S d') s' b'); done.
           ++ intros s' i' Hs' [= <-]. simpl in Hs'. injection Hs' as <-. lia.
           ++ intros d' s' i' Hs' Hi'. apply (HS (S d') s' i'); done.
           ++ split; [intros; apply IH1; simpl in *; lia|].
              intros Hlen. destruct IH2 as [IH2 _]; [simpl in *; lia|].
              split; [lia | done].
    + destruct d as [|d].
      * simpl in *. injection Hs as <-. injection Hb as <-.
        injection Hi as <-. injection Hx as <-. split; lia.
      * simpl in Hs, Hb, Hi, Hx.
        destruct (IH (b1 :: bs) (j :: idx)) with (d := d) (s := s)
          (b := b) (i := i) (x := x) as [IH1 IH2]; try done.
        -- simpl in *; lia.
        -- simpl in *; lia.
        -- intros d' s' b' Hs' Hb'. apply (Hbs (S d') s' b'); done.
        -- intros s' i' Hs' [= <-]. simpl in Hs'. injection Hs' as <-. lia.
        -- intros d' s' i' Hs' Hi'. apply (HS (S d') s' i'); done.
        -- split; [intros; apply IH1; simpl in *; lia|].
           intros Hlen. destruct IH2 as [IH2 IH3]; [simpl in *; lia|].
           split; [|done]. destruct d; [rewrite IH3 by done|]; lia.
Qed.

Lemma odometer_length shape : forall bs idx,
  length bs = length shape -> length idx = length shape ->
  length (odometer shape bs idx) = length shape.
Proof.
  induction shape as [|s shape IH]; intros bs idx Hlb Hlx.
  - by destruct bs, idx.
  - destruct bs as [|b0 bs], idx as [|i idx]; try done.
    simpl in Hlb, Hlx. cbn [odometer].
    destruct idx as [|j idx]; [by destruct shape|].
    destruct (decide (s <= i + b0)); simpl; f_equal; apply IH;
      simpl in *; lia.
Qed.

Lemma emit_decls_names do_indices p n :
  DeclArrayIndex n ∈ emit_decls do_indices p ->
  n ∈ arrayindnames (plan_names p).
Proof.
  unfold emit_decls. intros H.
  apply elem_of_app in H as [H|H].
  { apply list_elem_of_singleton in H. done. }
  apply elem_of_app in H as [H|H].
  - apply list_elem_of_fmap in H as (m & [= ->] & Hm). done.
  - destruct do_indices.
    + apply list_elem_of_singleton in H. done.
    + apply list_elem_of_fmap in H as (m & [=] & _).
Qed.

Lemma names_emit_decls do_indices p n :
  n ∈ arrayindnames (plan_names p) ->
  DeclArrayIndex n ∈ emit_decls do_indices p.
Proof.
  intros H. unfold emit_decls. apply elem_of_app. right.
  apply elem_of_app. left. apply list_elem_of_fmap. by exists n.
Qed.

(** C10, as amended.  In every slow-path source over a shape of positive
    sizes, (a) every block step is non-negative and below the size of its
    dimension; (b) from any state whose indices are in range, one round of
    the emitted update runs, leaves every index but that of the last
    dimension in [0, shape[d]) again, and has raised the last index, which
    has no carry step, by at most the size of its dimension; and (c) along
    the run of a thread the last index is in range as well, as long as the
    position stays within the extent of the shape. *)
Theorem single_carry_restores_all_but_last_index
    self precalc grid block src shape b g :
  create_source self precalc grid block = Ok (SourceDeferred src) ->
  sig_shape precalc = Some shape ->
  Forall (fun n => 0 < n) shape ->
  block !! 0%nat = Some b -> grid !! 0%nat = Some g ->
  let sh := traversal_shape precalc in
  (forall d s, sh !! d = Some s ->
     exists bs, calc_block_step sh (b * g) !! d = Some bs
                /\ macro_value (src_defines src) (DimMacro "BLOCK_STEP" d)
                   = Some bs
                /\ 0 <= bs < s)
  /\ (forall st idx,
        INDEX st = map_seq 0 idx ->
        Forall2 (fun s i => 0 <= i < s) sh idx ->
        (forall n, DeclArrayIndex n ∈ src_decls src ->
                   is_Some (offsets st !! n)) ->
        exists st' idx',
          exec_stmts (macro_value (src_defines src)) st
                     (loop_inds_inc (src_loop_body src)) = Some st'
          /\ INDEX st' = map_seq 0 idx'
          /\ length idx' = length sh
          /\ forall d s i x,
               sh !! d = Some s -> idx !! d = Some i -> idx' !! d = Some x ->
               ((S d < length sh)%nat -> 0 <= x < s)
               /\ (S d = length sh -> i <= x <= i + s))
  /\ (forall start k,
        0 <= b * g -> 0 <= start ->
        start + Z.of_nat k * (b * g) < prod shape ->
        exists st,
          run_odometer src start k = Some st
          /\ forall d s, sh !! d = Some s ->
               exists x, INDEX st !! d = Some x /\ 0 <= x < s).
Proof.
  intros Hsrc Hshape Hpos Hb Hg sh.
  destruct (slow_source_facts _ _ _ _ _ Hsrc)
    as (names & p & dbg & b0 & g0 & Hp & He & Hb0 & Hg0 & Hn & Hsh & Hbs
        & Hdecls & Hcalc & Hdbg & Hinc & Henv).
  assert (b0 = b) as -> by congruence. assert (g0 = g) as -> by congruence.
  destruct (traversal_shape_pos _ _ Hshape Hpos) as [Hpos' Hprod].
  fold sh in Hpos', Hprod, Hsh. rewrite Hsh, Hn in Hbs.
  rewrite Hsh in Henv.
  assert (Hsteps : forall d s bs, sh !! d = Some s ->
            block_step p !! d = Some bs -> 0 <= bs < s).
  { intros d s bs Hs Hd. rewrite Hbs in Hd.
    destruct (block_step_bounds _ _ _ _ Hpos' Hd) as (s' & Hs' & Hr).
    congruence. }
  pose proof (env_shape_length _ _ _ _ _ _ Henv) as Hl1.
  pose proof (env_bs_length _ _ _ _ _ _ Henv) as Hl2.
  split; [|split].
  - intros d s Hs.
    destruct (lookup_lt_is_Some_2 (block_step p) d) as [bs Hd].
    { apply lookup_lt_Some in Hs. lia. }
    exists bs. split; [by rewrite <- Hbs|].
    split; [by apply (env_BLOCK_STEP _ _ _ _ _ _ Henv)|]. by eapply Hsteps.
  - intros st idx HI Hidx Hdom.
    assert (Hli : length idx = ndim p).
    { apply Forall2_length in Hidx. lia. }
    destruct (exec_loop_inds_inc _ _ _ _ _ _ Henv idx st Hli HI)
      as (st' & Hrun & HI' & _).
    { intros n Hn'. apply Hdom. rewrite Hdecls. by apply names_emit_decls. }
    exists st', (odometer sh (block_step p) idx).
    rewrite Hinc. split; [done|]. split; [done|].
    assert (Hlo : length (odometer sh (block_step p) idx) = length sh).
    { apply odometer_length; lia. }
    split; [done|].
    intros d s i x Hs Hi Hx.
    destruct (lookup_lt_is_Some_2 (block_step p) d) as [bs Hd].
    { apply lookup_lt_Some in Hs. lia. }
    pose proof (Hsteps d s bs Hs Hd) as Hbd.
    assert (Hhead : forall s0 i0, sh !! 0%nat = Some s0 ->
              idx !! 0%nat = Some i0 -> 0 <= i0 <= s0).
    { intros s0 i0 Hs0 Hi0.
      pose proof (Forall2_lookup_lr _ _ _ _ _ _ Hidx Hs0 Hi0). simpl in *. lia. }
    assert (Htail : forall d' s0 i0, sh !! S d' = Some s0 ->
              idx !! S d' = Some i0 -> 0 <= i0 < s0).
    { intros d' s0 i0 Hs0 Hi0.
      apply (Forall2_lookup_lr _ _ _ _ _ _ Hidx Hs0 Hi0). }
    destruct (odometer_bounds sh (block_step p) idx ltac:(lia) ltac:(lia)
                Hsteps Hhead Htail d s bs i x Hs Hd Hi Hx) as [H1 H2].
    split; [done|]. intros Hlast. destruct (H2 Hlast) as [H3 _]. lia.
  - intros start k Ht Hs Hlt.
    rewrite <- Hsh in Henv, Hpos'. rewrite <- Hn in Ht, Hlt.
    destruct (iterate_represents src (_do_indices self) p dbg Hdecls Hcalc Hdbg
                Hinc Henv Hpos' ltac:(by rewrite Hsh, Hn) start k Hs Ht)
      as (st & Hrun & HI & _); [by rewrite Hsh, Hprod|].
    exists st. split; [done|]. intros d s Hd.
    rewrite HI, lookup_map_seq_0. rewrite Hsh in Hpos' |- *.
    rewrite (direct_indices_lookup _ _ _ _ Hpos' Hd).
    eexists. split; [done|]. apply Z.mod_pos_bound.
    by eapply Forall_lookup_1 in Hpos'.
Qed.

(** ** The constructor *)

Lemma getitem_Raise {A} (l : list A) i e :
  getitem l i = Raise e -> e = IndexError.
Proof. unfold getitem. destruct (l !! i); [done | by intros [= <-]]. Qed.

Lemma for_each_getitem_Raise {A} (l : list A) inds e :
  for_each (getitem l) inds = Raise e -> e = IndexError.
Proof.
  induction inds as [|i inds IH]; [done|]. simpl.
  destruct (getitem l i) as [a|e'] eqn:E; simpl.
  - destruct (for_each (getitem l) inds) as [|e'']; simpl; [done|].
    intros [= <-]. by apply IH.
  - intros [= <-]. by apply getitem_Raise in E.
Qed.

(** C9.  Whatever the [order] text, the [assert] of the constructor passes:
    it tests a two-element tuple.  The constructor never raises
    AssertionError, and its outcome for any [order] is its outcome for
    ['K'] with [_order] set to the given text: no value of [order] is
    rejected. *)
Theorem order_assert_is_degenerate
    py_repr arguments operation name_ preamble loop_prep after_loop
    do_range shape_arg_index array_arg_inds do_indices order debug :
  py_assert (PyTuple [PyBool (str_in order "CFK"); PyStr order_message])
  = Ok tt
  /\ __init__ py_repr arguments operation name_ preamble loop_prep
       after_loop do_range shape_arg_index array_arg_inds do_indices order
       debug
     <> Raise AssertionError
  /\ __init__ py_repr arguments operation name_ preamble loop_prep
       after_loop do_range shape_arg_index array_arg_inds do_indices order
       debug
     = with_order order
         <$> __init__ py_repr arguments operation name_ preamble loop_prep
               after_loop do_range shape_arg_index array_arg_inds do_indices
               "K" debug.
Proof.
  split; [done|]. unfold __init__.
  change (py_assert (PyTuple [PyBool (str_in order "CFK");
                              PyStr order_message])) with (Ok tt).
  change (py_assert (PyTuple [PyBool (str_in "K" "CFK");
                              PyStr order_message])) with (Ok tt).
  cbn [mbind result_bind].
  set (inds := match array_arg_inds with
               | Some inds => inds
               | None => _
               end).
  destruct shape_arg_index as [i|].
  - cbn [mbind result_bind].
    destruct (for_each (getitem (map name arguments)) inds) as [ns|e] eqn:E;
      cbn [mbind result_bind fmap result_fmap]; [done|].
    split; [|done]. intros [= ->]. by apply for_each_getitem_Raise in E.
  - destruct (getitem inds 0) as [i|e] eqn:Ei; cbn [mbind result_bind].
    + destruct (for_each (getitem (map name arguments)) inds) as [ns|e] eqn:E;
        cbn [mbind result_bind fmap result_fmap]; [done|].
      split; [|done]. intros [= ->]. by apply for_each_getitem_Raise in E.
    + cbn [fmap result_fmap]. split; [|done]. intros [= ->].
      by apply getitem_Raise in Ei.
Qed.

(** The check as it was meant, [assert order in 'CFK', ...], would reject
    an order outside the three policies. *)
Example intended_order_check_rejects :
  py_assert (PyBool (str_in "X" "CFK")) = Raise AssertionError
  /\ exists m, __init__ simple_repr add_arguments add_operation "add" "" ""
                 "" false None None false "X" false = Ok m
               /\ _order m = "X"%string.
Proof. split; [done|]. eexists. split; [reflexivity | done]. Qed.

(** ** The cache key *)

Lemma init_args_repr_is_repr
    py_repr arguments operation name_ preamble loop_prep after_loop
    do_range shape_arg_index array_arg_inds do_indices order debug self :
  __init__ py_repr arguments operation name_ preamble loop_prep after_loop
    do_range shape_arg_index array_arg_inds do_indices order debug = Ok self ->
  _init_args_repr self = py_repr (_init_args self)
  /\ _do_indices self = do_indices.
Proof.
  unfold __init__. intros H.
  apply bind_Ok in H as (_ & _ & H). apply bind_Ok in H as (i & _ & H).
  apply bind_Ok in H as (ns & _ & H). injection H as <-. done.
Qed.

(** C2.  A call whose layout report has the contiguity-match flag set, or
    array-relative indexing unusable, on an instance built without
    per-dimension indices, gets as key the repr of the template's
    construction arguments and nothing else; two such calls get the same
    key, whatever their arrays, grid and block. *)
Theorem fast_path_key_is_template_identity
    drv py_repr arguments operation name_ preamble loop_prep after_loop
    do_range shape_arg_index array_arg_inds order debug self
    grid1 block1 args1 args1' info1 grid2 block2 args2 args2' info2 :
  __init__ py_repr arguments operation name_ preamble loop_prep after_loop
    do_range shape_arg_index array_arg_inds false order debug = Ok self ->
  drv args1 (_array_arg_inds self) (_shape_arg_index self)
  = Ok (args1', info1) ->
  contigmatch info1 || negb (arrayspecificinds info1) = true ->
  drv args2 (_array_arg_inds self) (_shape_arg_index self)
  = Ok (args2', info2) ->
  contigmatch info2 || negb (arrayspecificinds info2) = true ->
  fst <$> create_key drv self grid1 block1 args1
  = Ok (KeyStr (py_repr (_init_args self)))
  /\ fst <$> create_key drv self grid2 block2 args2
     = fst <$> create_key drv self grid1 block1 args1.
Proof.
  intros Hinit H1 Hf1 H2 Hf2.
  destruct (init_args_repr_is_repr _ _ _ _ _ _ _ _ _ _ _ _ _ _ Hinit)
    as [Hrepr Hdi].
  unfold create_key. rewrite H1, H2. cbn [mbind result_bind].
  rewrite Hf1, Hf2, Hdi, Hrepr. done.
Qed.

(** On the slow path a grid or block with a second component other than
    one, or a block with a third component other than one, is refused. *)
Lemma slow_path_geometry_checked drv self grid block args args' info :
  drv args (_array_arg_inds self) (_shape_arg_index self) = Ok (args', info) ->
  (contigmatch info || negb (arrayspecificinds info))
    && negb (_do_indices self) = false ->
  (exists g1, grid !! 1%nat = Some g1 /\ g1 <> 1)
  \/ (grid !! 1%nat = Some 1
      /\ ((exists b1, block !! 1%nat = Some b1 /\ b1 <> 1)
          \/ (block !! 1%nat = Some 1
              /\ exists b2, block !! 2%nat = Some b2 /\ b2 <> 1))) ->
  create_key drv self grid block args = Raise (InvalidGeometry grid block).
Proof.
  intros Hdrv Hslow Hgeo. unfold create_key. rewrite Hdrv.
  cbn [mbind result_bind]. rewrite Hslow. unfold getitem, require_unit.
  destruct Hgeo as [(g1 & -> & Hg1)|[-> [(b1 & -> & Hb1)|[-> (b2 & -> & Hb2)]]]];
    cbn [mbind result_bind].
  - by rewrite decide_True.
  - rewrite (decide_False (P := 1 <> 1)) by (intros H; by apply H). cbn [mbind result_bind]. by rewrite decide_True.
  - rewrite !(decide_False (P := 1 <> 1)) by (intros H; by apply H).
    cbn [mbind result_bind]. by rewrite decide_True.
Qed.

(** C7: a grid of (2, 2, 1) is refused on the slow path, but a grid whose
    third component is 2 is accepted: [create_key] returns a key. *)
Theorem grid_third_component_is_not_checked :
  create_key py_precalc_array_info add_module [2; 2; 1] [32; 1; 1] mixed_args
  = Raise (InvalidGeometry [2; 2; 1] [32; 1; 1])
  /\ exists k,
       create_key py_precalc_array_info add_module [2; 1; 2] [32; 1; 1]
                  mixed_args = Ok (KeyTuple k, k)
       /\ sig_contigmatch k = false
       /\ sig_grid k = Some [2; 1; 2].
Proof. split; [reflexivity|]. eexists. split; [reflexivity|]. done. Qed.

(** ** Source emission as a function of the key *)

Lemma create_key_Ok drv self grid block args k p :
  create_key drv self grid block args = Ok (k, p) ->
  sig_arrayitemstrides p = None
  \/ (sig_grid p = Some grid /\ sig_block p = Some block).
Proof.
  unfold create_key. intros H.
  apply bind_Ok in H as ([args' info] & _ & H).
  destruct ((contigmatch info || negb (arrayspecificinds info))
            && negb (_do_indices self)).
  - injection H as <- <-. by left.
  - apply bind_Ok in H as (g1 & _ & H). apply bind_Ok in H as (_ & _ & H).
    apply bind_Ok in H as (b1 & _ & H). apply bind_Ok in H as (_ & _ & H).
    apply bind_Ok in H as (b2 & _ & H). apply bind_Ok in H as (_ & _ & H).
    apply bind_Ok in H as (nd & _ & H). apply bind_Ok in H as (rev & _ & H).
    injection H as <- <-. by right.
Qed.

Lemma make_plan_without_strides names p grid block :
  sig_arrayitemstrides p = None ->
  make_plan names p grid block = Raise TypeError.
Proof. unfold make_plan. by intros ->. Qed.

Lemma emit_same_template self1 self2 p :
  same_template self1 self2 -> emit self1 p = emit self2 p.
Proof.
  intros (Hia & _ & Hr & Hi & Hd). unfold emit. by rewrite Hia, Hr, Hi, Hd.
Qed.

(** C3, as amended.  Two calls whose [create_key] results are equal, on the
    same instance or on instances that agree on the template texts, the
    array argument indices and the [do_range], [do_indices] and [debug]
    settings, get the same outcome from [create_source]: the same text on
    the fast path, the same deferred source on the slow path (or the same
    exception). *)
Theorem source_is_determined_by_key_and_template
    drv1 drv2 self1 self2 grid1 block1 args1 grid2 block2 args2
    k1 p1 k2 p2 :
  same_template self1 self2 ->
  create_key drv1 self1 grid1 block1 args1 = Ok (k1, p1) ->
  create_key drv2 self2 grid2 block2 args2 = Ok (k2, p2) ->
  (k1, p1) = (k2, p2) ->
  create_source self1 p1 grid1 block1 = create_source self2 p2 grid2 block2.
Proof.
  intros Hsame H1 H2 [= <- <-].
  pose proof Hsame as (Hia & Hinds & Hr & Hi & Hd).
  unfold create_source. rewrite Hia, Hinds, Hi.
  destruct (for_each _ _) as [names|e]; cbn [mbind result_bind]; [|done].
  destruct (sig_contigmatch p1 && negb (_do_indices self2)).
  - unfold create_source_fast. by rewrite Hia, Hr.
  - apply create_key_Ok in H1, H2.
    destruct H1 as [H1|[Hg1 Hb1]].
    + by rewrite !make_plan_without_strides.
    + destruct H2 as [H2|[Hg2 Hb2]].
      * by rewrite !make_plan_without_strides.
      * replace grid2 with grid1 by congruence.
        replace block2 with block1 by congruence.
        destruct (make_plan names p1 grid1 block1) as [p|e];
          cbn [mbind result_bind]; [|done].
        by rewrite (emit_same_template _ _ _ Hsame).
Qed.

(** C3 as stated fails across instances: the bounded and the range variant
    of one template get the same key and precalc value for the same
    contiguous arrays, and different source text. *)
Lemma equal_keys_different_sources :
  exists k precalc,
    create_key py_precalc_array_info add_module [2; 1] [3; 1; 1]
               contiguous_args = Ok (k, precalc)
    /\ create_key py_precalc_array_info add_range_module [2; 1] [3; 1; 1]
                  contiguous_args = Ok (k, precalc)
    /\ create_source add_module precalc [2; 1] [3; 1; 1]
       <> create_source add_range_module precalc [2; 1] [3; 1; 1].
Proof.
  eexists _, _. split; [reflexivity|]. split; [reflexivity|].
  intros H. vm_compute in H. discriminate H.
Qed.

(** ** Layout classification *)

Lemma for_loop_app {A S} (body : S -> A -> result S) s l1 l2 :
  for_loop body s (l1 ++ l2)
  = for_loop body s l1 ≫= fun s' => for_loop body s' l2.
Proof.
  revert s. induction l1 as [|x l1 IH]; intros s; simpl; [done|].
  destruct (body s x); simpl; [apply IH | done].
Qed.

Lemma for_loop_total {A S} (body : S -> A -> result S) (P : S -> Prop) l s0 :
  P s0 ->
  (forall s x, P s -> x ∈ l -> exists s', body s x = Ok s' /\ P s') ->
  exists s, for_loop body s0 l = Ok s /\ P s.
Proof.
  revert s0. induction l as [|x l IH]; intros s0 H0 Hstep; simpl.
  - by exists s0.
  - destruct (Hstep s0 x H0) as (s1 & -> & H1); [by left|]. simpl.
    apply IH; [done|]. intros s y Hs Hy. apply Hstep; [done | by right].
Qed.

Lemma for_each_raises {A B} (f : A -> result B) l x :
  x ∈ l -> raises (f x) -> raises (for_each f l).
Proof.
  intros Hx [e He]. induction l as [|y l IH]; [by apply elem_of_nil in Hx|].
  simpl. destruct (f y) as [b|e'] eqn:Ey; simpl; [|by exists e'].
  apply elem_of_cons in Hx as [->|Hx]; [congruence|].
  destruct (IH Hx) as [e'' ->]. by exists e''.
Qed.

(** Arguments without layout attributes stay in place during the loop. *)
Lemma precalc_body_keeps_opaque sidx st i st' :
  precalc_body sidx st i = Ok st' ->
  forall j a, lacks_layout a -> pa_args st !! j = Some a ->
              pa_args st' !! j = Some a.
Proof.
  unfold precalc_body. intros H j a Ha Hj.
  apply bind_Ok in H as (arg & Harg & H). apply getitem_Ok in Harg.
  destruct (negb (pa_arrayspecificinds st)); [by injection H as <-|].
  destruct arg as [g| |v]; try (by injection H as <-).
  apply bind_Ok in H as (ns & _ & H).
  destruct (if pa_contigmatch st then _ else _) as [[cm sh] ord].
  destruct (decide _); [done|]. injection H as <-. simpl.
  rewrite list_lookup_insert_ne; [done|]. intros ->.
  rewrite Harg in Hj. injection Hj as <-. done.
Qed.

(** The loop does what its comment says: after an argument without layout
    attributes, array-specific indices are off. *)
Lemma precalc_body_disables sidx st i st' a :
  precalc_body sidx st i = Ok st' ->
  pa_args st !! i = Some a ->
  lacks_layout a \/ pa_arrayspecificinds st = false ->
  pa_arrayspecificinds st' = false /\ (pa_arrayspecificinds st = false -> st' = st).
Proof.
  unfold precalc_body. intros H Hi Hor. unfold getitem in H. rewrite Hi in H.
  cbn [mbind result_bind] in H.
  destruct (pa_arrayspecificinds st) eqn:E; simpl in H.
  - destruct Hor as [Ha|?]; [|done].
    destruct a; [done| |]; by injection H as <-.
  - by injection H as <-.
Qed.

(** C8, which the code does not meet.  Whenever one of the array
    arguments lacks layout attributes, [_precalc_array_info] raises: if the
    loop gets through, building [arrayitemstrides] reads [itemsize] and
    [strides] of every array argument, also of the one that has none. *)
Theorem missing_layout_metadata_raises inds args sidx i a :
  i ∈ inds -> args !! i = Some a -> lacks_layout a ->
  raises (_precalc_array_info inds args sidx).
Proof.
  intros Hi Ha Hl. unfold _precalc_array_info.
  destruct (for_loop _ _ inds) as [st|e] eqn:Hloop;
    cbn [mbind result_bind]; [|by exists e].
  assert (Hst : pa_args st !! i = Some a).
  { revert Hloop.
    apply (for_loop_invariant _ (fun st => pa_args st !! i = Some a));
      [done|].
    intros s x s' Hs _ Hbody.
    by eapply precalc_body_keeps_opaque. }
  destruct (for_each_raises
              (fun i => arg ← getitem (pa_args st) i;
                        isz ← attr_itemsize arg;
                        str ← attr_strides arg; Ok (isz, str))
              inds i Hi) as [e ->]; [|by exists e].
  unfold getitem. rewrite Hst. cbn [mbind result_bind].
  destruct a; [done| |]; by eexists.
Qed.

(** The failing input of C8: a single bare device pointer. *)
Example bare_pointer_raises :
  _precalc_array_info [0%nat] [DeviceAllocation] None
  = Raise (AttributeError "itemsize").
Proof. reflexivity. Qed.

Lemma loop_disables_array_indices sidx inds args st i a :
  for_loop (precalc_body sidx)
    {| pa_contigmatch := true; pa_arrayspecificinds := true;
       pa_shape := None; pa_order := None; pa_args := args |} inds = Ok st ->
  i ∈ inds -> args !! i = Some a -> lacks_layout a ->
  pa_arrayspecificinds st = false.
Proof.
  intros Hloop Hi Ha Hl.
  apply list_elem_of_split in Hi as (pre & post & ->).
  rewrite for_loop_app in Hloop.
  apply bind_Ok in Hloop as (st1 & Hpre & Hloop). simpl in Hloop.
  apply bind_Ok in Hloop as (st2 & Hbody & Hpost).
  assert (H1 : pa_args st1 !! i = Some a).
  { revert Hpre.
    apply (for_loop_invariant _ (fun st => pa_args st !! i = Some a));
      [done|].
    intros s x s' Hs _ Hb. by eapply precalc_body_keeps_opaque. }
  destruct (precalc_body_disables _ _ _ _ _ Hbody H1 (or_introl Hl))
    as [H2 _].
  revert Hpost.
  apply (for_loop_invariant _ (fun st => pa_arrayspecificinds st = false));
    [done|].
  intros s x s' Hs _ Hb. unfold precalc_body in Hb.
  apply bind_Ok in Hb as (arg & _ & Hb). rewrite Hs in Hb. simpl in Hb.
  by injection Hb as <-.
Qed.

Lemma normalized_strides_Ok curshape st :
  length st = length curshape ->
  exists ns, normalized_strides curshape st = Ok ns
             /\ length ns = length curshape.
Proof.
  intros Hl. unfold normalized_strides, np_mul.
  rewrite decide_True by (by rewrite length_map).
  eexists. split; [done|].
  rewrite length_zip_with, length_map. lia.
Qed.

(** One step of the loop on a well-formed array of the canonical shape,
    with no shape-defining argument designated. *)
Lemma precalc_body_same_shape st i a shape0 args :
  pa_arrayspecificinds st = true ->
  (pa_shape st = None /\ pa_contigmatch st = true
   \/ pa_shape st = Some shape0) ->
  same_shapes args (pa_args st) ->
  args !! i = Some (ArrayArg a) -> well_formed a -> shape a = shape0 ->
  exists st', precalc_body None st i = Ok st'
    /\ pa_arrayspecificinds st' = true
    /\ pa_shape st' = Some shape0
    /\ same_shapes args (pa_args st').
Proof.
  intros Hflag Hshape Hsame Hi Hwf Hs.
  destruct (Hsame i a Hi Hwf) as (a' & Hi' & Hs' & Hwf').
  unfold precalc_body, getitem. rewrite Hi'. cbn [mbind result_bind].
  rewrite Hflag. cbn [negb].
  destruct (normalized_strides_Ok (shape a') (strides a') Hwf')
    as (ns & -> & Hns).
  cbn [mbind result_bind].
  set (a2 := {| shape := shape a'; strides := ns; itemsize := itemsize a';
                f_contiguous := f_contiguous a';
                c_contiguous := c_contiguous a' |}).
  set (triple := if pa_contigmatch st then _ else _).
  assert (Htr : triple.1.2 = Some shape0).
  { subst triple. destruct Hshape as [[Hn Hc]|Hsome].
    - rewrite Hc, Hn. simpl. by rewrite <- Hs, <- Hs'.
    - rewrite Hsome. destruct (pa_contigmatch st); [|done].
      by destruct (decide _). }
  destruct triple as [[cm sh] ord]. simpl in Htr. subst sh.
  rewrite decide_False by (intros [_ H]; apply H; congruence).
  rewrite (decide_False (P := None = Some i)) by done.
  eexists. split; [done|]. simpl. repeat split; try done.
  intros j b Hj Hb. destruct (decide (i = j)) as [<-|Hne].
  - exists a2. rewrite list_lookup_insert_eq by (by eapply lookup_lt_Some).
    assert (b = a) as -> by congruence.
    split; [done|]. split; [done|]. unfold well_formed. simpl. done.
  - rewrite list_lookup_insert_ne by done. by apply Hsame.
Qed.

(** Any exception of the layout classifier leaves [create_key] at once:
    no key and no precalc value is returned. *)
Lemma create_key_propagates drv self grid block args e :
  drv args (_array_arg_inds self) (_shape_arg_index self) = Raise e ->
  create_key drv self grid block args = Raise e.
Proof. unfold create_key. by intros ->. Qed.

(** The check of line 134, when it is reached.  Called with
    [shape_arg_index] [None], if the array arguments up to some position
    are well-formed arrays of one shape and the array argument at that
    position is a well-formed array of another shape,
    [_precalc_array_info] raises the shape-mismatch exception with the two
    shapes; and an exception of the classifier that [create_key] calls
    propagates before a key or a precalc value exists. *)
Lemma shape_mismatch_raises pre j post args shape0 aj :
  pre <> [] ->
  (forall i, i ∈ pre ->
     exists a, args !! i = Some (ArrayArg a)
               /\ well_formed a /\ shape a = shape0) ->
  args !! j = Some (ArrayArg aj) -> well_formed aj ->
  shape aj <> shape0 ->
  _precalc_array_info (pre ++ j :: post) args None
  = Raise (ShapeMismatch (Some shape0) (shape aj))
  /\ forall drv self grid block e,
       drv args (_array_arg_inds self) (_shape_arg_index self) = Raise e ->
       create_key drv self grid block args = Raise e.
Proof.
  intros Hne Hpre Hj Hwf Hdiff. split; [|intros; by apply create_key_propagates].
  unfold _precalc_array_info. rewrite for_loop_app.
  set (P := fun st => pa_arrayspecificinds st = true
                      /\ (pa_shape st = None /\ pa_contigmatch st = true
                          \/ pa_shape st = Some shape0)
                      /\ same_shapes args (pa_args st)).
  set (Q := fun st => pa_arrayspecificinds st = true
                      /\ pa_shape st = Some shape0
                      /\ same_shapes args (pa_args st)).
  assert (Hstep : forall st i, P st -> i ∈ pre ->
            exists st', precalc_body None st i = Ok st' /\ Q st').
  { intros st i (Hf & Hs & Hsame) Hi.
    destruct (Hpre i Hi) as (a & Ha & Hwa & Hsa).
    by apply (precalc_body_same_shape st i a shape0 args). }
  destruct pre as [|i0 pre]; [done|]. cbn [for_loop].
  destruct (Hstep {| pa_contigmatch := true; pa_arrayspecificinds := true;
                     pa_shape := None; pa_order := None; pa_args := args |}
                  i0) as (st1 & -> & HQ1).
  { repeat split; try done. by left.
    intros i a Hi Hw. by exists a. }
  { by left. }
  cbn [mbind result_bind].
  destruct (for_loop_total (precalc_body None) Q pre st1 HQ1)
    as (st & -> & (Hf & Hs & Hsame)).
  { intros s x (Hf & Hs & Hsame) Hx. apply Hstep; [|by right].
    repeat split; try done. by right. }
  cbn [mbind result_bind for_loop].
  destruct (Hsame j aj Hj Hwf) as (a' & Hj' & Hs' & Hwf').
  assert (Hbody : precalc_body None st j
                  = Raise (ShapeMismatch (Some shape0) (shape aj))).
  { unfold precalc_body, getitem. rewrite Hj'.
    cbn [mbind result_bind]. rewrite Hf. cbn [negb].
    destruct (normalized_strides_Ok (shape a') (strides a') Hwf')
      as (ns & -> & Hns).
    cbn [mbind result_bind].
    set (triple := if pa_contigmatch st then _ else _).
    assert (Htr : triple.1.2 = Some shape0).
    { subst triple. rewrite Hs. destruct (pa_contigmatch st); [|done].
      by destruct (decide _). }
    destruct triple as [[cm sh] ord]. simpl in Htr. subst sh.
    rewrite decide_True by (split; [done | congruence]).
    by rewrite Hs'. }
  by rewrite Hbody.
Qed.

(** Also with [None], an argument without layout attributes that comes
    before the array of another shape hides the mismatch: the loop skips
    that array, and the exception is the AttributeError of C8. *)
Lemma shape_mismatch_hidden_by_pointer :
  _precalc_array_info [0; 1; 2]%nat
    [c_array_4x4; DeviceAllocation; c_array_4x3] None
  = Raise (AttributeError "itemsize")
  /\ ~ exists s c,
         _precalc_array_info [0; 1; 2]%nat
           [c_array_4x4; DeviceAllocation; c_array_4x3] None
         = Raise (ShapeMismatch s c).
Proof. split; [reflexivity|]. intros (s & c & H). discriminate H. Qed.

(** The example of the design document, in a direct call with [None]. *)
Example shapes_4x4_and_4x3 :
  _precalc_array_info [0; 1]%nat [c_array_4x4; c_array_4x3] None
  = Raise (ShapeMismatch (Some [4; 4]) [4; 3]).
Proof. reflexivity. Qed.

(** ** Stride deduplication *)

Lemma find_inforef_snoc es infos info :
  find_inforef es (infos ++ [info])
  = if decide (es = ai_elemstrides info) then Some (length infos)
    else find_inforef es infos.
Proof.
  unfold find_inforef. rewrite imap_app, foldl_app. simpl.
  by rewrite Nat.add_0_r.
Qed.

Lemma find_inforef_Some es infos r :
  find_inforef es infos = Some r ->
  exists info, infos !! r = Some info /\ ai_elemstrides info = es.
Proof.
  induction infos as [|info infos IH] using rev_ind; [done|].
  rewrite find_inforef_snoc. destruct (decide _) as [->|Hne].
  - intros [= <-]. exists info. split; [|done].
    by rewrite list_lookup_middle.
  - intros H. destruct (IH H) as (info' & Hr & He). exists info'.
    split; [|done]. rewrite lookup_app_l; [done|]. by eapply lookup_lt_Some.
Qed.

Lemma find_inforef_None es infos :
  find_inforef es infos = None <->
  forall info, info ∈ infos -> ai_elemstrides info <> es.
Proof.
  induction infos as [|info infos IH] using rev_ind.
  - split; [|done]. intros _ info H. by apply elem_of_nil in H.
  - rewrite find_inforef_snoc. destruct (decide _) as [->|Hne].
    + split; [done|]. intros H. exfalso. apply (H info); [|done].
      apply elem_of_app. right. by left.
    + rewrite IH. split.
      * intros H info' Hin. apply elem_of_app in Hin as [Hin|Hin].
        -- by apply H.
        -- apply list_elem_of_singleton in Hin as ->. congruence.
      * intros H info' Hin. apply H. apply elem_of_app. by left.
Qed.

Lemma dedup_inforef_lt st j info r :
  dedup_ok st -> arrayarginfos st !! j = Some info ->
  ai_inforef info = Some r -> (r < j)%nat.
Proof.
  intros Hok Hj Hr. rewrite (dedup_inforef _ Hok _ _ Hj) in Hr.
  apply find_inforef_Some in Hr as (info' & Hr & _).
  apply lookup_lt_Some in Hr. rewrite length_take in Hr. lia.
Qed.

Lemma arginfo_body_dedup nd do_reverse shape bs st a st' :
  dedup_ok st ->
  arginfo_body nd do_reverse shape bs st a = Ok st' ->
  dedup_ok st'
  /\ map ai_name (arrayarginfos st') = map ai_name (arrayarginfos st) ++ [a.1.1].
Proof.
  intros Hok H. destruct a as [[arg_name arg_itemsize] arg_strides].
  unfold arginfo_body in H.
  set (elemstrides := map _ _) in H.
  apply bind_Ok in H as (dimelemstrides & Hd & H).
  apply bind_Ok in H as (blockelemstrides & Hb & H).
  apply bind_Ok in H as ([indnames refnames] & Hn & H). injection H as <-.
  pose (info := {| ai_name := arg_name; ai_elemstrides := elemstrides;
                   ai_dimelemstrides := dimelemstrides;
                   ai_blockelemstrides := blockelemstrides;
                   ai_inforef := find_inforef elemstrides (arrayarginfos st) |}).
  split; [|simpl; by rewrite map_app]. split; simpl.
  - intros j i Hj. destruct (decide (j < length (arrayarginfos st))%nat).
    + rewrite lookup_app_l in Hj by done.
      rewrite take_app_le by lia. by apply (dedup_inforef _ Hok).
    + assert (j = length (arrayarginfos st)) as ->.
      { apply lookup_lt_Some in Hj. rewrite length_app in Hj. simpl in Hj. lia. }
      rewrite list_lookup_middle in Hj by done. injection Hj as <-.
      rewrite take_app_length. done.
  - rewrite filter_app, map_app. rewrite <- (dedup_indnames _ Hok).
    destruct (find_inforef elemstrides (arrayarginfos st)) as [r|] eqn:E.
    + apply bind_Ok in Hn as (i & _ & Hn). injection Hn as <- <-.
      rewrite filter_cons_False by (by simpl).
      by rewrite app_nil_r.
    + injection Hn as <- <-.
      rewrite filter_cons_True by (by simpl). done.
  - rewrite filter_app, map_app.
    change (arrayarginfos st ++ [_]) with (arrayarginfos st ++ [info]).
    assert (Hold : map (alias_of (arrayarginfos st ++ [info]))
                     (filter is_alias (arrayarginfos st))
                   = arrayrefnames st).
    { rewrite (dedup_refnames _ Hok). apply list_fmap_ext.
      intros k i Hk. apply list_elem_of_lookup_2 in Hk.
      apply list_elem_of_filter in Hk as [Hal Hin].
      apply list_elem_of_lookup_1 in Hin as [j Hj].
      unfold alias_of. f_equal. destruct (ai_inforef i) as [r|] eqn:Er; [|done].
      pose proof (dedup_inforef_lt _ _ _ _ Hok Hj Er).
      apply lookup_lt_Some in Hj. simpl.
      by rewrite lookup_app_l by lia. }
    rewrite Hold.
    destruct (find_inforef elemstrides (arrayarginfos st)) as [r|] eqn:E.
    + apply bind_Ok in Hn as (i & Hi & Hn). injection Hn as <- <-.
      apply getitem_Ok in Hi.
      rewrite filter_cons_True by (unfold is_alias; by simpl).
      simpl. unfold alias_of at 1. simpl.
      rewrite lookup_app_l by (by eapply lookup_lt_Some). by rewrite Hi.
    + injection Hn as <- <-.
      rewrite filter_cons_False by (unfold is_alias; simpl; tauto).
      by rewrite app_nil_r.
Qed.

Lemma for_loop_prefix_invariant {A S} (body : S -> A -> result S)
    (P : list A -> S -> Prop) l s0 s :
  P [] s0 ->
  (forall done x s s', P done s -> body s x = Ok s' -> P (done ++ [x]) s') ->
  for_loop body s0 l = Ok s -> P l s.
Proof.
  intros H0 Hstep.
  assert (H : forall done s1, P done s1 ->
            for_loop body s1 l = Ok s -> P (done ++ l) s).
  { induction l as [|x l IH]; intros done s1 H1 Hl; simpl in Hl.
    - injection Hl as <-. by rewrite app_nil_r.
    - apply bind_Ok in Hl as (s2 & Hs2 & Hl).
      rewrite (cons_middle x done l), app_assoc. apply (IH _ s2); [|done].
      by eapply Hstep. }
  apply (H [] s0 H0).
Qed.

Lemma NoDup_fst_zip {A B} (l : list A) (k : list B) :
  NoDup l -> NoDup (map fst (zip l k)).
Proof.
  intros H. revert k. induction H as [|x l Hx Hl IH]; intros k; [constructor|].
  destruct k as [|y k]; simpl; [constructor|]. constructor; [|apply IH].
  intros Hin. apply Hx. apply list_elem_of_fmap in Hin as ([a b] & -> & Hin).
  simpl. by apply elem_of_zip_l in Hin.
Qed.

Lemma make_plan_dedup names precalc grid block p :
  NoDup names ->
  make_plan names precalc grid block = Ok p ->
  dedup_ok (plan_names p)
  /\ NoDup (map ai_name (arrayarginfos (plan_names p))).
Proof.
  intros Hnd H. unfold make_plan in H.
  apply bind_Ok in H as (ais & _ & H).
  apply bind_Ok in H as (nd & _ & H).
  apply bind_Ok in H as (b0 & _ & H).
  apply bind_Ok in H as (g0 & _ & H).
  apply bind_Ok in H as (st & Hst & H). injection H as <-. simpl.
  revert Hst.
  set (P := fun (done : list (string * Z * list Z)) (st : plan_state) =>
              dedup_ok st
              /\ map ai_name (arrayarginfos st) = map (fun a => a.1.1) done).
  intros Hst.
  assert (HP : P (map (fun '(arg_name, itemstride) =>
                         (arg_name, itemstride.1, itemstride.2))
                      (zip names ais)) st).
  { eapply for_loop_prefix_invariant; [| |exact Hst].
    - split; [|done]. split; simpl; done.
    - intros done x s s' [Hok Hn] Hbody.
      destruct (arginfo_body_dedup _ _ _ _ _ _ _ Hok Hbody) as [Hok' Hn'].
      split; [done|]. by rewrite Hn', Hn, map_app. }
  destruct HP as [Hok Hn]. split; [done|]. rewrite Hn.
  rewrite map_map.
  erewrite map_ext; [apply (NoDup_fst_zip names ais Hnd)|].
  by intros [n [i s]].
Qed.

(** ** Alias defines *)

Lemma alias_target_app xs ys n :
  alias_target (xs ++ ys) n
  = match alias_target ys n with
    | Some r => Some r
    | None => alias_target xs n
    end.
Proof.
  induction xs as [|d xs IH]; simpl.
  - by destruct (alias_target ys n).
  - rewrite IH. destruct (alias_target ys n); [done|].
    by destruct (alias_target xs n).
Qed.

Lemma alias_target_no_aliases ds n : no_aliases ds -> alias_target ds n = None.
Proof.
  induction 1 as [|d ds Hd _ IH]; simpl; [done|].
  rewrite IH. destruct d as [| |a r|]; try done. by destruct (Hd a r).
Qed.

Lemma alias_target_alias_defines (l : list (string * string)) n :
  NoDup (map fst l) ->
  (forall r, (n, r) ∈ l ->
     alias_target (map (fun '(name, refname) => DefAlias name refname) l) n
     = Some r)
  /\ (n ∉ map fst l ->
      alias_target (map (fun '(name, refname) => DefAlias name refname) l) n
      = None).
Proof.
  induction l as [|[m t] l IH]; intros Hnd.
  - split; [|done]. intros r Hr. by apply elem_of_nil in Hr.
  - simpl in Hnd. apply NoDup_cons in Hnd as [Hm Hnd].
    destruct (IH Hnd) as [IH1 IH2]. split.
    + intros r Hr. simpl. apply elem_of_cons in Hr as [[= -> ->]|Hr].
      * rewrite IH2 by done. by rewrite decide_True.
      * by rewrite (IH1 r Hr).
    + intros Hn. simpl in Hn. apply not_elem_of_cons in Hn as [Hne Hn].
      simpl. rewrite (IH2 Hn). by rewrite decide_False.
Qed.

Lemma for_each_Forall {A B} (f : A -> result B) (Q : B -> Prop) l ys :
  (forall x y, f x = Ok y -> Q y) ->
  for_each f l = Ok ys -> Forall Q ys.
Proof.
  intros Hf. revert ys. induction l as [|x l IH]; intros ys H; simpl in H.
  - injection H as <-. constructor.
  - apply bind_Ok in H as (y & Hy & H). apply bind_Ok in H as (ys' & Hys & H).
    injection H as <-. constructor; [by eapply Hf | by apply IH].
Qed.

Lemma emit_one_no_aliases mk vals l ds :
  for_each (emit_one mk vals) l = Ok ds -> no_aliases ds.
Proof.
  apply for_each_Forall. intros x y H. unfold emit_one in H.
  apply bind_Ok in H as (v & _ & H). by injection H as <-.
Qed.

Lemma no_aliases_app xs ys : no_aliases xs -> no_aliases ys -> no_aliases (xs ++ ys).
Proof. intros. by apply Forall_app. Qed.

Lemma emit_info_defines_no_aliases nd info ds :
  emit_info_defines nd info = Ok ds -> no_aliases ds.
Proof.
  unfold emit_info_defines. intros H.
  apply bind_Ok in H as (e_ & He & H). apply bind_Ok in H as (d_ & Hd_ & H).
  apply bind_Ok in H as (b_ & Hb & H). injection H as <-.
  repeat apply no_aliases_app; by eapply emit_one_no_aliases.
Qed.

Lemma infos_defines_no_aliases nd infos dss :
  for_each (emit_info_defines nd) infos = Ok dss -> no_aliases (concat dss).
Proof.
  revert dss. induction infos as [|info infos IH]; intros dss H; simpl in H.
  - injection H as <-. constructor.
  - apply bind_Ok in H as (ds & Hds & H). apply bind_Ok in H as (dss' & Hdss & H).
    injection H as <-. simpl. apply no_aliases_app; [|by apply IH].
    by eapply emit_info_defines_no_aliases.
Qed.

Lemma NoDup_names_inj (infos : list arrayarginfo) i j x y :
  NoDup (map ai_name infos) ->
  infos !! i = Some x -> infos !! j = Some y -> ai_name x = ai_name y ->
  i = j.
Proof.
  intros Hnd Hi Hj Hn.
  apply (NoDup_lookup _ i j (ai_name x) Hnd).
  - by rewrite list_lookup_fmap, Hi.
  - by rewrite list_lookup_fmap, Hj, Hn.
Qed.

(** The alias define of an argument, if it has one, names the entry its
    [inforef] points to. *)
Lemma alias_target_plan do_indices p defs j info :
  dedup_ok (plan_names p) ->
  NoDup (map ai_name (arrayarginfos (plan_names p))) ->
  emit_defines do_indices p = Ok defs ->
  arrayarginfos (plan_names p) !! j = Some info ->
  alias_target defs (ai_name info)
  = r ← ai_inforef info;
    ai_name <$> arrayarginfos (plan_names p) !! r.
Proof.
  intros Hok Hnd H Hj. unfold emit_defines in H.
  apply bind_Ok in H as (d1 & Hd1 & H). apply bind_Ok in H as (d2 & Hd2 & H).
  apply bind_Ok in H as (d3 & Hd3 & H). injection H as <-.
  set (infos := arrayarginfos (plan_names p)) in *.
  rewrite !alias_target_app.
  rewrite (alias_target_no_aliases (if do_indices then _ else _)).
  2:{ destruct do_indices; [|constructor].
      apply Forall_forall. intros d Hd.
      apply list_elem_of_fmap in Hd as (n & -> & _). done. }
  rewrite (dedup_refnames _ Hok). fold infos.
  set (l := map (alias_of infos) (filter is_alias infos)).
  assert (Hfst : map fst l = map ai_name (filter is_alias infos)).
  { subst l. rewrite map_map. done. }
  assert (Hndl : NoDup (map fst l)).
  { rewrite Hfst. eapply sublist_NoDup; [exact Hnd|].
    apply fmap_sublist. apply sublist_filter. }
  destruct (alias_target_alias_defines l (ai_name info) Hndl) as [Hin Hout].
  destruct (ai_inforef info) as [r|] eqn:Er; simpl.
  - pose proof (dedup_inforef_lt _ _ _ _ Hok Hj Er) as Hlt.
    destruct (lookup_lt_is_Some_2 infos r) as [target Hr].
    { apply lookup_lt_Some in Hj. lia. }
    rewrite (Hin (ai_name target)); [by rewrite Hr|].
    subst l. apply list_elem_of_fmap. exists info. split.
    + unfold alias_of. rewrite Er. simpl. by rewrite Hr.
    + apply list_elem_of_filter. split; [unfold is_alias; congruence|].
      by eapply list_elem_of_lookup_2.
  - rewrite Hout.
    + rewrite (alias_target_no_aliases (concat d3))
        by (by eapply infos_defines_no_aliases).
      rewrite (alias_target_no_aliases d2) by (by eapply emit_one_no_aliases).
      rewrite (alias_target_no_aliases d1) by (by eapply emit_one_no_aliases).
      apply alias_target_no_aliases. destruct do_indices; [|constructor].
      by apply Forall_singleton.
    + rewrite Hfst. intros Hin'.
      apply list_elem_of_fmap in Hin' as (info' & Hn' & Hf').
      apply list_elem_of_filter in Hf' as [Hal Hin'].
      apply list_elem_of_lookup_1 in Hin' as [j' Hj'].
      assert (j = j') as <- by (by eapply NoDup_names_inj).
      unfold is_alias in Hal. congruence.
Qed.

Lemma expand_alias_None fuel defs n :
  alias_target defs n = None -> expand_alias fuel defs n = n.
Proof. intros H. destruct fuel; simpl; [done|]. by rewrite H. Qed.

Lemma filter_take_length {A} (P : A -> Prop) `{forall x, Decision (P x)}
    (l : list A) n :
  (length (filter P (take n l)) <= length (filter P l))%nat.
Proof.
  rewrite <- (take_drop n l) at 2. rewrite filter_app, length_app. lia.
Qed.

(** Expansion of an argument's index name ends at a canonical argument with
    the same element strides. *)
Lemma resolve_alias do_indices p defs :
  dedup_ok (plan_names p) ->
  NoDup (map ai_name (arrayarginfos (plan_names p))) ->
  emit_defines do_indices p = Ok defs ->
  forall j info,
    arrayarginfos (plan_names p) !! j = Some info ->
    exists c canon,
      (c <= j)%nat
      /\ arrayarginfos (plan_names p) !! c = Some canon
      /\ ai_inforef canon = None
      /\ ai_elemstrides canon = ai_elemstrides info
      /\ forall fuel,
           (length (filter is_alias
                      (take (S j) (arrayarginfos (plan_names p))))
            <= fuel)%nat ->
           expand_alias fuel defs (ai_name info) = ai_name canon.
Proof.
  intros Hok Hnd Hdefs. set (infos := arrayarginfos (plan_names p)) in *.
  intros j. induction (lt_wf j) as [j _ IH]. intros info Hj.
  pose proof (alias_target_plan _ _ _ _ _ Hok Hnd Hdefs Hj) as Hat.
  fold infos in Hat.
  destruct (ai_inforef info) as [r|] eqn:Er; simpl in Hat.
  - pose proof (dedup_inforef_lt _ _ _ _ Hok Hj Er) as Hlt.
    pose proof Er as Hfind. rewrite (dedup_inforef _ Hok _ _ Hj) in Hfind.
    apply find_inforef_Some in Hfind as (target & Hr & Hes).
    rewrite lookup_take_lt in Hr by lia. fold infos in Hr.
    rewrite Hr in Hat. simpl in Hat.
    destruct (IH r Hlt target Hr) as (c & canon & Hc & Hcl & Hcn & Hce & Hexp).
    exists c, canon. repeat split; try done; [lia | congruence|].
    intros fuel Hfuel.
    rewrite (take_S_r infos j info Hj) in Hfuel.
    rewrite filter_app, length_app in Hfuel.
    rewrite filter_cons_True in Hfuel by (unfold is_alias; congruence).
    simpl in Hfuel.
    destruct fuel as [|fuel]; [lia|]. simpl. rewrite Hat.
    apply Hexp.
    pose proof (filter_take_length is_alias (take j infos) (S r)) as Hle.
    rewrite take_take in Hle. replace (S r `min` j)%nat with (S r) in Hle by lia.
    lia.
  - exists j, info. repeat split; try done.
    intros fuel _. by apply expand_alias_None.
Qed.

Lemma emit_defines_arrays do_indices p defs :
  emit_defines do_indices p = Ok defs ->
  exists dss,
    for_each (emit_info_defines (ndim p)) (arrayarginfos (plan_names p))
    = Ok dss
    /\ (length (arrayrefnames (plan_names p)) <= length defs)%nat
    /\ forall dn n d,
         macro_value defs (ArrMacro dn n d)
         = macro_value (concat dss) (ArrMacro dn n d).
Proof.
  intros H. unfold emit_defines in H.
  apply bind_Ok in H as (d1 & Hd1 & H). apply bind_Ok in H as (d2 & Hd2 & H).
  apply bind_Ok in H as (d3 & Hd3 & H). injection H as <-.
  exists d3. split; [done|]. split.
  { rewrite !length_app, length_map. lia. }
  intros dn n d. rewrite !macro_value_app.
  rewrite (macro_value_no_values (if do_indices then _ else _)).
  2:{ destruct do_indices; [apply no_values_INDEX | constructor]. }
  rewrite (macro_value_no_values (map _ _)) by apply no_values_alias.
  destruct (macro_value (concat d3) _); [done|].
  unfold emit_dim_defines in Hd1, Hd2.
  rewrite (values_miss _ _ _ _ _ _ Hd2) by done.
  rewrite (values_miss _ _ _ _ _ _ Hd1) by done.
  apply macro_value_no_values. destruct do_indices; [|constructor].
  by apply Forall_singleton.
Qed.

Lemma ELEMSTRIDE_of_info do_indices p defs c canon d :
  NoDup (map ai_name (arrayarginfos (plan_names p))) ->
  emit_defines do_indices p = Ok defs ->
  arrayarginfos (plan_names p) !! c = Some canon ->
  (d < ndim p)%nat ->
  ai_elemstrides canon !! d = Some (ELEMSTRIDE defs (ai_name canon) d).
Proof.
  intros Hnd Hdefs Hc Hd.
  destruct (emit_defines_arrays _ _ _ Hdefs) as (dss & Hdss & _ & Harr).
  destruct (infos_defines _ _ _ (ai_name canon) Hdss)
    as (info & Hin & Hname & Hall).
  { apply list_elem_of_fmap. exists canon. split; [done|].
    by eapply list_elem_of_lookup_2. }
  apply list_elem_of_lookup_1 in Hin as [j Hj].
  assert (j = c) as -> by (by eapply NoDup_names_inj).
  assert (info = canon) as -> by congruence.
  destruct (Hall d Hd) as (e & de & be & He & _ & _ & HM & _).
  unfold ELEMSTRIDE. rewrite Harr, HM. done.
Qed.

Lemma direct_offset_ext idx : forall es1 es2,
  (forall d i, idx !! d = Some i -> es1 !! d = es2 !! d) ->
  direct_offset es1 idx = direct_offset es2 idx.
Proof.
  induction idx as [|i idx IH]; intros es1 es2 H.
  - by rewrite !direct_offset_nil_r.
  - pose proof (H 0%nat i eq_refl) as H0.
    destruct es1 as [|e1 es1], es2 as [|e2 es2]; try done.
    simpl in H0. injection H0 as <-. rewrite !direct_offset_cons. f_equal.
    apply IH. intros d j Hd. apply (H (S d) j Hd).
Qed.

Lemma count_NoDup n (names : list string) :
  NoDup names -> n ∈ names -> count n names = 1%nat.
Proof.
  induction 1 as [|m names Hm Hnd IH]; intros Hin.
  - by apply elem_of_nil in Hin.
  - rewrite count_cons. destruct (decide (m = n)) as [->|Hne].
    + f_equal. unfold count.
      destruct (filter (fun x => x = n) names) as [|x l] eqn:E; [done|].
      exfalso. assert (Hx : x ∈ filter (fun x => x = n) names)
        by (rewrite E; by left).
      apply list_elem_of_filter in Hx as [-> Hx]. done.
    + apply IH. apply elem_of_cons in Hin as [?|?]; congruence.
Qed.

Lemma canonical_unique st i j x y :
  dedup_ok st ->
  arrayarginfos st !! i = Some x -> arrayarginfos st !! j = Some y ->
  ai_inforef x = None -> ai_inforef y = None ->
  ai_elemstrides x = ai_elemstrides y -> i = j.
Proof.
  intros Hok Hi Hj Hx Hy Hes.
  assert (Hlt : forall i j x y,
            arrayarginfos st !! i = Some x -> arrayarginfos st !! j = Some y ->
            ai_inforef y = None -> ai_elemstrides x = ai_elemstrides y ->
            ~ (i < j)%nat).
  { clear -Hok. intros i j x y Hi Hj Hy Hes Hlt.
    rewrite (dedup_inforef _ Hok _ _ Hj) in Hy.
    rewrite find_inforef_None in Hy. apply (Hy x); [|done].
    apply (list_elem_of_lookup_2 _ i). by rewrite lookup_take_lt. }
  pose proof (Hlt i j x y Hi Hj Hy Hes).
  pose proof (Hlt j i y x Hj Hi Hx (eq_sym Hes)). lia.
Qed.

(** The offset the operation text reads for any array argument, in a state
    that holds the decomposition of a position. *)
Lemma array_offset_represents self p src pos st j info :
  NoDup (map ai_name (arrayarginfos (plan_names p))) ->
  dedup_ok (plan_names p) ->
  ndim p = length (plan_shape p) ->
  emit_defines (_do_indices self) p = Ok (src_defines src) ->
  represents (src_defines src) (arrayindnames (plan_names p))
             (plan_shape p) pos st ->
  arrayarginfos (plan_names p) !! j = Some info ->
  array_offset src st (ai_name info)
  = Some (direct_offset (ai_elemstrides info)
                        (direct_indices (plan_shape p) pos)).
Proof.
  intros Hnd Hok Hndim Hdefs [HI HO] Hj.
  destruct (resolve_alias _ _ _ Hok Hnd Hdefs j info Hj)
    as (c & canon & Hc & Hcl & Hcn & Hce & Hexp).
  destruct (emit_defines_arrays _ _ _ Hdefs) as (dss & _ & Hlen & _).
  unfold array_offset, index_variable. rewrite Hexp.
  2:{ etransitivity; [apply filter_take_length|].
      rewrite (dedup_refnames _ Hok), length_map in Hlen. done. }
  assert (Hin : ai_name canon ∈ arrayindnames (plan_names p)).
  { rewrite (dedup_indnames _ Hok). apply list_elem_of_fmap.
    exists canon. split; [done|]. apply list_elem_of_filter. split; [done|].
    by eapply list_elem_of_lookup_2. }
  rewrite HO, decide_True by done. f_equal.
  rewrite count_NoDup; [|
    rewrite (dedup_indnames _ Hok); eapply sublist_NoDup; [exact Hnd|];
    apply fmap_sublist, sublist_filter | done].
  rewrite Z.mul_1_l. rewrite <- Hce. apply direct_offset_ext.
  intros d i Hd. apply lookup_lt_Some in Hd.
  rewrite direct_indices_length in Hd.
  rewrite (ELEMSTRIDE_of_info _ _ _ _ _ d Hnd Hdefs Hcl) by lia.
  rewrite list_lookup_fmap, lookup_seq_lt by lia. done.
Qed.

Lemma alias_define_emitted do_indices p defs n r :
  emit_defines do_indices p = Ok defs ->
  (n, r) ∈ arrayrefnames (plan_names p) -> DefAlias n r ∈ defs.
Proof.
  intros H Hin. unfold emit_defines in H.
  apply bind_Ok in H as (d1 & Hd1 & H). apply bind_Ok in H as (d2 & Hd2 & H).
  apply bind_Ok in H as (d3 & Hd3 & H). injection H as <-.
  do 4 (apply elem_of_app; right). apply elem_of_app. left.
  apply list_elem_of_fmap. by exists (n, r).
Qed.

(** The entries of the plan, with pairwise distinct array argument
    names: (1) the name of every entry expands to the declared index
    variable of a canonical entry (one without [inforef]) that has the same
    element strides and does not come later; (2) of two entries with equal
    element strides the later one is emitted as an alias ([#define]) of
    an earlier entry with these strides, both names denote the same index
    variable, and so they read the same flat offset in every state;
    (3) two canonical entries never have the same element strides; (4) at
    every iteration of a thread, within the extent of a shape of positive
    sizes, the offset read for any entry, aliased or not, is the one its
    own element strides give for the indices of the position. *)
Lemma plan_entries_are_deduplicated
    self precalc grid block names p src :
  for_each (getitem (ia_arg_names (_init_args self))) (_array_arg_inds self)
  = Ok names ->
  NoDup names ->
  make_plan names precalc grid block = Ok p ->
  create_source self precalc grid block = Ok (SourceDeferred src) ->
  let infos := arrayarginfos (plan_names p) in
  let defs := src_defines src in
  (forall j info, infos !! j = Some info ->
     exists c canon,
       (c <= j)%nat /\ infos !! c = Some canon
       /\ ai_inforef canon = None
       /\ ai_elemstrides canon = ai_elemstrides info
       /\ DeclArrayIndex (ai_name canon) ∈ src_decls src
       /\ index_variable defs (ai_name info) = ai_name canon)
  /\ (forall i j x y,
        (i < j)%nat -> infos !! i = Some x -> infos !! j = Some y ->
        ai_elemstrides x = ai_elemstrides y ->
        (exists r target,
           ai_inforef y = Some r /\ (r < j)%nat
           /\ infos !! r = Some target
           /\ ai_elemstrides target = ai_elemstrides y
           /\ DefAlias (ai_name y) (ai_name target) ∈ defs)
        /\ index_variable defs (ai_name y) = index_variable defs (ai_name x)
        /\ forall st,
             array_offset src st (ai_name y) = array_offset src st (ai_name x))
  /\ (forall i j x y,
        infos !! i = Some x -> infos !! j = Some y ->
        ai_inforef x = None -> ai_inforef y = None ->
        ai_elemstrides x = ai_elemstrides y -> i = j)
  /\ (forall shape b g start k,
        sig_shape precalc = Some shape -> Forall (fun n => 0 < n) shape ->
        block !! 0%nat = Some b -> grid !! 0%nat = Some g ->
        0 <= b * g -> 0 <= start ->
        start + Z.of_nat k * (b * g) < prod shape ->
        exists st,
          run_odometer src start k = Some st
          /\ forall j info, infos !! j = Some info ->
               array_offset src st (ai_name info)
               = Some (direct_offset (ai_elemstrides info)
                         (direct_indices (traversal_shape precalc)
                            (start + Z.of_nat k * (b * g))))).
Proof.
  intros Hnames Hnd Hp Hsrc infos defs.
  assert (He : emit self p = Ok src).
  { unfold create_source in Hsrc. rewrite Hnames in Hsrc.
    cbn [mbind result_bind] in Hsrc.
    destruct (sig_contigmatch precalc && negb (_do_indices self)); [done|].
    rewrite Hp in Hsrc. cbn [mbind result_bind] in Hsrc.
    destruct (emit self p) as [d|e]; [|done]. by injection Hsrc as <-. }
  destruct (make_plan_dedup _ _ _ _ _ Hnd Hp) as [Hok Hndi].
  destruct (make_plan_Ok _ _ _ _ _ Hp)
    as (b0 & g0 & Hb0 & Hg0 & Hn & Hsh & Hndim & Hbs & Hpok).
  destruct (emit_Ok _ _ _ He) as (dbg & Hdefs & Hdecls & Hcalc & Hdbg & Hinc).
  fold defs in Hdefs. fold infos in Hndi.
  assert (Hres : forall j info, infos !! j = Some info ->
            exists c canon,
              (c <= j)%nat /\ infos !! c = Some canon
              /\ ai_inforef canon = None
              /\ ai_elemstrides canon = ai_elemstrides info
              /\ DeclArrayIndex (ai_name canon) ∈ src_decls src
              /\ index_variable defs (ai_name info) = ai_name canon).
  { intros j info Hj.
    destruct (resolve_alias _ _ _ Hok Hndi Hdefs j info Hj)
      as (c & canon & Hc & Hcl & Hcn & Hce & Hexp).
    exists c, canon. repeat split; try done.
    - rewrite Hdecls. apply names_emit_decls.
      rewrite (dedup_indnames _ Hok). apply list_elem_of_fmap.
      exists canon. split; [done|]. apply list_elem_of_filter.
      split; [done|]. by eapply list_elem_of_lookup_2.
    - unfold index_variable. apply Hexp.
      destruct (emit_defines_arrays _ _ _ Hdefs) as (dss & _ & Hlen & _).
      etransitivity; [apply filter_take_length|].
      rewrite (dedup_refnames _ Hok), length_map in Hlen. done. }
  assert (Hsame : forall i j x y,
            infos !! i = Some x -> infos !! j = Some y ->
            ai_elemstrides x = ai_elemstrides y ->
            index_variable defs (ai_name y) = index_variable defs (ai_name x)).
  { intros i j x y Hi Hj Hes.
    destruct (Hres i x Hi) as (c & cx & _ & Hc & Hcn & Hce & _ & ->).
    destruct (Hres j y Hj) as (c' & cy & _ & Hc' & Hcn' & Hce' & _ & ->).
    assert (c = c') as <- by (eapply canonical_unique; eauto; congruence).
    congruence. }
  split; [exact Hres|]. split; [|split].
  - intros i j x y Hlt Hi Hj Hes. split; [|split].
    + destruct (ai_inforef y) as [r|] eqn:Er.
      * pose proof (dedup_inforef_lt _ _ _ _ Hok Hj Er) as Hr.
        pose proof Er as Hfind. rewrite (dedup_inforef _ Hok _ _ Hj) in Hfind.
        apply find_inforef_Some in Hfind as (target & Ht & Hte).
        rewrite lookup_take_lt in Ht by lia.
        exists r, target. repeat split; try done.
        apply (alias_define_emitted _ _ _ _ _ Hdefs).
        rewrite (dedup_refnames _ Hok). apply list_elem_of_fmap.
        exists y. split.
        -- unfold alias_of. rewrite Er. simpl. by rewrite Ht.
        -- apply list_elem_of_filter. split; [unfold is_alias; congruence|].
           by eapply list_elem_of_lookup_2.
      * exfalso. rewrite (dedup_inforef _ Hok _ _ Hj) in Er.
        rewrite find_inforef_None in Er. apply (Er x); [|done].
        apply (list_elem_of_lookup_2 _ i). by rewrite lookup_take_lt.
    + by eapply Hsame.
    + intros st. unfold array_offset. fold defs.
      by rewrite (Hsame i j x y).
  - intros i j x y Hi Hj Hx Hy Hes. by eapply canonical_unique.
  - intros shape b g start k Hshape Hpos Hb Hg Ht Hs Hlt.
    assert (b0 = b) as -> by congruence. assert (g0 = g) as -> by congruence.
    destruct (traversal_shape_pos _ _ Hshape Hpos) as [Hpos' Hprod].
    rewrite <- Hsh in Hpos', Hprod. rewrite <- Hn in *.
    pose proof (emit_defines_env _ _ _ Hndim
                  ltac:(rewrite Hbs; apply calc_block_step_length) Hpok Hdefs)
      as Henv.
    destruct (iterate_represents src (_do_indices self) p dbg Hdecls Hcalc
                Hdbg Hinc Henv Hpos' Hbs start k Hs Ht)
      as (st & Hrun & Hrep); [by rewrite Hprod|].
    exists st. split; [done|]. intros j info Hj. rewrite <- Hsh.
    by eapply array_offset_represents.
Qed.

(** ** Stride deduplication, for the arguments of the call *)

(** The plan has one entry for each array argument that comes with its
    strides, in order, with the argument's name and element strides. *)
Lemma make_plan_entries names precalc grid block p ais :
  make_plan names precalc grid block = Ok p ->
  sig_arrayitemstrides precalc = Some ais ->
  map (fun info => (ai_name info, ai_elemstrides info))
      (arrayarginfos (plan_names p))
  = map (fun na => (na.1, arg_elemstrides (ndim p)
                            (default false (sig_do_reverse precalc)) na.2))
        (zip names ais).
Proof.
  intros H Hais. unfold make_plan in H. rewrite Hais in H.
  cbn [mbind result_bind] in H.
  apply bind_Ok in H as (nd & _ & H).
  apply bind_Ok in H as (b0 & _ & H).
  apply bind_Ok in H as (g0 & _ & H).
  apply bind_Ok in H as (st & Hst & H). injection H as <-.
  cbn [plan_names ndim] in *.
  set (rev := default false (sig_do_reverse precalc)) in *.
  assert (HP : map (fun info => (ai_name info, ai_elemstrides info))
                   (arrayarginfos st)
               = map (fun a : string * Z * list Z =>
                        (a.1.1, arg_elemstrides nd rev (a.1.2, a.2)))
                     (map (fun '(arg_name, itemstride) =>
                             (arg_name, itemstride.1, itemstride.2))
                          (zip names ais))).
  { revert Hst.
    apply (for_loop_prefix_invariant _
             (fun done st =>
                map (fun info => (ai_name info, ai_elemstrides info))
                    (arrayarginfos st)
                = map (fun a : string * Z * list Z =>
                         (a.1.1, arg_elemstrides nd rev (a.1.2, a.2)))
                      done)); [done|].
    intros done x s1 s' Hs1 Hb. unfold arginfo_body in Hb.
    destruct x as [[arg_name arg_itemsize] arg_strides].
    apply bind_Ok in Hb as (de & _ & Hb).
    apply bind_Ok in Hb as (be & _ & Hb).
    apply bind_Ok in Hb as ([ind ref] & _ & Hb). injection Hb as <-.
    cbn [arrayarginfos]. rewrite !map_app, Hs1. done. }
  rewrite HP, map_map. apply map_ext. by intros [nm [isz strides]].
Qed.

Lemma array_arg_entry names precalc grid block p ais j nm a :
  make_plan names precalc grid block = Ok p ->
  sig_arrayitemstrides precalc = Some ais ->
  names !! j = Some nm -> ais !! j = Some a ->
  exists info,
    arrayarginfos (plan_names p) !! j = Some info
    /\ ai_name info = nm
    /\ ai_elemstrides info
       = arg_elemstrides (ndim p) (default false (sig_do_reverse precalc)) a.
Proof.
  intros Hp Hais Hn Ha.
  pose proof (make_plan_entries _ _ _ _ _ _ Hp Hais) as HE.
  apply (f_equal (fun l => l !! j)) in HE.
  rewrite !list_lookup_fmap in HE.
  assert (Hz : zip names ais !! j = Some (nm, a)).
  { apply lookup_zip_with_Some. by exists nm, a. }
  rewrite Hz in HE. simpl in HE.
  destruct (arrayarginfos (plan_names p) !! j) as [info|]; [|done].
  simpl in HE. injection HE as Hnm Hes. by exists info.
Qed.

Lemma entry_array_arg names precalc grid block p ais j info :
  make_plan names precalc grid block = Ok p ->
  sig_arrayitemstrides precalc = Some ais ->
  arrayarginfos (plan_names p) !! j = Some info ->
  exists a,
    names !! j = Some (ai_name info) /\ ais !! j = Some a
    /\ ai_elemstrides info
       = arg_elemstrides (ndim p) (default false (sig_do_reverse precalc)) a.
Proof.
  intros Hp Hais Hj.
  pose proof (make_plan_entries _ _ _ _ _ _ Hp Hais) as HE.
  apply (f_equal (fun l => l !! j)) in HE.
  rewrite !list_lookup_fmap, Hj in HE. simpl in HE.
  destruct (zip names ais !! j) as [[nm a]|] eqn:Ez; [|done].
  simpl in HE. injection HE as Hnm Hes.
  apply lookup_zip_with_Some in Ez as (nm' & a' & [= <- <-] & Hn & Ha).
  exists a. by rewrite Hnm.
Qed.

(** An entry has a declared index variable exactly when it is canonical. *)
Lemma declared_iff_canonical st j info :
  dedup_ok st -> NoDup (map ai_name (arrayarginfos st)) ->
  arrayarginfos st !! j = Some info ->
  ai_name info ∈ arrayindnames st <-> ai_inforef info = None.
Proof.
  intros Hok Hnd Hj. rewrite (dedup_indnames _ Hok). split.
  - intros Hin. apply list_elem_of_fmap in Hin as (info' & Hn & Hin).
    apply list_elem_of_filter in Hin as [Hnone Hin].
    apply list_elem_of_lookup in Hin as (j' & Hj').
    assert (j' = j) as -> by (by eapply NoDup_names_inj).
    congruence.
  - intros Hnone. apply list_elem_of_fmap. exists info. split; [done|].
    apply list_elem_of_filter. split; [done|].
    by eapply list_elem_of_lookup_2.
Qed.

(** The search returns the last entry with the element strides. *)
Lemma find_inforef_last es infos r r' info :
  find_inforef es infos = Some r ->
  (r < r')%nat -> infos !! r' = Some info -> ai_elemstrides info <> es.
Proof.
  revert r r' info.
  induction infos as [|x infos IH] using rev_ind; intros r r' info H Hlt Hr'.
  - done.
  - rewrite find_inforef_snoc in H.
    destruct (decide (es = ai_elemstrides x)) as [He|Hne].
    + injection H as <-. apply lookup_lt_Some in Hr'.
      rewrite length_app in Hr'. simpl in Hr'. lia.
    + destruct (decide (r' < length infos)%nat) as [Hl|Hl].
      * rewrite lookup_app_l in Hr' by done. by eapply IH.
      * rewrite lookup_app_r in Hr' by lia.
        destruct (r' - length infos)%nat; [|done].
        injection Hr' as <-. congruence.
Qed.

(** C4, as amended.  On the slow path, for the array arguments of the
    call -- the [j]-th has the name [names !! j] and the item size and
    strides [ais !! j] of the key, and [es] gives its element strides in
    traversal order -- with pairwise distinct names:
    (1) the index name of every array argument expands to the declared
    index variable of an array argument that has the same element strides
    and does not come later;
    (2) of two array arguments with equal element strides the later one
    has no index variable declared and is emitted as an alias ([#define])
    of the nearest earlier argument with these strides, which may be an
    alias itself; both names denote the same index variable, and so they
    read the same flat offset in every state;
    (3) two array arguments with declared index variables never have the
    same element strides;
    (4) at every iteration of a thread, within the extent of a shape of
    positive sizes, the offset read for any array argument, aliased or
    not, is the one its own element strides give for the indices of the
    position. *)
Theorem stride_deduplication_is_transparent
    self precalc grid block names ais p src :
  for_each (getitem (ia_arg_names (_init_args self))) (_array_arg_inds self)
  = Ok names ->
  NoDup names ->
  sig_arrayitemstrides precalc = Some ais ->
  make_plan names precalc grid block = Ok p ->
  create_source self precalc grid block = Ok (SourceDeferred src) ->
  let es :=
    arg_elemstrides (ndim p) (default false (sig_do_reverse precalc)) in
  let defs := src_defines src in
  let array_arg := fun (j : nat) (nm : string) (a : Z * list Z) =>
                     names !! j = Some nm /\ ais !! j = Some a in
  (forall j nm a, array_arg j nm a ->
     exists c cn ca,
       (c <= j)%nat /\ array_arg c cn ca /\ es ca = es a
       /\ DeclArrayIndex cn ∈ src_decls src
       /\ index_variable defs nm = cn)
  /\ (forall i j ni ai nj aj,
        (i < j)%nat -> array_arg i ni ai -> array_arg j nj aj ->
        es ai = es aj ->
        (exists r nr ar,
           (i <= r < j)%nat /\ array_arg r nr ar /\ es ar = es aj
           /\ DefAlias nj nr ∈ defs
           /\ forall r' nr' ar',
                (r < r' < j)%nat -> array_arg r' nr' ar' -> es ar' <> es aj)
        /\ (DeclArrayIndex nj ∉ src_decls src)
        /\ index_variable defs nj = index_variable defs ni
        /\ forall st, array_offset src st nj = array_offset src st ni)
  /\ (forall i j ni ai nj aj,
        array_arg i ni ai -> array_arg j nj aj ->
        DeclArrayIndex ni ∈ src_decls src ->
        DeclArrayIndex nj ∈ src_decls src ->
        es ai = es aj -> i = j)
  /\ (forall shape b g start k,
        sig_shape precalc = Some shape -> Forall (fun n => 0 < n) shape ->
        block !! 0%nat = Some b -> grid !! 0%nat = Some g ->
        0 <= b * g -> 0 <= start ->
        start + Z.of_nat k * (b * g) < prod shape ->
        exists st,
          run_odometer src start k = Some st
          /\ forall j nm a, array_arg j nm a ->
               array_offset src st nm
               = Some (direct_offset (es a)
                         (direct_indices (traversal_shape precalc)
                            (start + Z.of_nat k * (b * g))))).
Proof.
  intros Hnames Hnd Hais Hp Hsrc es defs array_arg.
  destruct (plan_entries_are_deduplicated _ _ _ _ _ _ _ Hnames Hnd Hp Hsrc)
    as (H1 & H2 & H3 & H4).
  destruct (make_plan_dedup _ _ _ _ _ Hnd Hp) as [Hok Hndi].
  destruct (create_source_deferred _ _ _ _ _ Hsrc)
    as (names' & p' & Hnames' & Hp' & He).
  assert (names' = names) as -> by congruence.
  assert (p' = p) as -> by congruence.
  destruct (emit_Ok _ _ _ He) as (dbg & Hdefs & Hdecls & _).
  set (infos := arrayarginfos (plan_names p)) in *.
  assert (Hentry : forall j nm a, array_arg j nm a ->
            exists info, infos !! j = Some info /\ ai_name info = nm
                         /\ ai_elemstrides info = es a).
  { intros j nm a [Hn Ha]. by eapply array_arg_entry. }
  assert (Harg : forall j info, infos !! j = Some info ->
            exists a, array_arg j (ai_name info) a
                      /\ ai_elemstrides info = es a).
  { intros j info Hj.
    destruct (entry_array_arg _ _ _ _ _ _ _ _ Hp Hais Hj) as (a & Hn & Ha & Hes).
    by exists a. }
  assert (Hdecl : forall j info, infos !! j = Some info ->
            DeclArrayIndex (ai_name info) ∈ src_decls src
            <-> ai_inforef info = None).
  { intros j info Hj. rewrite Hdecls.
    rewrite <- (declared_iff_canonical _ j info Hok Hndi Hj). split.
    - apply emit_decls_names.
    - apply names_emit_decls. }
  split; [|split; [|split]].
  - intros j nm a Hja.
    destruct (Hentry j nm a Hja) as (info & Hj & <- & Hes).
    destruct (H1 j info Hj) as (c & canon & Hc & Hcl & Hcn & Hce & Hcd & Hiv).
    destruct (Harg c canon Hcl) as (ca & Hca & Hces).
    exists c, (ai_name canon), ca. repeat split; try done; try apply Hca.
    congruence.
  - intros i j ni ai nj aj Hlt Hi Hj Heq.
    destruct (Hentry i ni ai Hi) as (x & Hx & <- & Hxe).
    destruct (Hentry j nj aj Hj) as (y & Hy & <- & Hye).
    destruct (H2 i j x y Hlt Hx Hy ltac:(congruence))
      as ((r & target & Hr & Hrj & Ht & Hte & Hdef) & Hiv & Hoff).
    split; [|split; [|split]]; try done.
    + destruct (Harg r target Ht) as (ar & Har & Hare).
      pose proof Hr as Hfind. rewrite (dedup_inforef _ Hok _ _ Hy) in Hfind.
      fold infos in Hfind.
      assert (Hlast : forall r' info', (r < r' < j)%nat ->
                infos !! r' = Some info' ->
                ai_elemstrides info' <> ai_elemstrides y).
      { intros r' info' Hr' Hl'.
        apply (find_inforef_last _ _ _ r' info' Hfind); [lia|].
        rewrite lookup_take_lt by lia. done. }
      exists r, (ai_name target), ar. repeat split; try done; try apply Har.
      * destruct (decide (i <= r)%nat) as [|Hn]; [done|]. exfalso.
        apply (Hlast i x); [lia | done | congruence].
      * congruence.
      * intros r' nr' ar' Hr' Hra' Hes'.
        destruct (Hentry r' nr' ar' Hra') as (info' & Hl' & _ & He').
        apply (Hlast r' info' Hr' Hl'). congruence.
    + intros Hd. apply (Hdecl j y Hy) in Hd. congruence.
  - intros i j ni ai nj aj Hi Hj Hdi Hdj Heq.
    destruct (Hentry i ni ai Hi) as (x & Hx & <- & Hxe).
    destruct (Hentry j nj aj Hj) as (y & Hy & <- & Hye).
    apply (H3 i j x y Hx Hy).
    + by apply (Hdecl i x Hx).
    + by apply (Hdecl j y Hy).
    + congruence.
  - intros shape b g start k Hshape Hpos Hb Hg Ht Hs Hlt.
    destruct (H4 shape b g start k Hshape Hpos Hb Hg Ht Hs Hlt)
      as (st & Hrun & Hoff).
    exists st. split; [done|]. intros j nm a Hja.
    destruct (Hentry j nm a Hja) as (info & Hj & <- & Hes).
    rewrite (Hoff j info Hj). by rewrite Hes.
Qed.

(** ** The theorems at the examples *)


(** The addition template on contiguous arrays of shape (3, 4) and of shape
    (4, 4), on different launches: one key, the repr of the construction
    arguments. *)
Lemma fast_path_key_of_contiguous_arrays :
  fst <$> create_key py_precalc_array_info add_module [2; 1] [3; 1; 1]
            contiguous_args
  = Ok (KeyStr (simple_repr (_init_args add_module)))
  /\ fst <$> create_key py_precalc_array_info add_module [5; 1] [7; 1; 1]
               contiguous_args_4x4
     = fst <$> create_key py_precalc_array_info add_module [2; 1] [3; 1; 1]
                 contiguous_args.
Proof.
  eapply (fast_path_key_is_template_identity
            py_precalc_array_info simple_repr add_arguments add_operation
            "add" "" "" "" false None None "K" false add_module
            [2; 1] [3; 1; 1] contiguous_args _ _
            [5; 1] [7; 1; 1] contiguous_args_4x4 _ _).
  - reflexivity.
  - vm_compute. reflexivity.
  - reflexivity.
  - vm_compute. reflexivity.
  - reflexivity.
Defined.

(** Two instances of the addition template that differ in [order] only,
    called with the same contiguous arrays on different launches: equal
    keys and precalc values, and the same source. *)
Lemma same_template_same_source :
  same_template add_module (with_order "C" add_module)
  /\ create_key py_precalc_array_info add_module [2; 1] [3; 1; 1]
                contiguous_args
     = Ok (KeyStr (simple_repr add_init_args), contiguous_precalc)
  /\ create_key py_precalc_array_info (with_order "C" add_module)
                [5; 1] [7; 1; 1] contiguous_args
     = Ok (KeyStr (simple_repr add_init_args), contiguous_precalc)
  /\ create_source add_module contiguous_precalc [2; 1] [3; 1; 1]
     = create_source (with_order "C" add_module) contiguous_precalc
         [5; 1] [7; 1; 1].
Proof.
  assert (Hsame : same_template add_module (with_order "C" add_module))
    by (repeat split).
  assert (H1 : create_key py_precalc_array_info add_module [2; 1] [3; 1; 1]
                 contiguous_args
               = Ok (KeyStr (simple_repr add_init_args), contiguous_precalc))
    by (vm_compute; reflexivity).
  assert (H2 : create_key py_precalc_array_info (with_order "C" add_module)
                 [5; 1] [7; 1; 1] contiguous_args
               = Ok (KeyStr (simple_repr add_init_args), contiguous_precalc))
    by (vm_compute; reflexivity).
  split; [exact Hsame|]. split; [exact H1|]. split; [exact H2|].
  exact (source_is_determined_by_key_and_template
           py_precalc_array_info py_precalc_array_info
           add_module (with_order "C" add_module)
           [2; 1] [3; 1; 1] contiguous_args
           [5; 1] [7; 1; 1] contiguous_args
           _ _ _ _ Hsame H1 H2 eq_refl).
Defined.

(** C4 as stated fails for three array arguments with one stride vector:
    the addition over [equal_strided_args] emits [z] as an alias of [y],
    which has no index variable of its own but is an alias of [x]; no
    alias of [z] names a declared (canonical) index variable. *)
Lemma alias_of_an_alias :
  create_key py_precalc_array_info add_module [3; 1] [1; 1; 1]
    equal_strided_args
  = Ok (KeyTuple equal_strided_precalc, equal_strided_precalc)
  /\ create_source add_module equal_strided_precalc [3; 1] [1; 1; 1]
     = Ok (SourceDeferred equal_strided_source)
  /\ alias_target (src_defines equal_strided_source) "z" = Some "y"%string
  /\ alias_target (src_defines equal_strided_source) "y" = Some "x"%string
  /\ (DeclArrayIndex "y" ∉ src_decls equal_strided_source)
  /\ ~ exists c,
         DefAlias "z" c ∈ src_defines equal_strided_source
         /\ DeclArrayIndex c ∈ src_decls equal_strided_source.
Proof.
  assert (Hdefs : src_defines equal_strided_source
                  = [DefValue (DimMacro "SHAPE" 0) 5;
                     DefValue (DimMacro "BLOCK_STEP" 0) 3;
                     DefValue (ArrMacro "ELEMSTRIDE" "x" 0) 2;
                     DefValue (ArrMacro "DIMELEMSTRIDE" "x" 0) 10;
                     DefValue (ArrMacro "BLOCKELEMSTRIDE" "x" 0) 6;
                     DefValue (ArrMacro "ELEMSTRIDE" "y" 0) 2;
                     DefValue (ArrMacro "DIMELEMSTRIDE" "y" 0) 10;
                     DefValue (ArrMacro "BLOCKELEMSTRIDE" "y" 0) 6;
                     DefValue (ArrMacro "ELEMSTRIDE" "z" 0) 2;
                     DefValue (ArrMacro "DIMELEMSTRIDE" "z" 0) 10;
                     DefValue (ArrMacro "BLOCKELEMSTRIDE" "z" 0) 6;
                     DefAlias "y" "x"; DefAlias "z" "y"])
    by (vm_compute; reflexivity).
  assert (Hdecls : src_decls equal_strided_source
                   = [DeclGLOBAL_i; DeclArrayIndex "x"; DeclINDEX 0])
    by (vm_compute; reflexivity).
  split; [vm_compute; reflexivity|]. split; [vm_compute; reflexivity|].
  split; [vm_compute; reflexivity|]. split; [vm_compute; reflexivity|].
  rewrite Hdefs, Hdecls. split.
  - intros Hd.
    repeat (apply elem_of_cons in Hd as [Hd|Hd]; [try discriminate|]).
    by apply elem_of_nil in Hd.
  - intros (c & Hin & Hd).
    repeat (apply elem_of_cons in Hin as [Hin|Hin]; [try discriminate|]).
    + injection Hin as ->.
      repeat (apply elem_of_cons in Hd as [Hd|Hd]; [try discriminate|]).
      by apply elem_of_nil in Hd.
    + by apply elem_of_nil in Hin.
Qed.

(** The addition over [mixed_args]: [x] and [z] have the same element
    strides, [z] is emitted as an alias of [x], and [y] keeps an index
    variable of its own. *)
Lemma deduplication_on_mixed_arrays :
  let names := ["x"; "y"; "z"]%string in
  let ais := [(4, [16; 4]); (4, [4; 12]); (4, [16; 4])] in
  let src := mixed_source in
  let es :=
    arg_elemstrides (ndim mixed_plan)
      (default false (sig_do_reverse mixed_precalc)) in
  let defs := src_defines src in
  let array_arg := fun (j : nat) (nm : string) (a : Z * list Z) =>
                     names !! j = Some nm /\ ais !! j = Some a in
  (forall j nm a, array_arg j nm a ->
     exists c cn ca,
       (c <= j)%nat /\ array_arg c cn ca /\ es ca = es a
       /\ DeclArrayIndex cn ∈ src_decls src
       /\ index_variable defs nm = cn)
  /\ (forall i j ni ai nj aj,
        (i < j)%nat -> array_arg i ni ai -> array_arg j nj aj ->
        es ai = es aj ->
        (exists r nr ar,
           (i <= r < j)%nat /\ array_arg r nr ar /\ es ar = es aj
           /\ DefAlias nj nr ∈ defs
           /\ forall r' nr' ar',
                (r < r' < j)%nat -> array_arg r' nr' ar' -> es ar' <> es aj)
        /\ (DeclArrayIndex nj ∉ src_decls src)
        /\ index_variable defs nj = index_variable defs ni
        /\ forall st, array_offset src st nj = array_offset src st ni)
  /\ (forall i j ni ai nj aj,
        array_arg i ni ai -> array_arg j nj aj ->
        DeclArrayIndex ni ∈ src_decls src ->
        DeclArrayIndex nj ∈ src_decls src ->
        es ai = es aj -> i = j)
  /\ (forall shape b g start k,
        sig_shape mixed_precalc = Some shape ->
        Forall (fun n => 0 < n) shape ->
        [3; 1; 1] !! 0%nat = Some b -> [2; 1] !! 0%nat = Some g ->
        0 <= b * g -> 0 <= start ->
        start + Z.of_nat k * (b * g) < prod shape ->
        exists st,
          run_odometer src start k = Some st
          /\ forall j nm a, array_arg j nm a ->
               array_offset src st nm
               = Some (direct_offset (es a)
                         (direct_indices (traversal_shape mixed_precalc)
                            (start + Z.of_nat k * (b * g))))).
Proof.
  apply (stride_deduplication_is_transparent
           add_module mixed_precalc [2; 1] [3; 1; 1]
           ["x"; "y"; "z"]%string
           [(4, [16; 4]); (4, [4; 12]); (4, [16; 4])]
           mixed_plan mixed_source).
  - reflexivity.
  - apply (bool_decide_unpack _). reflexivity.
  - reflexivity.
  - vm_compute. reflexivity.
  - vm_compute. reflexivity.
Defined.

(** The block steps of 6 threads over the shape (3, 4): 6 mod 3 and
    (6 / 3) mod 4. *)
Lemma block_step_of_mixed_arrays :
  calc_block_step (traversal_shape mixed_precalc) (3 * 2) !! 1%nat
  = Some (((3 * 2) / prod (take 1 (traversal_shape mixed_precalc))) mod 4)
  /\ macro_value (src_defines mixed_source) (DimMacro "BLOCK_STEP" 1)
     = Some (((3 * 2) / prod (take 1 (traversal_shape mixed_precalc))) mod 4).
Proof.
  apply (block_step_is_mixed_radix
           add_module mixed_precalc [2; 1] [3; 1; 1] mixed_source [3; 4]
           3 2 1%nat 4).
  - vm_compute. reflexivity.
  - reflexivity.
  - repeat constructor.
  - reflexivity.
  - reflexivity.
  - reflexivity.
Defined.

(** The example of the design document in a direct call with [None], from
    the lemma. *)
Lemma shape_mismatch_of_4x4_and_4x3 :
  _precalc_array_info ([0%nat] ++ 1%nat :: []) [c_array_4x4; c_array_4x3] None
  = Raise (ShapeMismatch (Some [4; 4]) (shape
      {| shape := [4; 3]; strides := [12; 4]; itemsize := 4;
         f_contiguous := false; c_contiguous := true |}))
  /\ forall drv self grid block e,
       drv [c_array_4x4; c_array_4x3] (_array_arg_inds self)
           (_shape_arg_index self) = Raise e ->
       create_key drv self grid block [c_array_4x4; c_array_4x3] = Raise e.
Proof.
  apply (shape_mismatch_raises [0%nat] 1%nat [] [c_array_4x4; c_array_4x3]
           [4; 4]
           {| shape := [4; 3]; strides := [12; 4]; itemsize := 4;
              f_contiguous := false; c_contiguous := true |}).
  - discriminate.
  - intros i Hi. apply list_elem_of_singleton in Hi as ->.
    eexists. split; [reflexivity|]. split; reflexivity.
  - reflexivity.
  - reflexivity.
  - discriminate.
Defined.

(** A bare device pointer between two arrays. *)
Lemma pointer_among_arrays_raises :
  raises (_precalc_array_info [0; 1; 2]%nat
            [c_array_3x4; DeviceAllocation; c_array_3x4] (Some 0%nat)).
Proof.
  apply (missing_layout_metadata_raises [0; 1; 2]%nat
           [c_array_3x4; DeviceAllocation; c_array_3x4] (Some 0%nat)
           1%nat DeviceAllocation).
  - apply (bool_decide_unpack _). reflexivity.
  - reflexivity.
  - exact I.
Defined.

(** C10 as stated fails for the last dimension, which has no carry step:
    over a vector of 5 elements on 3 threads, the thread that starts at
    position 2 has index 2, in range, and one round of the update leaves
    it at 5, which is not below the size 5. *)
Lemma last_index_leaves_range :
  sig_shape strided_precalc = Some [5]
  /\ calc_block_step [5] (1 * 3) = [3]
  /\ exists st st',
       run_odometer strided_source 2 0 = Some st
       /\ INDEX st = map_seq 0 [2]
       /\ exec_stmts (macro_value (src_defines strided_source)) st
                     (loop_inds_inc (src_loop_body strided_source))
          = Some st'
       /\ INDEX st' = map_seq 0 [5]
       /\ ~ (0 <= 5 < 5).
Proof.
  split; [reflexivity|]. split; [reflexivity|].
  eexists _, _. split; [vm_compute; reflexivity|].
  split; [vm_compute; reflexivity|].
  split; [vm_compute; reflexivity|].
  split; [vm_compute; reflexivity|]. lia.
Qed.

(** The addition over [mixed_args], shape (3, 4), on 6 threads. *)
Lemma single_carry_on_mixed_arrays :
  let sh := traversal_shape mixed_precalc in
  (forall d s, sh !! d = Some s ->
     exists bs, calc_block_step sh (3 * 2) !! d = Some bs
                /\ macro_value (src_defines mixed_source)
                               (DimMacro "BLOCK_STEP" d)
                   = Some bs
                /\ 0 <= bs < s)
  /\ (forall st idx,
        INDEX st = map_seq 0 idx ->
        Forall2 (fun s i => 0 <= i < s) sh idx ->
        (forall n, DeclArrayIndex n ∈ src_decls mixed_source ->
                   is_Some (offsets st !! n)) ->
        exists st' idx',
          exec_stmts (macro_value (src_defines mixed_source)) st
                     (loop_inds_inc (src_loop_body mixed_source)) = Some st'
          /\ INDEX st' = map_seq 0 idx'
          /\ length idx' = length sh
          /\ forall d s i x,
               sh !! d = Some s -> idx !! d = Some i -> idx' !! d = Some x ->
               ((S d < length sh)%nat -> 0 <= x < s)
               /\ (S d = length sh -> i <= x <= i + s))
  /\ (forall start k,
        0 <= 3 * 2 -> 0 <= start ->
        start + Z.of_nat k * (3 * 2) < prod [3; 4] ->
        exists st,
          run_odometer mixed_source start k = Some st
          /\ forall d s, sh !! d = Some s ->
               exists x, INDEX st !! d = Some x /\ 0 <= x < s).
Proof.
  apply (single_carry_restores_all_but_last_index
           add_module mixed_precalc [2; 1] [3; 1; 1] mixed_source [3; 4]
           3 2).
  - vm_compute. reflexivity.
  - reflexivity.
  - repeat constructor.
  - reflexivity.
  - reflexivity.
Defined.

(** * Further properties *)

(** ** Recomposition of the mixed-radix digits *)

(** The digits of a position, weighted by the products of the sizes of the
    dimensions before, add up to the position modulo the total size. *)
Lemma direct_offset_weights shape : forall p w es,
  Forall (fun n => 0 < n) shape ->
  (forall d, (d < length shape)%nat ->
     es !! d = Some (w * prod (take d shape))) ->
  direct_offset es (direct_indices shape p) = w * (p mod prod shape).
Proof.
  induction shape as [|s shape IH]; intros p w es Hpos Hes.
  - simpl. rewrite direct_offset_nil_r. rewrite Z.mod_1_r. lia.
  - inversion Hpos as [|? ? Hs Hpos']; subst.
    destruct es as [|e es].
    { specialize (Hes 0%nat ltac:(simpl; lia)). done. }
    pose proof (Hes 0%nat ltac:(simpl; lia)) as H0. simpl in H0.
    injection H0 as ->.
    cbn [direct_indices]. rewrite direct_offset_cons.
    rewrite (IH (p / s) (w * 1 * s) es Hpos').
    + cbn [prod foldr]. fold (prod shape).
      pose proof (prod_pos shape Hpos') as HP.
      rewrite (Z.rem_mul_r p s (prod shape)) by lia. lia.
    + intros d Hd. specialize (Hes (S d) ltac:(simpl; lia)).
      simpl in Hes. rewrite Hes. f_equal. fold (prod (take d shape)). lia.
Qed.

Lemma weights_lookup shape d :
  (d < length shape)%nat ->
  map (fun d => prod (take d shape)) (seq 0 (length shape)) !! d
  = Some (1 * prod (take d shape)).
Proof.
  intros Hd. rewrite list_lookup_fmap, lookup_seq_lt by done. simpl.
  f_equal. lia.
Qed.

(** Two positions within the extent of a shape that have the same digits
    are the same position. *)
Lemma direct_indices_inj shape p q :
  Forall (fun n => 0 < n) shape ->
  0 <= p < prod shape -> 0 <= q < prod shape ->
  direct_indices shape p = direct_indices shape q -> p = q.
Proof.
  intros Hpos Hp Hq H.
  pose proof (direct_offset_weights shape p 1 _ Hpos (weights_lookup shape)) as H1.
  pose proof (direct_offset_weights shape q 1 _ Hpos (weights_lookup shape)) as H2.
  rewrite H in H1. rewrite H1 in H2.
  rewrite !Z.mod_small in H2 by lia. lia.
Qed.

(** ** Offsets along the run of a thread *)

(** The state of a thread after [k] rounds, within the extent: the indices
    are the digits of its position, and every array argument reads the
    offset its element strides give for these digits. *)
Lemma run_offsets self precalc grid block names src shape b g start k :
  for_each (getitem (ia_arg_names (_init_args self))) (_array_arg_inds self)
  = Ok names ->
  NoDup names ->
  create_source self precalc grid block = Ok (SourceDeferred src) ->
  sig_shape precalc = Some shape -> Forall (fun n => 0 < n) shape ->
  block !! 0%nat = Some b -> grid !! 0%nat = Some g ->
  0 <= b * g -> 0 <= start ->
  start + Z.of_nat k * (b * g) < prod shape ->
  exists p st,
    make_plan names precalc grid block = Ok p
    /\ emit self p = Ok src
    /\ run_odometer src start k = Some st
    /\ INDEX st
       = map_seq 0 (direct_indices (traversal_shape precalc)
                                   (start + Z.of_nat k * (b * g)))
    /\ forall j info,
         arrayarginfos (plan_names p) !! j = Some info ->
         array_offset src st (ai_name info)
         = Some (direct_offset (ai_elemstrides info)
                   (direct_indices (traversal_shape precalc)
                      (start + Z.of_nat k * (b * g)))).
Proof.
  intros Hnames Hnd Hsrc Hshape Hpos Hb Hg Ht Hs Hlt.
  destruct (create_source_deferred _ _ _ _ _ Hsrc) as (names' & p & Hn' & Hp & He).
  assert (names' = names) as -> by congruence.
  destruct (make_plan_dedup _ _ _ _ _ Hnd Hp) as [Hok Hndi].
  destruct (make_plan_Ok _ _ _ _ _ Hp)
    as (b0 & g0 & Hb0 & Hg0 & Hn & Hsh & Hndim & Hbs & Hpok).
  destruct (emit_Ok _ _ _ He) as (dbg & Hdefs & Hdecls & Hcalc & Hdbg & Hinc).
  assert (b0 = b) as -> by congruence. assert (g0 = g) as -> by congruence.
  destruct (traversal_shape_pos _ _ Hshape Hpos) as [Hpos' Hprod].
  rewrite <- Hsh in Hpos', Hprod. rewrite <- Hn in *.
  pose proof (emit_defines_env _ _ _ Hndim
                ltac:(rewrite Hbs; apply calc_block_step_length) Hpok Hdefs)
    as Henv.
  destruct (iterate_represents src (_do_indices self) p dbg Hdecls Hcalc
              Hdbg Hinc Henv Hpos' Hbs start k Hs Ht)
    as (st & Hrun & Hrep); [by rewrite Hprod|].
  exists p, st. split; [done|]. split; [done|]. split; [done|]. split.
  - rewrite <- Hsh. apply Hrep.
  - intros j info Hj. rewrite <- Hsh. by eapply array_offset_represents.
Qed.

(** Two different positions within the extent get different indices from
    the emitted decomposition: no element is reached under the indices of
    another. *)
Theorem distinct_positions_distinct_indices
    self precalc grid block src shape p q :
  create_source self precalc grid block = Ok (SourceDeferred src) ->
  sig_shape precalc = Some shape -> Forall (fun n => 0 < n) shape ->
  0 <= p < prod shape -> 0 <= q < prod shape -> p <> q ->
  exists st1 st2,
    run_calc src p = Some st1 /\ run_calc src q = Some st2
    /\ INDEX st1 <> INDEX st2.
Proof.
  intros Hsrc Hshape Hpos Hp Hq Hne.
  destruct (slow_source_facts _ _ _ _ _ Hsrc)
    as (names & pl & dbg & b0 & g0 & Hpl & He & Hb0 & Hg0 & Hn & Hsh & Hbs
        & Hdecls & Hcalc & Hdbg & Hinc & Henv).
  destruct (traversal_shape_pos _ _ Hshape Hpos) as [Hpos' Hprod].
  rewrite <- Hsh in Hpos', Hprod.
  destruct (run_calc_represents src (_do_indices self) pl dbg Hdecls Hcalc
              Hdbg Henv Hpos' p) as (st1 & H1 & [HI1 _]); [lia|].
  destruct (run_calc_represents src (_do_indices self) pl dbg Hdecls Hcalc
              Hdbg Henv Hpos' q) as (st2 & H2 & [HI2 _]); [lia|].
  exists st1, st2. split; [done|]. split; [done|].
  rewrite HI1, HI2. intros H. apply (inj (map_seq 0)) in H.
  apply Hne. eapply direct_indices_inj; [exact Hpos' | | | exact H]; lia.
Qed.

(** ** The bounds probes of debug mode *)

Lemma for_each_elem {A B} (f : A -> result B) l ys x :
  for_each f l = Ok ys -> x ∈ l -> exists y, f x = Ok y /\ y ∈ ys.
Proof.
  revert ys. induction l as [|a l IH]; intros ys H Hx.
  - by apply elem_of_nil in Hx.
  - cbn [for_each] in H. apply bind_Ok in H as (y & Hy & H).
    apply bind_Ok in H as (ys' & Hys & H). injection H as <-.
    apply elem_of_cons in Hx as [->|Hx].
    + exists y. split; [done|]. by left.
    + destruct (IH ys' Hys Hx) as (y' & Hy' & Hin).
      exists y'. split; [done|]. by right.
Qed.








(** ** One round of all threads *)

(** The block steps are the digits of the thread count: weighted by the
    products of the sizes of the dimensions before, they add up to the
    thread count modulo the total size of the shape, and each of them is
    the value of its [BLOCK_STEP] macro. *)
Theorem block_steps_recompose self precalc grid block src shape b g :
  create_source self precalc grid block = Ok (SourceDeferred src) ->
  sig_shape precalc = Some shape -> Forall (fun n => 0 < n) shape ->
  block !! 0%nat = Some b -> grid !! 0%nat = Some g ->
  let sh := traversal_shape precalc in
  let bs := calc_block_step sh (b * g) in
  (forall d x, bs !! d = Some x ->
     macro_value (src_defines src) (DimMacro "BLOCK_STEP" d) = Some x)
  /\ direct_offset (map (fun d => prod (take d sh)) (seq 0 (length sh))) bs
     = (b * g) mod prod shape.
Proof.
  intros Hsrc Hshape Hpos Hb Hg sh bs.
  destruct (slow_source_facts _ _ _ _ _ Hsrc)
    as (names & p & dbg & b0 & g0 & Hp & He & Hb0 & Hg0 & Hn & Hsh & Hbs
        & Hdecls & Hcalc & Hdbg & Hinc & Henv).
  assert (b0 = b) as -> by congruence. assert (g0 = g) as -> by congruence.
  destruct (traversal_shape_pos _ _ Hshape Hpos) as [Hpos' Hprod].
  fold sh in Hpos', Hprod.
  split.
  - intros d x Hx. apply (env_BLOCK_STEP _ _ _ _ _ _ Henv).
    rewrite Hbs, Hsh, Hn. exact Hx.
  - subst bs. rewrite calc_block_step_direct by done.
    rewrite (direct_offset_weights sh (b * g) 1 _ Hpos' (weights_lookup sh)).
    rewrite Hprod. lia.
Qed.

(** ** Instances built by the constructor *)

(** What a successful construction leaves in the instance. *)
Lemma init_fields py_repr arguments operation name_ preamble loop_prep
    after_loop do_range shape_arg_index array_arg_inds do_indices order
    debug self :
  __init__ py_repr arguments operation name_ preamble loop_prep after_loop
    do_range shape_arg_index array_arg_inds do_indices order debug
  = Ok self ->
  _array_arg_inds self
  = match array_arg_inds with
    | None => filter (fun i => is_VectorArg <$> arguments !! i = Some true)
                     (seq 0 (length arguments))
    | Some inds => inds
    end
  /\ match shape_arg_index with
     | None => _array_arg_inds self !! 0%nat = Some (_shape_arg_index self)
     | Some i => _shape_arg_index self = i
     end
  /\ ia_arg_names (_init_args self) = map name arguments
  /\ for_each (getitem (ia_arg_names (_init_args self)))
              (_array_arg_inds self)
     = Ok (_array_arg_names self)
  /\ _do_indices self = do_indices
  /\ _do_range self = do_range
  /\ _debug self = debug
  /\ _init_args_repr self = py_repr (_init_args self).
Proof.
  unfold __init__. intros H.
  apply bind_Ok in H as (_ & _ & H). apply bind_Ok in H as (i & Hi & H).
  apply bind_Ok in H as (ns & Hns & H). injection H as <-. simpl.
  repeat split; try done.
  destruct shape_arg_index as [s|]; [by injection Hi as ->|].
  by apply getitem_Ok in Hi.
Qed.

(** A call for which the classifier reports neither a contiguity match nor
    usable array-relative indexing, on an instance without per-dimension
    indices, gets the fast-path key from [create_key]; [create_source] then
    takes the slow path, for which the precalc value has no strides, and
    raises TypeError. *)
Theorem fast_key_without_layout_has_no_source
    drv py_repr arguments operation name_ preamble loop_prep after_loop
    do_range shape_arg_index array_arg_inds order debug self
    grid block args args' info :
  __init__ py_repr arguments operation name_ preamble loop_prep after_loop
    do_range shape_arg_index array_arg_inds false order debug = Ok self ->
  drv args (_array_arg_inds self) (_shape_arg_index self)
  = Ok (args', info) ->
  contigmatch info = false -> arrayspecificinds info = false ->
  exists p,
    create_key drv self grid block args
    = Ok (KeyStr (py_repr (_init_args self)), p)
    /\ create_source self p grid block = Raise TypeError.
Proof.
  intros Hinit Hdrv Hcm Hasi.
  destruct (init_fields _ _ _ _ _ _ _ _ _ _ _ _ _ _ Hinit)
    as (_ & _ & _ & Hnames & Hdi & _ & _ & Hrepr).
  unfold create_key. rewrite Hdrv. cbn [mbind result_bind].
  rewrite Hcm, Hasi, Hdi, Hrepr. cbn [orb negb andb].
  eexists. split; [reflexivity|].
  unfold create_source. rewrite Hnames. cbn [mbind result_bind].
  cbn [sig_contigmatch andb].
  by rewrite make_plan_without_strides.
Qed.

(** ** What the classifier raises and returns *)

Lemma for_loop_Raise {A S} (body : S -> A -> result S) l s e :
  for_loop body s l = Raise e ->
  exists s' x, x ∈ l /\ body s' x = Raise e.
Proof.
  revert s. induction l as [|a l IH]; intros s H; [done|].
  cbn [for_loop] in H. destruct (body s a) as [s1|e1] eqn:E.
  - cbn [mbind result_bind] in H. destruct (IH _ H) as (s' & x & Hx & Hb).
    exists s', x. split; [by right | done].
  - cbn [mbind result_bind] in H. injection H as <-.
    exists s, a. split; [by left | done].
Qed.

Lemma for_each_Raise {A B} (f : A -> result B) l e :
  for_each f l = Raise e -> exists x, x ∈ l /\ f x = Raise e.
Proof.
  induction l as [|a l IH]; intros H; [done|].
  cbn [for_each] in H. destruct (f a) as [y|e1] eqn:E.
  - cbn [mbind result_bind] in H.
    destruct (for_each f l) as [ys|e2]; [done|].
    cbn [mbind result_bind] in H. injection H as <-.
    destruct (IH eq_refl) as (x & Hx & Hf). exists x. split; [by right|done].
  - cbn [mbind result_bind] in H. injection H as <-.
    exists a. split; [by left | done].
Qed.

Lemma np_mul_Raise xs ys e : np_mul xs ys = Raise e -> e = ValueError.
Proof.
  unfold np_mul. destruct (decide _); [done|].
  destruct xs as [|x [|x' xs]]; [|done|];
    destruct ys as [|y [|y' ys]]; try done; by intros [= <-].
Qed.

Lemma precalc_body_designated sidx st i s c :
  precalc_body (Some sidx) st i <> Raise (ShapeMismatch s c).
Proof.
  unfold precalc_body, getitem. intros H.
  destruct (pa_args st !! i) as [arg|]; [|done]. cbn [mbind result_bind] in H.
  destruct (negb (pa_arrayspecificinds st)); [done|].
  destruct arg as [a| |v]; [|done|done].
  destruct (normalized_strides (shape a) (strides a)) as [ns|e] eqn:En;
    cbn [mbind result_bind] in H.
  - destruct (if pa_contigmatch st then _ else _) as [[cm sh] ord].
    destruct (decide _) as [[Hn _]|_]; done.
  - injection H as ->. by apply np_mul_Raise in En.
Qed.

(** With a shape-defining argument designated, the classifier never raises
    the shape mismatch, whatever the shapes of the arrays; and since the
    constructor always designates one (by default the first array
    argument), [create_key] with this classifier never does. *)
Theorem designated_shape_never_mismatches inds args sidx self grid block s c :
  _precalc_array_info inds args (Some sidx) <> Raise (ShapeMismatch s c)
  /\ create_key py_precalc_array_info self grid block args
     <> Raise (ShapeMismatch s c).
Proof.
  assert (H1 : forall inds args sidx,
            _precalc_array_info inds args (Some sidx)
            <> Raise (ShapeMismatch s c)).
  { clear. intros inds args sidx H. unfold _precalc_array_info in H.
    destruct (for_loop _ _ inds) as [st|e] eqn:Hloop;
      cbn [mbind result_bind] in H.
    - destruct (for_each _ inds) as [ais|e] eqn:Hais;
        cbn [mbind result_bind] in H; [done|]. injection H as ->.
      apply for_each_Raise in Hais as (x & _ & Hx).
      unfold getitem in Hx. destruct (pa_args st !! x) as [a|]; [|done].
      cbn [mbind result_bind] in Hx. by destruct a.
    - injection H as ->. apply for_loop_Raise in Hloop as (s' & x & _ & Hb).
      by apply precalc_body_designated in Hb. }
  split; [apply H1|].
  unfold create_key, py_precalc_array_info. intros H.
  destruct (_precalc_array_info _ args _) as [[args' info]|e] eqn:E;
    cbn [mbind result_bind] in H.
  2:{ injection H as ->. by apply H1 in E. }
  destruct (_ && _); [done|].
  unfold require_unit, getitem, len in H.
  repeat (match type of H with
          | context [?l !! ?i] =>
              destruct (l !! i); cbn [mbind result_bind] in H; [|done]
          | context [decide ?P] =>
              destruct (decide P); cbn [mbind result_bind] in H; [done|]
          end).
  destruct (canonical_shape info); cbn [mbind result_bind] in H; [|done].
  destruct (decide (_order self = "C")); cbn [mbind result_bind] in H;
    [done|].
  destruct (decide (_order self = "K")); cbn [mbind result_bind] in H;
    [|done].
  destruct (args' !! _) as [a|]; cbn [mbind result_bind] in H; [|done].
  destruct a as [a| |v]; cbn [attr_strides mbind result_bind] in H;
    [|done|done].
  unfold np_argmin in H. destruct (map Z.abs (strides a));
    cbn [mbind result_bind] in H; done.
Qed.

(** ** The loop of the classifier on arrays *)

Lemma precalc_body_keeps_missing sidx st i st' j :
  precalc_body sidx st i = Ok st' ->
  pa_args st !! j = None -> pa_args st' !! j = None.
Proof.
  unfold precalc_body. intros H Hj.
  apply bind_Ok in H as (arg & Harg & H).
  destruct (negb (pa_arrayspecificinds st)); [by injection H as <-|].
  destruct arg as [g| |v]; try (by injection H as <-).
  apply bind_Ok in H as (ns & _ & H).
  destruct (if pa_contigmatch st then _ else _) as [[cm sh] ord].
  destruct (decide _); [done|]. injection H as <-. simpl.
  apply lookup_ge_None. rewrite length_insert. by apply lookup_ge_None.
Qed.

(** When the classifier returns, every array argument index named an
    argument with layout attributes. *)
Lemma classified_args_are_arrays inds args sidx r :
  _precalc_array_info inds args sidx = Ok r ->
  forall i, i ∈ inds -> exists a, args !! i = Some (ArrayArg a).
Proof.
  unfold _precalc_array_info. intros H i Hi.
  apply bind_Ok in H as (st & Hloop & H).
  apply bind_Ok in H as (ais & Hais & _).
  destruct (for_each_elem _ _ _ i Hais Hi) as (y & Hy & _).
  apply bind_Ok in Hy as (x & Hx & Hy). apply getitem_Ok in Hx.
  destruct (args !! i) as [[a| |v]|] eqn:Ei; [by exists a| | |].
  - assert (pa_args st !! i = Some DeviceAllocation).
    { revert Hloop.
      apply (for_loop_invariant _
               (fun st => pa_args st !! i = Some DeviceAllocation)); [done|].
      intros s1 x1 s' Hs _ Hb.
      by apply (precalc_body_keeps_opaque _ _ _ _ Hb). }
    assert (x = DeviceAllocation) as -> by congruence. done.
  - assert (pa_args st !! i = Some (ScalarValue v)).
    { revert Hloop.
      apply (for_loop_invariant _
               (fun st => pa_args st !! i = Some (ScalarValue v))); [done|].
      intros s1 x1 s' Hs _ Hb.
      by apply (precalc_body_keeps_opaque _ _ _ _ Hb). }
    assert (x = ScalarValue v) as -> by congruence. done.
  - assert (pa_args st !! i = None); [|congruence].
    revert Hloop.
    apply (for_loop_invariant _ (fun st => pa_args st !! i = None)); [done|].
    intros s1 x1 s' Hs _ Hb. by eapply precalc_body_keeps_missing.
Qed.

(** A loop invariant that may depend on the items treated so far and use
    that each item is one of the list. *)
Lemma for_loop_prefix_invariant_in {A S} (body : S -> A -> result S)
    (P : list A -> S -> Prop) l s0 s :
  P [] s0 ->
  (forall done x s1 s',
     P done s1 -> x ∈ l -> body s1 x = Ok s' -> P (done ++ [x]) s') ->
  for_loop body s0 l = Ok s -> P l s.
Proof.
  intros H0 Hstep.
  assert (G : forall rest done s1,
            (forall x, x ∈ rest -> x ∈ l) ->
            P done s1 -> for_loop body s1 rest = Ok s -> P (done ++ rest) s).
  { induction rest as [|x rest IH]; intros done s1 Hsub HP H.
    - injection H as <-. by rewrite app_nil_r.
    - cbn [for_loop] in H. apply bind_Ok in H as (s' & Hb & H).
      replace (done ++ x :: rest) with ((done ++ [x]) ++ rest)
        by (by rewrite <- app_assoc).
      apply (IH _ s'); [|  |done].
      + intros y Hy. apply Hsub. by right.
      + eapply Hstep; [exact HP| |exact Hb]. apply Hsub. by left. }
  intros H. by apply (G l [] s0).
Qed.

(** One step of the loop on an array, with array-relative indexing still
    usable. *)
Lemma precalc_body_array sidx st i a st' :
  pa_arrayspecificinds st = true ->
  pa_args st !! i = Some (ArrayArg a) ->
  precalc_body sidx st i = Ok st' ->
  exists ns,
    normalized_strides (shape a) (strides a) = Ok ns
    /\ pa_args st' = <[i := ArrayArg (with_strides a ns)]> (pa_args st)
    /\ pa_arrayspecificinds st' = true
    /\ pa_contigmatch st'
       = pa_contigmatch st
         && negb (bool_decide (array_order a = "N"%string))
         && (bool_decide (pa_shape st = None)
             || bool_decide (pa_order st = Some (array_order a)))
    /\ pa_shape st'
       = (if decide (sidx = Some i) then Some (shape a)
          else if pa_contigmatch st then
                 match pa_shape st with
                 | None => Some (shape a)
                 | Some s => Some s
                 end
               else pa_shape st)
    /\ pa_order st'
       = (if pa_contigmatch st then
            match pa_shape st with
            | None => Some (array_order a)
            | Some _ => pa_order st
            end
          else pa_order st).
Proof.
  intros Hf Hi H. unfold precalc_body, getitem in H. rewrite Hi in H.
  cbn [mbind result_bind] in H. rewrite Hf in H. cbn [negb] in H.
  destruct (normalized_strides (shape a) (strides a)) as [ns|e];
    cbn [mbind result_bind] in H; [|done].
  exists ns. split; [done|].
  change (if f_contiguous _ then "F"%string
          else if c_contiguous _ then "C"%string else "N"%string)
    with (array_order a) in H.
  cbn [shape] in H.
  destruct (pa_contigmatch st) eqn:Ecm.
  - destruct (pa_shape st) as [s0|] eqn:Esh.
    + destruct (decide (pa_order st <> Some (array_order a))) as [Hne|He].
      * destruct (decide _) in H; [done|]. injection H as <-. simpl.
        rewrite (bool_decide_eq_false_2 (pa_order st = _)) by done.
        rewrite andb_false_r. repeat split; try done.
      * apply dec_stable in He.
        destruct (decide _) in H; [done|]. injection H as <-. simpl.
        rewrite (bool_decide_eq_true_2 (pa_order st = _)) by done.
        rewrite andb_true_r. repeat split; try done.
        by destruct (decide (array_order a = "N"%string));
          [rewrite bool_decide_eq_true_2 | rewrite bool_decide_eq_false_2].
    + destruct (decide _) in H; [done|]. injection H as <-. simpl.
      rewrite andb_true_r. repeat split; try done.
      by destruct (decide (array_order a = "N"%string));
        [rewrite bool_decide_eq_true_2 | rewrite bool_decide_eq_false_2].
  - destruct (decide _) in H; [done|]. injection H as <-. simpl.
    repeat split; done.
Qed.

Lemma zip_with_mask_map ms y :
  Forall (fun m => m * m = m) ms ->
  zip_with Z.mul ms (map (fun x => x * y) ms) = map (fun x => x * y) ms.
Proof.
  induction 1 as [|m ms Hm1 _ IH]; [done|]. cbn [map zip_with].
  f_equal; [by rewrite Z.mul_assoc, Hm1 | apply IH].
Qed.

(** Zeroing the strides of unit dimensions twice is zeroing them once. *)
Lemma normalized_strides_idem sh t ns :
  normalized_strides sh t = Ok ns -> normalized_strides sh ns = Ok ns.
Proof.
  unfold normalized_strides.
  set (mask := map (fun n => if 1 <? n then 1 else 0) sh).
  assert (Hm : Forall (fun m => m * m = m) mask).
  { apply Forall_fmap, Forall_forall. intros n _. simpl.
    by destruct (1 <? n). }
  clearbody mask. unfold np_mul. intros H.
  destruct (decide (length mask = length t)) as [Hl|Hl].
  - injection H as <-.
    destruct (decide _) as [_|E]; [|rewrite length_zip_with in E; lia]. f_equal.
    clear Hl. revert t. induction Hm as [|m mask Hm1 _ IH]; intros t.
    + done.
    + destruct t as [|y t]; [done|]. cbn [zip_with].
      f_equal; [by rewrite Z.mul_assoc, Hm1 | apply IH].
  - destruct mask as [|x [|x' mask]].
    + destruct t as [|y [|y' t]]; try done. by injection H as <-.
    + injection H as <-. inversion Hm as [|? ? Hx _]; subst.
      destruct (decide _) as [E|_]; [by rewrite length_map in E|]. f_equal.
      rewrite <- list_fmap_compose. apply list_fmap_ext. intros _ y _.
      simpl. by rewrite Z.mul_assoc, Hx.
    + destruct t as [|y [|y' t]]; try done. injection H as <-.
      destruct (decide _) as [_|E];
        [|exfalso; apply E; simpl; by rewrite ?length_map]. f_equal.
      exact (zip_with_mask_map (x :: x' :: mask) y Hm).
Qed.

(** The loop on arguments that are all arrays: where it has been, the
    strides of unit dimensions are zeroed and nothing else has changed; the
    shape is that of the designated argument once the loop has passed it;
    and the contiguity match still holds exactly when all arrays so far are
    contiguous in one and the same order. *)
Lemma classifier_loop args sidx inds st :
  (forall i, i ∈ inds -> exists a, args !! i = Some (ArrayArg a)) ->
  for_loop (precalc_body sidx)
    {| pa_contigmatch := true; pa_arrayspecificinds := true;
       pa_shape := None; pa_order := None; pa_args := args |} inds = Ok st ->
  pa_arrayspecificinds st = true
  /\ (forall j a, args !! j = Some (ArrayArg a) ->
        if decide (j ∈ inds) then
          exists ns, normalized_strides (shape a) (strides a) = Ok ns
                     /\ pa_args st !! j = Some (ArrayArg (with_strides a ns))
        else pa_args st !! j = Some (ArrayArg a))
  /\ (forall s a, sidx = Some s -> s ∈ inds ->
        args !! s = Some (ArrayArg a) -> pa_shape st = Some (shape a))
  /\ (pa_contigmatch st = true
      <-> exists o, o <> "N"%string
            /\ forall i, i ∈ inds ->
                 exists a, args !! i = Some (ArrayArg a)
                           /\ array_order a = o).
Proof.
  intros Harr H.
  set (P := fun (done : list nat) (st : precalc_state) =>
    pa_arrayspecificinds st = true
    /\ (forall j a, args !! j = Some (ArrayArg a) ->
          if decide (j ∈ done) then
            exists ns, normalized_strides (shape a) (strides a) = Ok ns
                       /\ pa_args st !! j = Some (ArrayArg (with_strides a ns))
          else pa_args st !! j = Some (ArrayArg a))
    /\ (forall s a, sidx = Some s -> s ∈ done ->
          args !! s = Some (ArrayArg a) -> pa_shape st = Some (shape a))
    /\ (done = [] -> pa_shape st = None /\ pa_contigmatch st = true)
    /\ (done <> [] -> pa_shape st <> None
                      /\ exists i a, i ∈ done /\ args !! i = Some (ArrayArg a)
                           /\ pa_order st = Some (array_order a))
    /\ (pa_contigmatch st = true
        <-> exists o, o <> "N"%string
              /\ forall i, i ∈ done ->
                   exists a, args !! i = Some (ArrayArg a)
                             /\ array_order a = o)).
  assert (HP : P inds st).
  { revert H. apply for_loop_prefix_invariant_in.
    - unfold P.
      cbn [pa_arrayspecificinds pa_args pa_shape pa_contigmatch pa_order].
      split; [done|]. split.
      { intros j a Hj. rewrite decide_False; [done|]. apply not_elem_of_nil. }
      split. { intros s a _ Hs. by apply elem_of_nil in Hs. }
      split; [done|]. split; [done|]. split; [|done].
      intros _. exists "F"%string. split; [done|].
      intros i Hi. by apply elem_of_nil in Hi.
    - intros done x s1 s' (Hf & Hargs & Hshape & Hnil & Hcons & Hcm) Hx Hb.
      destruct (Harr x Hx) as (a & Ha).
      assert (Hcur : exists a1, pa_args s1 !! x = Some (ArrayArg a1)
                 /\ shape a1 = shape a /\ array_order a1 = array_order a
                 /\ itemsize a1 = itemsize a
                 /\ exists ns, normalized_strides (shape a) (strides a) = Ok ns
                      /\ normalized_strides (shape a1) (strides a1) = Ok ns
                      /\ with_strides a1 ns = with_strides a ns).
      { specialize (Hargs x a Ha). destruct (decide (x ∈ done)).
        - destruct Hargs as (ns & Hns & Hl). exists (with_strides a ns).
          split; [done|]. split; [done|]. split; [done|]. split; [done|].
          exists ns. split; [done|]. split; [|done]. simpl.
          by eapply normalized_strides_idem.
        - exists a. split; [done|]. split; [done|]. split; [done|].
          split; [done|].
          destruct (precalc_body_array _ _ _ _ _ Hf Hargs Hb) as (ns & Hns & _).
          by exists ns. }
      destruct Hcur as (a1 & Hl1 & Hs1 & Ho1 & Hi1 & ns & Hns & Hns1 & Hw).
      destruct (precalc_body_array _ _ _ _ _ Hf Hl1 Hb)
        as (ns' & Hns' & Hargs' & Hf' & Hcm' & Hsh' & Hord').
      assert (ns' = ns) as -> by congruence.
      rewrite Hs1, Ho1 in *. rewrite Hw in Hargs'. clear Hns' Hns1 Hw.
      unfold P. split; [done|]. split; [|split; [|split; [|split]]].
      + intros j aj Hj. specialize (Hargs j aj Hj). rewrite Hargs'.
        destruct (decide (j = x)) as [->|Hne].
        * rewrite decide_True by (apply elem_of_app; right; by left).
          assert (aj = a) as -> by congruence. exists ns. split; [done|].
          apply list_lookup_insert_eq. by eapply lookup_lt_Some.
        * rewrite list_lookup_insert_ne by done.
          destruct (decide (j ∈ done)).
          -- rewrite decide_True by (apply elem_of_app; by left). done.
          -- rewrite decide_False; [done|]. intros Hin.
             apply elem_of_app in Hin as [?|Hin]; [done|].
             by apply list_elem_of_singleton in Hin.
      + intros s a0 Hs Hin Ha0. rewrite Hsh'.
        destruct (decide (sidx = Some x)) as [Hsx|Hsx].
        * assert (s = x) as -> by congruence. congruence.
        * apply elem_of_app in Hin as [Hin|Hin].
          2:{ apply list_elem_of_singleton in Hin. congruence. }
          rewrite (Hshape s a0 Hs Hin Ha0).
          by destruct (pa_contigmatch s1).
      + intros Hd. by destruct done.
      + intros _. split.
        * rewrite Hsh'. destruct (decide _); [done|].
          destruct done as [|d0 done'].
          -- destruct (Hnil eq_refl) as [-> ->]. done.
          -- destruct (Hcons ltac:(done)) as [Hne _].
             destruct (pa_contigmatch s1); [|done].
             by destruct (pa_shape s1).
        * rewrite Hord'. destruct done as [|d0 done'].
          -- destruct (Hnil eq_refl) as [-> ->]. exists x, a.
             split; [by left|]. done.
          -- destruct (Hcons ltac:(done)) as [Hne (i & ai & Hi & Hai & Ho)].
             assert (Hkeep : (if pa_contigmatch s1 then
                                match pa_shape s1 with
                                | None => Some (array_order a)
                                | Some _ => pa_order s1
                                end
                              else pa_order s1) = pa_order s1).
             { destruct (pa_contigmatch s1); [|done].
               by destruct (pa_shape s1). }
             rewrite Hkeep. exists i, ai. split; [|done].
             apply elem_of_app. by left.
      + rewrite Hcm'. split.
        * intros Htrue. apply andb_prop in Htrue as [Htrue Hmatch].
          apply andb_prop in Htrue as [Htrue Hnn].
          apply negb_true_iff, bool_decide_eq_false in Hnn.
          exists (array_order a). split; [done|].
          intros i Hi. apply elem_of_app in Hi as [Hi|Hi].
          2:{ apply list_elem_of_singleton in Hi as ->. by exists a. }
          destruct (proj1 Hcm Htrue) as (o & Hon & Hall).
          destruct (Hall i Hi) as (ai & Hai & Hoi). exists ai. split; [done|].
          rewrite Hoi. destruct done as [|d0 done'].
          { by apply elem_of_nil in Hi. }
          destruct (Hcons ltac:(done)) as [Hne (i' & ai' & Hi' & Hai' & Ho')].
          apply orb_prop in Hmatch as [Hm|Hm].
          { apply bool_decide_eq_true in Hm. done. }
          apply bool_decide_eq_true in Hm.
          destruct (Hall i' Hi') as (ai'' & Hai'' & Hoi'').
          assert (ai'' = ai') as -> by congruence. congruence.
        * intros (o & Hon & Hall).
          destruct (Hall x ltac:(apply elem_of_app; right; by left))
            as (a' & Ha' & Hoa).
          assert (a' = a) as -> by congruence.
          assert (Hprev : pa_contigmatch s1 = true).
          { apply Hcm. exists o. split; [done|]. intros i Hi.
            apply Hall. apply elem_of_app. by left. }
          rewrite Hprev. rewrite bool_decide_eq_false_2 by congruence.
          simpl. destruct done as [|d0 done'].
          -- destruct (Hnil eq_refl) as [-> _].
             by rewrite bool_decide_eq_true_2.
          -- destruct (Hcons ltac:(done)) as [_ (i' & ai' & Hi' & Hai' & Ho')].
             destruct (Hall i' ltac:(apply elem_of_app; by left))
               as (ai'' & Hai'' & Hoi'').
             assert (ai'' = ai') as -> by congruence.
             rewrite (bool_decide_eq_true_2 (pa_order s1 = _)) by congruence.
             by rewrite orb_true_r. }
  destruct HP as (Hf & Hargs & Hshape & _ & _ & Hcm). done.
Qed.

Lemma for_each_lookup {A B} (f : A -> result B) l ys k x :
  for_each f l = Ok ys -> l !! k = Some x ->
  exists y, f x = Ok y /\ ys !! k = Some y.
Proof.
  revert ys k. induction l as [|a l IH]; intros ys k H Hk; [done|].
  cbn [for_each] in H. apply bind_Ok in H as (y & Hy & H).
  apply bind_Ok in H as (ys' & Hys & H). injection H as <-.
  destruct k as [|k]; simpl in Hk.
  - injection Hk as ->. by exists y.
  - by apply (IH ys' k).
Qed.

(** What a successful classification is made of: the final state of the
    loop over arguments that are all arrays. *)
Lemma precalc_array_info_Ok inds args sidx args' info :
  _precalc_array_info inds args sidx = Ok (args', info) ->
  exists st,
    for_loop (precalc_body sidx)
      {| pa_contigmatch := true; pa_arrayspecificinds := true;
         pa_shape := None; pa_order := None; pa_args := args |} inds = Ok st
    /\ (forall i, i ∈ inds -> exists a, args !! i = Some (ArrayArg a))
    /\ args' = pa_args st
    /\ contigmatch info = pa_contigmatch st
    /\ arrayspecificinds info = pa_arrayspecificinds st
    /\ canonical_shape info = pa_shape st
    /\ for_each (fun i => arg ← getitem (pa_args st) i;
                          isz ← attr_itemsize arg;
                          str ← attr_strides arg; Ok (isz, str)) inds
       = Ok (arrayitemstrides info).
Proof.
  intros H. pose proof (classified_args_are_arrays _ _ _ _ H) as Harr.
  unfold _precalc_array_info in H.
  apply bind_Ok in H as (st & Hloop & H).
  apply bind_Ok in H as (ais & Hais & H). injection H as <- <-.
  by exists st.
Qed.

(** With a shape-defining argument designated among the array arguments,
    the canonical shape the classifier reports is the shape of that
    argument, whatever the shapes of the other arrays. *)
Theorem canonical_shape_is_designated inds args sidx args' info a :
  _precalc_array_info inds args (Some sidx) = Ok (args', info) ->
  sidx ∈ inds -> args !! sidx = Some (ArrayArg a) ->
  canonical_shape info = Some (shape a).
Proof.
  intros H Hin Ha.
  destruct (precalc_array_info_Ok _ _ _ _ _ H)
    as (st & Hloop & Harr & _ & _ & _ & -> & _).
  destruct (classifier_loop _ _ _ _ Harr Hloop) as (_ & _ & Hshape & _).
  by apply (Hshape sidx a).
Qed.

(** When the classifier returns, it reports a contiguity match exactly when
    all array arguments are contiguous in one and the same order: all
    flagged Fortran-contiguous, or all flagged C-contiguous and not
    Fortran-contiguous. *)
Theorem contigmatch_iff_one_order inds args sidx args' info :
  _precalc_array_info inds args sidx = Ok (args', info) ->
  contigmatch info = true
  <-> exists o, o <> "N"%string
        /\ forall i, i ∈ inds ->
             exists a, args !! i = Some (ArrayArg a) /\ array_order a = o.
Proof.
  intros H.
  destruct (precalc_array_info_Ok _ _ _ _ _ H)
    as (st & Hloop & Harr & _ & -> & _).
  by destruct (classifier_loop _ _ _ _ Harr Hloop) as (_ & _ & _ & Hcm).
Qed.

(** When the classifier returns, every array argument has been left with
    the strides of its dimensions of size one (or less) set to zero and
    nothing else changed -- in the caller's argument list, too -- and these
    are the strides reported with its item size. *)
Theorem unit_dimension_strides_are_zeroed inds args sidx args' info k i a :
  _precalc_array_info inds args sidx = Ok (args', info) ->
  inds !! k = Some i -> args !! i = Some (ArrayArg a) ->
  exists ns,
    normalized_strides (shape a) (strides a) = Ok ns
    /\ args' !! i = Some (ArrayArg (with_strides a ns))
    /\ arrayitemstrides info !! k = Some (itemsize a, ns)
    /\ (length (strides a) = length (shape a) ->
        forall d s t, shape a !! d = Some s -> strides a !! d = Some t ->
          ns !! d = Some (if 1 <? s then t else 0)).
Proof.
  intros H Hk Ha.
  destruct (precalc_array_info_Ok _ _ _ _ _ H)
    as (st & Hloop & Harr & -> & _ & _ & _ & Hais).
  destruct (classifier_loop _ _ _ _ Harr Hloop) as (_ & Hargs & _).
  specialize (Hargs i a Ha).
  rewrite decide_True in Hargs by (by eapply list_elem_of_lookup_2).
  destruct Hargs as (ns & Hns & Hl). exists ns.
  split; [done|]. split; [done|]. split.
  - destruct (for_each_lookup _ _ _ _ _ Hais Hk) as (y & Hy & ->).
    unfold getitem in Hy. rewrite Hl in Hy. simpl in Hy. by injection Hy as <-.
  - intros Hlen d s t Hs Ht. unfold normalized_strides, np_mul in Hns.
    rewrite decide_True in Hns by (by rewrite length_map).
    injection Hns as <-. rewrite lookup_zip_with.
    rewrite list_lookup_fmap, Hs, Ht. simpl. f_equal.
    destruct (1 <? s); lia.
Qed.

(** ** The traversal order under ['K'] *)

(** Under the default order ['K'], when the shape-defining argument, as
    the classifier leaves it, is an array with as many strides as the
    canonical shape has dimensions, and these are at most two, the
    traversal is never reversed: every tuple key that [create_key] returns
    has [do_reverse] [False].  The position of the smallest stride is at
    most 1, which does not exceed [ndim // 2] for two dimensions, and is 0
    for one; so a C-contiguous matrix is traversed first index fastest.
    (A shape-defining argument outside [array_arg_inds] can have more
    strides than the canonical shape has dimensions; nothing is said for
    that case.) *)
Theorem order_K_keeps_matrices_unreversed
    drv self grid block args args' info a sh k p :
  _order self = "K"%string ->
  drv args (_array_arg_inds self) (_shape_arg_index self)
  = Ok (args', info) ->
  canonical_shape info = Some sh ->
  args' !! _shape_arg_index self = Some (ArrayArg a) ->
  length (strides a) = length sh -> (length sh <= 2)%nat ->
  create_key drv self grid block args = Ok (KeyTuple k, p) ->
  sig_do_reverse p = Some false.
Proof.
  intros Hord Hdrv Hsh Ha Hlen Hle H. unfold create_key in H.
  rewrite Hdrv in H. cbn [mbind result_bind] in H.
  destruct (_ && _); [done|].
  apply bind_Ok in H as (g1 & _ & H). apply bind_Ok in H as (_ & _ & H).
  apply bind_Ok in H as (b1 & _ & H). apply bind_Ok in H as (_ & _ & H).
  apply bind_Ok in H as (b2 & _ & H). apply bind_Ok in H as (_ & _ & H).
  apply bind_Ok in H as (nd & Hnd & H). apply bind_Ok in H as (r & Hr & H).
  injection H as _ <-. cbn [sig_do_reverse]. f_equal.
  rewrite Hsh in Hnd. injection Hnd as <-.
  rewrite Hord in Hr. rewrite decide_False in Hr by done.
  rewrite decide_True in Hr by done.
  unfold getitem in Hr. rewrite Ha in Hr. cbn [mbind result_bind attr_strides] in Hr.
  apply bind_Ok in Hr as (m & Hm & Hr). injection Hr as <-.
  apply bool_decide_eq_false. rewrite <- Hlen in *.
  destruct (strides a) as [|x [|y [|z l]]]; simpl in *; try done; try lia.
  - injection Hm as <-. lia.
  - injection Hm as <-. destruct (Z.abs y <? Z.abs x); simpl; lia.
Qed.

(** ** The constructor's defaults *)

Lemma for_each_app_Ok {A B} (f : A -> result B) l1 l2 ys1 ys2 :
  for_each f l1 = Ok ys1 -> for_each f l2 = Ok ys2 ->
  for_each f (l1 ++ l2) = Ok (ys1 ++ ys2).
Proof.
  revert ys1. induction l1 as [|a l1 IH]; intros ys1 H1 H2.
  - by injection H1 as <-.
  - cbn [for_each] in H1. apply bind_Ok in H1 as (y & Hy & H1).
    apply bind_Ok in H1 as (ys & Hys & H1). injection H1 as <-.
    cbn [app for_each]. rewrite Hy. cbn [mbind result_bind].
    by rewrite (IH ys Hys H2).
Qed.

Lemma for_each_ext_in {A B} (f g : A -> result B) l :
  (forall x, x ∈ l -> f x = g x) -> for_each f l = for_each g l.
Proof.
  induction l as [|a l IH]; intros H; [done|]. cbn [for_each].
  rewrite (H a) by (by left). rewrite IH; [done|].
  intros x Hx. apply H. by right.
Qed.

Lemma filter_ext_in {A} (P Q : A -> Prop) `{forall x, Decision (P x)}
    `{forall x, Decision (Q x)} (l : list A) :
  (forall x, x ∈ l -> P x <-> Q x) -> filter P l = filter Q l.
Proof.
  induction l as [|a l IH]; intros Hl; [done|]. rewrite !filter_cons.
  rewrite IH by (intros x Hx; apply Hl; by right).
  destruct (decide (P a)) as [Hp|Hp], (decide (Q a)) as [Hq|Hq]; try done.
  - destruct Hq. apply (Hl a); [by left | done].
  - destruct Hp. apply (Hl a); [by left | done].
Qed.

(** The default [array_arg_inds]: the positions of the VectorArgs. *)
Lemma vector_positions_snoc (l : list argument) a :
  filter (fun i => is_VectorArg <$> (l ++ [a]) !! i = Some true)
         (seq 0 (length (l ++ [a])))
  = filter (fun i => is_VectorArg <$> l !! i = Some true)
           (seq 0 (length l))
    ++ (if is_VectorArg a then [length l] else []).
Proof.
  rewrite length_app. simpl. rewrite Nat.add_1_r, seq_S, filter_app. simpl.
  f_equal.
  - apply filter_ext_in. intros i Hi.
    apply elem_of_seq in Hi. by rewrite lookup_app_l by lia.
  - rewrite filter_cons, filter_nil.
    rewrite list_lookup_middle by done. simpl.
    destruct (is_VectorArg a); [by rewrite decide_True|].
    by rewrite decide_False.
Qed.

Lemma vector_positions_names (l : list argument) :
  for_each (getitem (map name l))
    (filter (fun i => is_VectorArg <$> l !! i = Some true)
            (seq 0 (length l)))
  = Ok (map name (filter (fun a => is_VectorArg a = true) l)).
Proof.
  induction l as [|a l IH] using rev_ind; [done|].
  rewrite vector_positions_snoc, filter_app, !map_app.
  apply for_each_app_Ok.
  - rewrite <- IH. apply for_each_ext_in. intros i Hi.
    apply list_elem_of_filter in Hi as [_ Hi]. apply elem_of_seq in Hi.
    unfold getitem. rewrite lookup_app_l; [done|].
    rewrite length_map. lia.
  - rewrite filter_cons, filter_nil. destruct (is_VectorArg a) eqn:E.
    + rewrite decide_True by done. cbn [for_each]. unfold getitem.
      rewrite lookup_app_r by (rewrite length_map; lia).
      rewrite length_map, Nat.sub_diag. done.
    + by rewrite decide_False.
Qed.

Lemma filter_seq_first P `{forall i : nat, Decision (P i)} n : forall a i,
  filter P (seq a n) !! 0%nat = Some i ->
  P i /\ (a <= i < a + n)%nat /\ forall j, (a <= j < i)%nat -> ~ P j.
Proof.
  induction n as [|n IH]; intros a i Hi; [done|].
  cbn [seq] in Hi. rewrite filter_cons in Hi.
  destruct (decide (P a)) as [Ha|Ha].
  - injection Hi as <-. split; [done|]. split; [lia|]. intros j Hj. lia.
  - destruct (IH _ _ Hi) as (Hp & Hr & Hleast). split; [done|].
    split; [lia|]. intros j Hj. destruct (decide (j = a)) as [->|]; [done|].
    apply Hleast. lia.
Qed.

(** The constructor with the default [array_arg_inds] and
    [shape_arg_index]. *)
Lemma init_defaults
    py_repr arguments operation name_ preamble loop_prep after_loop
    do_range do_indices order debug :
  let vectors := filter (fun a => is_VectorArg a = true) arguments in
  (vectors = [] ->
   __init__ py_repr arguments operation name_ preamble loop_prep after_loop
     do_range None None do_indices order debug = Raise IndexError)
  /\ (vectors <> [] ->
      exists self v,
        __init__ py_repr arguments operation name_ preamble loop_prep
          after_loop do_range None None do_indices order debug = Ok self
        /\ _array_arg_names self = map name vectors
        /\ length (_array_arg_inds self) = length vectors
        /\ arguments !! _shape_arg_index self = Some v
        /\ is_VectorArg v = true
        /\ forall j w, (j < _shape_arg_index self)%nat ->
             arguments !! j = Some w -> is_VectorArg w = false).
Proof.
  intros vectors. unfold __init__.
  change (py_assert _) with (Ok tt). cbn [mbind result_bind].
  set (inds := filter _ (seq 0 (length arguments))).
  pose proof (vector_positions_names arguments) as Hnames. fold inds in Hnames.
  fold vectors in Hnames.
  pose proof (for_each_length _ _ _ Hnames) as Hlen.
  rewrite length_map in Hlen.
  split.
  - intros Hv. rewrite Hv in Hlen. destruct inds; [done|done].
  - intros Hv. destruct inds as [|i0 inds'] eqn:Ei.
    { destruct vectors; done. }
    change (getitem (i0 :: inds') 0) with (Ok i0). cbn [mbind result_bind].
    rewrite Hnames. cbn [mbind result_bind].
    assert (H0 : inds !! 0%nat = Some i0) by (by rewrite Ei).
    unfold inds in H0. apply filter_seq_first in H0 as (Hp & Hr & Hleast).
    destruct (arguments !! i0) as [v|] eqn:Ev; [|done].
    simpl in Hp. injection Hp as Hp.
    eexists _, v. split; [reflexivity|]. cbn.
    split; [done|]. split; [by rewrite Hlen|]. split; [done|]. split; [done|].
    intros j w Hj Hw. specialize (Hleast j ltac:(lia)).
    rewrite Hw in Hleast. simpl in Hleast.
    destruct (is_VectorArg w); [by destruct Hleast | done].
Qed.

(** Built with the default [array_arg_inds] and [shape_arg_index], the
    constructor raises IndexError when no argument is a VectorArg;
    otherwise it returns an instance whose array arguments are the
    VectorArgs, in order, and whose shape-defining argument is the first
    of them. *)
Theorem constructor_defaults
    py_repr arguments operation name_ preamble loop_prep after_loop
    do_range do_indices order debug :
  let vectors := filter (fun a => is_VectorArg a = true) arguments in
  (vectors = [] ->
   __init__ py_repr arguments operation name_ preamble loop_prep after_loop
     do_range None None do_indices order debug = Raise IndexError)
  /\ (vectors <> [] ->
      exists self v,
        __init__ py_repr arguments operation name_ preamble loop_prep
          after_loop do_range None None do_indices order debug = Ok self
        /\ _array_arg_names self = map name vectors
        /\ length (_array_arg_inds self) = length vectors
        /\ arguments !! _shape_arg_index self = Some v
        /\ is_VectorArg v = true
        /\ forall j w, (j < _shape_arg_index self)%nat ->
             arguments !! j = Some w -> is_VectorArg w = false).
Proof.
  exact (init_defaults py_repr arguments operation name_ preamble loop_prep
           after_loop do_range do_indices order debug).
Qed.

(** ** Kernel generation *)

(** The additions to the argument list are scalars. *)
Lemma vectors_of_extended (l : list argument) (use_range : bool) (t : tools) :
  filter (fun a => is_VectorArg a = true)
    (if use_range then
       l ++ [ScalarArg (intp t) "start"; ScalarArg (intp t) "stop";
             ScalarArg (intp t) "step"]
     else l ++ [ScalarArg (uintp t) "n"])
  = filter (fun a => is_VectorArg a = true) l.
Proof. destruct use_range; rewrite filter_app; simpl; by rewrite app_nil_r. Qed.

(** What a call of [get_elwise_kernel_and_types] that returns is made
    of. *)
Lemma get_elwise_kernel_and_types_Ok
    t py_repr arguments operation name use_range kw a' m f l :
  get_elwise_kernel_and_types t py_repr arguments operation name use_range kw
  = (a', Ok (m, f, l)) ->
  exists l0,
    match arguments with
    | ArgStr s => for_each (parse_c_arg t) (split comma s) = Ok l0
                  /\ a' = ArgStr s
    | ArgList l1 => l0 = l1 /\ a' = ArgList l
    end
    /\ l = (if use_range then
              l0 ++ [ScalarArg (intp t) "start"; ScalarArg (intp t) "stop";
                     ScalarArg (intp t) "step"]
            else l0 ++ [ScalarArg (uintp t) "n"])
    /\ (if use_range then get_elwise_range_module else get_elwise_module)
         py_repr l operation name kw = Ok m
    /\ f = {| fn_module := m; fn_name := name;
              fn_prepared := String.concat "" (map (struct_char t) l) |}.
Proof.
  unfold get_elwise_kernel_and_types. intros H.
  destruct arguments as [s|l1].
  - destruct (for_each _ _) as [l0|e]; [|by injection H].
    injection H as <- H. apply bind_Ok in H as (m' & Hm & H).
    injection H as <- <- <-. exists l0. by destruct use_range.
  - injection H as <- H. apply bind_Ok in H as (m' & Hm & H).
    injection H as <- <- <-. exists l1. by destruct use_range.
Qed.

(** With the default [shape_arg_index] and [array_arg_inds], a kernel that
    [get_elwise_kernel_and_types] returns has a vector argument: without
    one the constructor of the module has raised IndexError already.  The
    assert of [generate_stride_kernel_and_types] can only fail when the
    caller gives one of the two keywords. *)
Theorem generated_kernel_has_a_vector_argument
    t py_repr arguments operation name use_range kw :
  kw_shape_arg_index kw = None -> kw_array_arg_inds kw = None ->
  (forall a' m f l,
     get_elwise_kernel_and_types t py_repr arguments operation name
       use_range kw = (a', Ok (m, f, l)) ->
     filter (fun a => is_VectorArg a = true) l <> [])
  /\ (forall l0,
        arguments = ArgList l0 ->
        filter (fun a => is_VectorArg a = true) l0 = [] ->
        (use_range = true -> kw_do_range kw = None) ->
        exists l,
          get_elwise_kernel_and_types t py_repr arguments operation name
            use_range kw = (ArgList l, Raise IndexError)
          /\ length l = (length l0 + if use_range then 3 else 1)%nat).
Proof.
  intros Hs Hi. split.
  - intros a' m f l H.
    apply get_elwise_kernel_and_types_Ok in H as (l0 & _ & Hl & Hm & _).
    intros Hv.
    pose proof (init_defaults py_repr l operation name
                  (default ""%string (kw_preamble kw))
                  (default ""%string (kw_loop_prep kw))
                  (default ""%string (kw_after_loop kw))
                  (if use_range then true else default false (kw_do_range kw))
                  (default false (kw_do_indices kw))
                  (default "K"%string (kw_order kw))
                  (default false (kw_debug kw))) as [Hnone _].
    specialize (Hnone Hv).
    destruct use_range.
    + unfold get_elwise_range_module in Hm. rewrite Hs, Hi in Hm.
      destruct (kw_do_range kw); [done|]. congruence.
    + unfold get_elwise_module in Hm. rewrite Hs, Hi in Hm. congruence.
  - intros l0 -> Hv Hr. unfold get_elwise_kernel_and_types.
    eexists. split.
    + f_equal.
      set (l := if use_range then _ else _).
      assert (Hvl : filter (fun a => is_VectorArg a = true) l = []).
      { subst l. by rewrite vectors_of_extended. }
      pose proof (init_defaults py_repr l operation name
                  (default ""%string (kw_preamble kw))
                  (default ""%string (kw_loop_prep kw))
                  (default ""%string (kw_after_loop kw))
                  (if use_range then true else default false (kw_do_range kw))
                  (default false (kw_do_indices kw))
                  (default "K"%string (kw_order kw))
                  (default false (kw_debug kw))) as [Hnone _].
      specialize (Hnone Hvl).
      destruct use_range.
      * unfold get_elwise_range_module. rewrite Hs, Hi, (Hr eq_refl).
        by rewrite Hnone.
      * unfold get_elwise_module. rewrite Hs, Hi. by rewrite Hnone.
    + destruct use_range; rewrite length_app; simpl; lia.
Qed.

(** What a first generation for [use_range] that returns has done. *)
Lemma generate_Ok t py_repr self use_range self' g :
  ek_memo self use_range = None ->
  generate_stride_kernel_and_types t py_repr self use_range = (self', Ok g) ->
  exists a' l,
    get_elwise_kernel_and_types t py_repr (ek_arguments self)
      (ek_operation self) (ek_name self) use_range (ek_kwargs self)
    = (a', Ok (g_mod g, g_func g, l))
    /\ self' = remember (set_arguments self a') use_range g
    /\ g_arguments g = match a' with
                       | ArgList _ => SharedList
                       | ArgStr _ => OwnList l
                       end
    /\ arguments_of self' (g_arguments g) = l
    /\ filter (fun a => is_VectorArg a = true) l <> [].
Proof.
  unfold generate_stride_kernel_and_types. intros -> H.
  destruct (get_elwise_kernel_and_types _ _ _ _ _ _ _) as [a' r] eqn:E.
  destruct r as [[[m f] l]|e]; [|by injection H].
  destruct (decide _) as [|Hv]; [by injection H|].
  injection H as <- <-. exists a', l. split; [done|]. split; [done|].
  split; [done|]. split; [|done].
  apply get_elwise_kernel_and_types_Ok in E as (l0 & Ha & _).
  destruct (ek_arguments self) as [s|l1]; destruct Ha as [_ ->]; done.
Qed.

(** A list of descriptors is extended in place.  On a kernel made from a
    list, generating the plain variant appends [n] to the caller's list,
    and generating the range variant afterwards appends [start], [stop]
    and [step] to the same list: the range kernel is built with [n] among
    its parameters, and the argument list of the plain kernel, which is
    the same object, has grown as well, beyond the format the plain
    function was prepared with. *)
Theorem list_arguments_are_extended_in_place
    t py_repr l operation name_ kwargs self1 g1 self2 g2 :
  generate_stride_kernel_and_types t py_repr
    (ElementwiseKernel_init (ArgList l) operation name_ kwargs) false
  = (self1, Ok g1) ->
  generate_stride_kernel_and_types t py_repr self1 true = (self2, Ok g2) ->
  let n := ScalarArg (uintp t) "n" in
  let range_args := [ScalarArg (intp t) "start"; ScalarArg (intp t) "stop";
                     ScalarArg (intp t) "step"] in
  arguments_of self1 (g_arguments g1) = l ++ [n]
  /\ ek_arguments self2 = ArgList (l ++ [n] ++ range_args)
  /\ arguments_of self2 (g_arguments g2) = l ++ [n] ++ range_args
  /\ arguments_of self2 (g_arguments g1) = l ++ [n] ++ range_args
  /\ ia_arg_names (_init_args (g_mod g2))
     = map name (l ++ [n] ++ range_args)
  /\ fn_prepared (g_func g1)
     = String.concat "" (map (struct_char t) (l ++ [n]))
  /\ ek_memo self2 false = Some g1 /\ ek_memo self2 true = Some g2.
Proof.
  intros H1 H2 n range_args.
  apply generate_Ok in H1 as (a1 & l1 & E1 & -> & Hg1 & Hl1 & _); [|done].
  apply get_elwise_kernel_and_types_Ok in E1
    as (l0 & [-> ->] & -> & Hm1 & Hf1).
  apply generate_Ok in H2 as (a2 & l2 & E2 & -> & Hg2 & Hl2 & _); [|done].
  cbn [remember set_arguments ek_arguments ek_operation ek_name ek_kwargs]
    in E2.
  apply get_elwise_kernel_and_types_Ok in E2
    as (l0' & [-> ->] & -> & Hm2 & Hf2).
  unfold arguments_of in *. rewrite Hg1, Hg2 in *. simpl in *.
  rewrite <- !app_assoc. split; [done|]. split; [done|].
  split; [done|]. split; [done|]. split.
  { unfold get_elwise_range_module in Hm2. destruct (kw_do_range kwargs);
      [done|].
    apply init_fields in Hm2 as (_ & _ & -> & _). by rewrite <- app_assoc. }
  split; [by rewrite Hf1|]. done.
Qed.

(** With the declarations given as a string, each variant parses them
    anew: the plain kernel has the declared arguments and [n], the range
    kernel the declared arguments and [start], [stop], [step], in
    whichever order the two are generated. *)
Theorem string_arguments_are_parsed_anew
    t py_repr s operation name kwargs (u : bool) self1 g1 self2 g2 :
  generate_stride_kernel_and_types t py_repr
    (ElementwiseKernel_init (ArgStr s) operation name kwargs) u
  = (self1, Ok g1) ->
  generate_stride_kernel_and_types t py_repr self1 (negb u) = (self2, Ok g2) ->
  exists l,
    for_each (parse_c_arg t) (split comma s) = Ok l
    /\ let plain := l ++ [ScalarArg (uintp t) "n"] in
       let ranged := l ++ [ScalarArg (intp t) "start";
                           ScalarArg (intp t) "stop";
                           ScalarArg (intp t) "step"] in
       arguments_of self2 (g_arguments g1) = (if u then ranged else plain)
       /\ arguments_of self2 (g_arguments g2) = (if u then plain else ranged)
       /\ ek_arguments self2 = ArgStr s.
Proof.
  intros H1 H2.
  apply generate_Ok in H1 as (a1 & l1 & E1 & -> & Hg1 & Hl1 & _); [|done].
  apply get_elwise_kernel_and_types_Ok in E1
    as (l0 & [Hp ->] & -> & Hm1 & Hf1).
  apply generate_Ok in H2 as (a2 & l2 & E2 & -> & Hg2 & Hl2 & _).
  2:{ simpl. rewrite decide_False; [done|]. by destruct u. }
  cbn [remember set_arguments ek_arguments ek_operation ek_name ek_kwargs]
    in E2.
  apply get_elwise_kernel_and_types_Ok in E2
    as (l0' & [Hp' ->] & -> & Hm2 & Hf2).
  assert (l0' = l0) as -> by congruence.
  exists l0. split; [done|]. cbn zeta.
  unfold arguments_of. rewrite Hg1, Hg2. by destruct u.
Qed.

(** ** Calls *)

(** A [range] whose step is [None] never launches: the call appends 1 for
    the missing step, but computes the launch geometry from
    [range_.step] itself. *)
Theorem range_without_step_never_launches
    t py_repr g self args kw r :
  ck_range kw = Some r -> sl_step r = None ->
  exists e, snd (__call__ t py_repr g self args kw) = Failed e.
Proof.
  intros Hr Hstep. unfold __call__.
  destruct (decide _); [by eexists|].
  destruct (generate_stride_kernel_and_types _ _ _ _) as [self' [gen|e]];
    [|by eexists].
  cbn [snd]. unfold call_body.
  destruct (getitem _ 0) as [v|e]; [|by eexists].
  rewrite Hr. destruct (ck_slice kw); [by eexists|]. rewrite Hstep.
  destruct (sl_stop r), (sl_start r); by eexists.
Qed.

Lemma clip_bounds v dflt lower upper length :
  lower <= upper -> lower <= 0 -> length - 1 <= upper ->
  lower <= dflt <= upper ->
  lower <= clip v dflt lower upper length <= upper.
Proof.
  intros Hlu Hl Hu Hd. unfold clip. destruct v as [v|]; [|done].
  destruct (v <? 0) eqn:E; lia.
Qed.

(** What [slice.indices] returns lies within the sequence: between 0 and
    the length for a positive step, between -1 and the length less one for
    a negative step. *)
Lemma slice_indices_bounds s n start stop step :
  slice_indices s n = Ok (start, stop, step) ->
  step <> 0 /\ 0 <= n
  /\ (0 < step -> 0 <= start <= n /\ 0 <= stop <= n)
  /\ (step < 0 -> (-1) <= start <= n - 1 /\ (-1) <= stop <= n - 1).
Proof.
  unfold slice_indices. intros H.
  destruct (decide (n < 0)); [done|].
  destruct (decide (default 1 (sl_step s) = 0)); [done|].
  injection H as <- <- <-. split; [done|]. split; [lia|].
  set (step := default 1 (sl_step s)) in *.
  split; intros Hs.
  - assert ((step <? 0) = false) as -> by lia. cbv beta iota.
    split; apply clip_bounds; lia.
  - assert ((step <? 0) = true) as -> by lia. cbv beta iota.
    split; apply clip_bounds; lia.
Qed.

(** The values of the call that are paired with a descriptor. *)
Lemma given_of_zip (args : list arg) (ds : list argument) :
  map (fun p => Given (fst p)) (zip args ds)
  = map Given (take (length ds) args).
Proof.
  revert ds. induction args as [|a args IH]; intros ds.
  - by rewrite take_nil.
  - destruct ds as [|d ds]; [done|]. simpl. by rewrite IH.
Qed.

(** A call with the [slice] keyword, on a kernel with a first vector
    argument that is an array: for a step of zero it fails with
    ValueError; otherwise it launches with the bounds that
    [slice.indices] clips to the size of that vector as the last three
    values, on the geometry [splay] gives for
    [abs(stop - start) // step] -- a count that is not positive when the
    step is negative. *)
Theorem slice_call_is_clipped_to_the_vector
    t py_repr g self args kw self' gen v sl :
  ck_others kw = [] -> ck_range kw = None -> ck_slice kw = Some sl ->
  generate_stride_kernel_and_types t py_repr self true = (self', Ok gen) ->
  map fst (filter (fun p => is_VectorArg (snd p) = true)
                  (zip args (arguments_of self' (g_arguments gen))))
    !! 0%nat = Some (ArrayArg v) ->
  0 <= vec_size g v ->
  (sl_step sl = Some 0 ->
   __call__ t py_repr g self args kw = (self', Failed (PyExn ValueError)))
  /\ (sl_step sl <> Some 0 ->
      exists start stop step l,
        slice_indices sl (vec_size g v) = Ok (start, stop, step)
        /\ __call__ t py_repr g self args kw = (self', Launch l)
        /\ l_args l
           = map Given (take (length (arguments_of self' (g_arguments gen)))
                             args)
             ++ [PyInt start; PyInt stop; PyInt step]
        /\ (l_grid l, l_block l) = splay g (Z.abs (stop - start) / step)
        /\ (0 < step -> 0 <= start <= vec_size g v
                        /\ 0 <= stop <= vec_size g v)
        /\ (step < 0 -> (-1) <= start <= vec_size g v - 1
                        /\ (-1) <= stop <= vec_size g v - 1
                        /\ Z.abs (stop - start) / step <= 0)).
Proof.
  intros Ho Hr Hs Hgen Hv Hn.
  assert (Hcall : __call__ t py_repr g self args kw
                  = (self', call_body g self' gen args kw)).
  { unfold __call__. rewrite decide_False by (by rewrite Ho; intros []).
    rewrite Hr, Hs. simpl. by rewrite Hgen. }
  rewrite Hcall. unfold call_body, getitem. rewrite Hv, Hs, Hr.
  cbn [attr mbind result_bind].
  split.
  - intros H0. unfold slice_indices. rewrite H0.
    rewrite decide_False by lia. simpl. done.
  - intros Hne.
    destruct (slice_indices sl (vec_size g v)) as [[[start stop] step]|e]
      eqn:E.
    2:{ unfold slice_indices in E. rewrite decide_False in E by lia.
        destruct (decide _) as [H0|]; [|done].
        destruct (sl_step sl) as [z|]; simpl in H0; [|done]. by subst. }
    destruct (slice_indices_bounds _ _ _ _ _ E) as (Hstep & _ & Hpos & Hneg).
    cbn [mbind result_bind sl_start sl_stop sl_step of_option].
    rewrite decide_False by done.
    destruct (splay g _) as [grid block] eqn:Esp.
    eexists start, stop, step, _. split; [done|]. split; [reflexivity|].
    cbn [l_args l_grid l_block]. split.
    { by rewrite given_of_zip. }
    split; [done|]. split; [done|].
    intros Hlt. destruct (Hneg Hlt) as [H1 H2]. split; [done|].
    split; [done|].
    rewrite <- Z.div_opp_opp by lia. apply Z.div_le_upper_bound; lia.
Qed.

(** A call without [range] and [slice], on a generated kernel: the first
    value that is paired with a vector descriptor decides.  Without one
    the call fails with IndexError; if it is an array, the call launches
    on the grid and block of that array, with the values that have a
    descriptor followed by the array's [mem_size] -- as many values as the
    kernel has parameters exactly when the caller gave one value for each
    declared argument; if it has no layout attributes (a bare device
    pointer), the call fails with AttributeError. *)
Theorem plain_call_follows_first_vector
    t py_repr g self args kw self' gen :
  ck_others kw = [] -> ck_range kw = None -> ck_slice kw = None ->
  generate_stride_kernel_and_types t py_repr self false = (self', Ok gen) ->
  let arguments := arguments_of self' (g_arguments gen) in
  let vectors :=
    map fst (filter (fun p => is_VectorArg (snd p) = true)
                    (zip args arguments)) in
  match vectors !! 0%nat with
  | None =>
      __call__ t py_repr g self args kw
      = (self', Failed (PyExn IndexError))
  | Some (ArrayArg v) =>
      exists l,
        __call__ t py_repr g self args kw = (self', Launch l)
        /\ l_func l = g_func gen
        /\ l_grid l = vec_grid g v /\ l_block l = vec_block g v
        /\ l_stream l = ck_stream kw
        /\ l_args l = map Given (take (length arguments) args)
                      ++ [PyInt (vec_mem_size g v)]
        /\ (length (l_args l) = length arguments
            <-> S (length args) = length arguments)
  | Some _ =>
      __call__ t py_repr g self args kw
      = (self', Failed (PyExn (AttributeError "_block")))
  end.
Proof.
  intros Ho Hr Hs Hgen arguments vectors.
  assert (Hcall : __call__ t py_repr g self args kw
                  = (self', call_body g self' gen args kw)).
  { unfold __call__. rewrite decide_False by (by rewrite Ho; intros []).
    rewrite Hr, Hs. simpl. by rewrite Hgen. }
  rewrite Hcall. unfold call_body, getitem.
  fold arguments. fold vectors. rewrite Hs, Hr.
  destruct (vectors !! 0%nat) as [[v| |z]|]; try done.
  cbn [attr mbind result_bind]. eexists. split; [reflexivity|].
  cbn [l_func l_grid l_block l_stream l_args].
  rewrite given_of_zip. repeat split; try done.
  - rewrite length_app, length_map, length_take. simpl. lia.
  - rewrite length_app, length_map, length_take. simpl. lia.
Qed.

(** ** The linear combination kernel *)

(** The loop over the first [k] summand descriptors. *)
Lemma lincomb_loop {dtype} (ctype : dtype -> bool -> string)
    (ds : list (bool * dtype * dtype)) :
  let st :=
    foldl (lincomb_body ctype)
      {| lc_args := [];
         lc_preamble := ["#include <pycuda-helpers.hpp>

"];
         lc_loop_prep := []; lc_summands := []; lc_tex_names := [] |}
      (imap pair ds) in
  map name (filter (fun a => is_VectorArg a = true) (lc_args st))
  = map (fun i => "x" +:+ pretty i) (seq 0 (length ds))
  /\ (forall nm, nm ∈ map name (lc_args st) ->
        exists i, (i < length ds)%nat
                  /\ (nm = "a" +:+ pretty i \/ nm = "x" +:+ pretty i))
  /\ NoDup (map name (lc_args st))
  /\ lc_tex_names st
     = map (fun i => "tex_a" +:+ pretty i)
           (filter (fun i => (fun d => fst (fst d)) <$> ds !! i = Some true)
                   (seq 0 (length ds)))
  /\ (length (lc_args st) + length (lc_tex_names st) = 2 * length ds)%nat
  /\ lc_summands st
     = map (fun i => "a" +:+ pretty i +:+ "*x" +:+ pretty i +:+ "[x"
                     +:+ pretty i +:+ "_i]")
           (seq 0 (length ds)).
Proof.
  induction ds as [|d ds IH] using rev_ind.
  - simpl. repeat split; try done.
    + intros nm H. by apply elem_of_nil in H.
    + constructor.
  - cbn zeta in *. rewrite imap_app, foldl_app. simpl.
    rewrite Nat.add_0_r.
    set (st := foldl _ _ (imap pair ds)) in *.
    destruct IH as (Hvec & Hnames & Hnd & Htex & Hlen & Hsum).
    rewrite length_app. simpl. rewrite Nat.add_1_r, seq_S. simpl.
    rewrite !map_app. simpl.
    assert (Hfilter :
      filter (fun i => (fun d0 => fst (fst d0)) <$> (ds ++ [d]) !! i
                       = Some true)
             (seq 0 (length ds) ++ [length ds])
      = filter (fun i => (fun d0 => fst (fst d0)) <$> ds !! i = Some true)
               (seq 0 (length ds))
        ++ (if fst (fst d) then [length ds] else [])).
    { rewrite filter_app. f_equal.
      - apply filter_ext_in. intros i Hi. apply elem_of_seq in Hi.
        by rewrite lookup_app_l by lia.
      - rewrite filter_cons, filter_nil.
        rewrite list_lookup_middle by done. simpl.
        destruct (fst (fst d)); [by rewrite decide_True|].
        by rewrite decide_False. }
    rewrite Hfilter. clear Hfilter.
    assert (Hfresh : forall nm i, nm ∈ map name (lc_args st) ->
              (nm = "a" +:+ pretty i \/ nm = "x" +:+ pretty i) ->
              (i < length ds)%nat).
    { intros nm i Hin Hor. destruct (Hnames nm Hin) as (j & Hj & Hj').
      assert (i = j); [|lia].
      destruct Hor as [->| ->], Hj' as [Hj'|Hj']; simpl in Hj';
        try discriminate; injection Hj' as Hj'; by apply (inj pretty). }
    destruct d as [[gpu sd] vd]. destruct gpu; simpl.
    + rewrite filter_app, !map_app. simpl.
      split; [by rewrite Hvec|]. split; [|split; [|split; [|split]]].
      * intros nm Hin. apply elem_of_app in Hin as [Hin|Hin].
        -- destruct (Hnames nm Hin) as (i & Hi & Hor). exists i.
           split; [lia|done].
        -- apply list_elem_of_singleton in Hin as ->.
           exists (length ds). split; [lia | by right].
      * apply NoDup_app. split; [done|]. split; [|apply NoDup_singleton].
        intros nm Hin Hin'. apply list_elem_of_singleton in Hin' as ->.
        pose proof (Hfresh _ (length ds) Hin (or_intror eq_refl)). lia.
      * by rewrite Htex.
      * rewrite !length_app. simpl. lia.
      * by rewrite Hsum.
    + rewrite !filter_app, !map_app. simpl. rewrite !app_nil_r.
      split; [by rewrite Hvec|]. split; [|split; [|split; [|split]]].
      * intros nm Hin. apply elem_of_app in Hin as [Hin|Hin].
        -- destruct (Hnames nm Hin) as (i & Hi & Hor). exists i.
           split; [lia|done].
        -- exists (length ds). split; [lia|].
           apply elem_of_cons in Hin as [->|Hin]; [by left|].
           apply list_elem_of_singleton in Hin as ->. by right.
      * apply NoDup_app. split; [done|]. split.
        -- intros nm Hin Hin'.
           assert (nm = "a" +:+ pretty (length ds)
                   \/ nm = "x" +:+ pretty (length ds)) as Hor.
           { apply elem_of_cons in Hin' as [->|Hin']; [by left|].
             apply list_elem_of_singleton in Hin' as ->. by right. }
           pose proof (Hfresh _ (length ds) Hin Hor). lia.
        -- apply NoDup_cons. split; [|apply NoDup_singleton].
           intros Hin. apply list_elem_of_singleton in Hin. discriminate.
      * by rewrite Htex.
      * rewrite !length_app. simpl. lia.
      * by rewrite Hsum.
Qed.

(** [get_linear_combination_kernel] always returns, also for no summand
    at all.  The arguments of its module have pairwise distinct names; its
    array arguments are [x0], [x1], ... in order, then [z]; each summand
    contributes either a scalar and a vector argument or a vector argument
    and a texture; and the operation adds up one product per summand (for
    no summand its right-hand side is empty). *)
Theorem linear_combination_kernel_is_well_formed {dtype}
    (t : tools) (ctype : dtype -> bool -> string) py_repr
    (ds : list (bool * dtype * dtype)) (dtype_z : dtype) :
  exists f texs,
    get_linear_combination_kernel t ctype py_repr ds dtype_z = Ok (f, texs)
    /\ NoDup (ia_arg_names (_init_args (fn_module f)))
    /\ _array_arg_names (fn_module f)
       = map (fun i => "x" +:+ pretty i) (seq 0 (length ds)) ++ ["z"%string]
    /\ NoDup (_array_arg_names (fn_module f))
    /\ texs
       = map (fun i => "tex_a" +:+ pretty i)
             (filter (fun i => (fun d => fst (fst d)) <$> ds !! i = Some true)
                     (seq 0 (length ds)))
    /\ (length (ia_arg_names (_init_args (fn_module f))) + length texs
        = 2 * length ds + 2)%nat
    /\ ia_operation (_init_args (fn_module f))
       = "z[z_i] = "
         +:+ join " + "
               (map (fun i => "a" +:+ pretty i +:+ "*x" +:+ pretty i +:+ "[x"
                               +:+ pretty i +:+ "_i]")
                    (seq 0 (length ds))).
Proof.
  unfold get_linear_combination_kernel.
  destruct (lincomb_loop ctype ds) as (Hvec & Hnames & Hnd & Htex & Hlen & Hsum).
  set (st := foldl _ _ (imap pair ds)) in *.
  set (args := lc_args st ++ _ ++ _).
  assert (Hargs : map name args
                  = map name (lc_args st) ++ ["z"; "n"]%string).
  { subst args. by rewrite !map_app. }
  assert (Hv : map name (filter (fun a => is_VectorArg a = true) args)
               = map (fun i => "x" +:+ pretty i) (seq 0 (length ds))
                 ++ ["z"%string]).
  { subst args. rewrite !filter_app, !map_app. simpl. by rewrite Hvec. }
  assert (Hndargs : NoDup (map name args)).
  { rewrite Hargs. apply NoDup_app. split; [done|]. split.
    - intros nm Hin Hin'. destruct (Hnames nm Hin) as (i & _ & Hor).
      apply elem_of_cons in Hin' as [->|Hin'].
      + by destruct Hor.
      + apply list_elem_of_singleton in Hin' as ->. by destruct Hor.
    - apply NoDup_cons. split; [|apply NoDup_singleton].
      intros Hin. by apply list_elem_of_singleton in Hin. }
  unfold get_elwise_module. cbn [kw_preamble kw_loop_prep kw_after_loop
    kw_do_range kw_shape_arg_index kw_array_arg_inds kw_do_indices kw_order
    kw_debug default from_option].
  match goal with
  | |- context [__init__ ?r ?a ?o ?n ?p ?lp ?al ?dr None None ?di ?ord ?dbg] =>
      destruct (init_defaults r a o n p lp al dr di ord dbg)
        as [_ Hsome]
  end.
  destruct Hsome as (self & v & Hinit & Hanames & _).
  { intros Hnil. apply (f_equal (map name)) in Hnil. rewrite Hv in Hnil.
    by destruct (map _ (seq 0 (length ds))). }
  rewrite Hinit. cbn [mbind result_bind].
  pose proof (init_fields _ _ _ _ _ _ _ _ _ _ _ _ _ _ Hinit)
    as (_ & _ & Hia & _).
  assert (Hop : ia_operation (_init_args self)
                = "z[z_i] = " +:+ join " + " (lc_summands st)).
  { clear -Hinit. unfold __init__ in Hinit.
    apply bind_Ok in Hinit as (_ & _ & H). apply bind_Ok in H as (i & _ & H).
    apply bind_Ok in H as (ns & _ & H). by injection H as <-. }
  eexists _, _. split; [reflexivity|]. cbn [fn_module].
  rewrite Hia, Hanames, Hv, Hop, Hsum, Htex.
  split; [done|]. split; [done|]. split.
  { rewrite <- Hv.
    apply (NoDup_fmap_2_strong name); [|].
    - intros a b Ha Hb Hab.
      apply list_elem_of_filter in Ha as [_ Ha], Hb as [_ Hb].
      apply list_elem_of_lookup in Ha as (ia & Ha), Hb as (ib & Hb).
      assert (ia = ib).
      { apply (NoDup_lookup _ _ _ (name a) Hndargs).
        - by rewrite list_lookup_fmap, Ha.
        - by rewrite list_lookup_fmap, Hb, Hab. }
      subst. congruence.
    - apply NoDup_filter. by apply (NoDup_fmap_1 name). }
  split; [done|]. split; [|done].
  rewrite Hargs, length_app, length_map, length_map. simpl.
  rewrite Htex, length_map in Hlen. lia.
Qed.

(** ** Contiguous arrays on the slow path *)

(** The element strides of the plan, from the strides of the key. *)
Lemma make_plan_elemstrides names precalc grid block p ais j info :
  make_plan names precalc grid block = Ok p ->
  sig_arrayitemstrides precalc = Some ais ->
  arrayarginfos (plan_names p) !! j = Some info ->
  exists nm isz strides,
    names !! j = Some nm /\ ais !! j = Some (isz, strides)
    /\ ai_name info = nm
    /\ ai_elemstrides info
       = map (fun s => np_floordiv s isz)
           (slice_assign (replicate (ndim p) 0) (length strides)
              (if default false (sig_do_reverse precalc)
               then reverse strides else strides)).
Proof.
  intros H Hais Hj. unfold make_plan in H. rewrite Hais in H.
  cbn [mbind result_bind] in H.
  apply bind_Ok in H as (nd & _ & H).
  apply bind_Ok in H as (b0 & _ & H).
  apply bind_Ok in H as (g0 & _ & H).
  apply bind_Ok in H as (st & Hst & H). injection H as <-.
  cbn [plan_names ndim] in *.
  set (rev := default false (sig_do_reverse precalc)) in *.
  set (es := fun (a : string * Z * list Z) =>
               (a.1.1,
                map (fun s => np_floordiv s a.1.2)
                    (slice_assign (replicate nd 0) (length a.2)
                       (if rev then reverse a.2 else a.2)))).
  assert (HP : map (fun info => (ai_name info, ai_elemstrides info))
                   (arrayarginfos st)
               = map es (map (fun '(arg_name, itemstride) =>
                                (arg_name, itemstride.1, itemstride.2))
                             (zip names ais))).
  { revert Hst.
    apply (for_loop_prefix_invariant _
             (fun done st =>
                map (fun info => (ai_name info, ai_elemstrides info))
                    (arrayarginfos st) = map es done)); [done|].
    intros done x s1 s' Hs1 Hb. unfold arginfo_body in Hb.
    destruct x as [[arg_name arg_itemsize] arg_strides].
    apply bind_Ok in Hb as (de & _ & Hb). apply bind_Ok in Hb as (be & _ & Hb).
    apply bind_Ok in Hb as ([ind ref] & _ & Hb). injection Hb as <-.
    cbn [arrayarginfos]. rewrite !map_app, Hs1. simpl. f_equal.
    unfold es. simpl. by destruct rev. }
  apply (f_equal (fun l => l !! j)) in HP.
  rewrite !list_lookup_fmap, Hj in HP. simpl in HP.
  destruct (zip names ais !! j) as [[nm [isz strides]]|] eqn:Ez; [|done].
  simpl in HP. injection HP as Hn He.
  apply lookup_zip_with_Some in Ez as (nm' & is' & [= <- <-] & Hnm & His).
  by exists nm, isz, strides.
Qed.

(** An array whose byte strides, in traversal order, are those of a
    contiguous array of the canonical shape -- the item size times the
    product of the sizes of the dimensions before: a Fortran-contiguous
    array traversed as it lies, or a C-contiguous one traversed in
    reverse -- reads, at every iteration within the extent, the flat
    position itself: the slow path gives it the index of the fast path. *)
Theorem contiguous_array_reads_flat_position
    self precalc grid block names src shape ais b g j nm isz strides
    start k :
  for_each (getitem (ia_arg_names (_init_args self))) (_array_arg_inds self)
  = Ok names ->
  NoDup names ->
  create_source self precalc grid block = Ok (SourceDeferred src) ->
  sig_shape precalc = Some shape -> Forall (fun n => 0 < n) shape ->
  sig_arrayitemstrides precalc = Some ais ->
  names !! j = Some nm -> ais !! j = Some (isz, strides) -> 0 < isz ->
  (if default false (sig_do_reverse precalc) then reverse strides
   else strides)
  = map (fun d => isz * prod (take d (traversal_shape precalc)))
        (seq 0 (length shape)) ->
  block !! 0%nat = Some b -> grid !! 0%nat = Some g ->
  0 <= b * g -> 0 <= start ->
  start + Z.of_nat k * (b * g) < prod shape ->
  exists st,
    run_odometer src start k = Some st
    /\ array_offset src st nm = Some (start + Z.of_nat k * (b * g)).
Proof.
  intros Hnames Hnd Hsrc Hshape Hpos Hais Hnm Hj Hisz Hstr Hb Hg Ht Hs Hlt.
  destruct (run_offsets _ _ _ _ _ _ _ _ _ _ k Hnames Hnd Hsrc Hshape Hpos
              Hb Hg Ht Hs Hlt) as (p & st & Hp & _ & Hrun & _ & Hoff).
  exists st. split; [done|].
  destruct (make_plan_Ok _ _ _ _ _ Hp)
    as (b0 & g0 & _ & _ & _ & Hsh & Hndim & _ & Hpok).
  assert (Hlen : length (traversal_shape precalc) = length shape).
  { unfold traversal_shape. rewrite Hshape. simpl.
    destruct (default false _); [apply length_reverse | done]. }
  assert (Hinfo : exists info, arrayarginfos (plan_names p) !! j = Some info).
  { apply lookup_lt_is_Some.
    destruct (make_plan_dedup _ _ _ _ _ Hnd Hp) as [_ _].
    assert (Hl : length (arrayarginfos (plan_names p))
                 = length (zip names ais)).
    { clear -Hp Hais. unfold make_plan in Hp. rewrite Hais in Hp.
      cbn [mbind result_bind] in Hp.
      apply bind_Ok in Hp as (nd & _ & Hp).
      apply bind_Ok in Hp as (b0 & _ & Hp).
      apply bind_Ok in Hp as (g0 & _ & Hp).
      apply bind_Ok in Hp as (st & Hst & Hp). injection Hp as <-. simpl.
      revert Hst. rewrite <- (length_map (fun '(arg_name, itemstride) =>
                                 (arg_name, itemstride.1, itemstride.2))).
      apply (for_loop_prefix_invariant _
               (fun done st => length (arrayarginfos st) = length done));
        [done|].
      intros done x s1 s' Hs1 Hb. unfold arginfo_body in Hb.
      destruct x as [[arg_name arg_itemsize] arg_strides].
      apply bind_Ok in Hb as (de & _ & Hb).
      apply bind_Ok in Hb as (be & _ & Hb).
      apply bind_Ok in Hb as ([ind ref] & _ & Hb). injection Hb as <-.
      cbn [arrayarginfos]. rewrite !length_app, Hs1. done. }
    rewrite Hl, length_zip_with.
    apply lookup_lt_Some in Hnm, Hj. lia. }
  destruct Hinfo as (info & Hinfo).
  destruct (make_plan_elemstrides _ _ _ _ _ _ _ _ Hp Hais Hinfo)
    as (nm' & isz' & strides' & Hnm' & Hj' & Hname & Hes).
  assert (nm' = nm) as -> by congruence.
  assert (isz' = isz /\ strides' = strides) as [-> ->]
    by (split; congruence).
  rewrite <- Hname, (Hoff j info Hinfo). f_equal.
  destruct (traversal_shape_pos _ _ Hshape Hpos) as [Hpos' Hprod].
  rewrite (direct_offset_weights _ _ 1); [| done |].
  - rewrite Hprod, Z.mod_small; [lia|].
    assert (0 <= Z.of_nat k * (b * g)) by (apply Z.mul_nonneg_nonneg; lia).
    lia.
  - intros d Hd. rewrite Hes, Hstr.
    assert (Hls : length strides = length shape).
    { apply (f_equal length) in Hstr.
      rewrite length_map, length_seq in Hstr.
      destruct (default false _); [by rewrite length_reverse in Hstr|done]. }
    unfold slice_assign. rewrite Hls, Hndim, Hsh, Hlen.
    rewrite drop_ge by (by rewrite length_replicate).
    rewrite app_nil_r, <- list_fmap_compose, list_lookup_fmap.
    rewrite lookup_seq_lt by lia. simpl. f_equal.
    rewrite np_floordiv_eq, Z.mul_comm, Z.div_mul by lia. lia.
Qed.

(** ** The slow path returns a source *)

Lemma for_each_total {A B} (f : A -> result B) l :
  (forall x, x ∈ l -> exists y, f x = Ok y) ->
  exists ys, for_each f l = Ok ys.
Proof.
  induction l as [|a l IH]; intros H; [by eexists|].
  destruct (H a ltac:(by left)) as (y & Hy).
  destruct IH as (ys & Hys); [intros x Hx; apply H; by right|].
  exists (y :: ys). cbn [for_each]. rewrite Hy. cbn [mbind result_bind].
  by rewrite Hys.
Qed.

Lemma emit_values_total mk vals nd :
  (nd <= length vals)%nat ->
  exists ds, for_each (emit_one mk vals) (seq 0 nd) = Ok ds.
Proof.
  intros Hl. apply for_each_total. intros d Hd. apply elem_of_seq in Hd.
  unfold emit_one, getitem.
  destruct (lookup_lt_is_Some_2 vals d ltac:(lia)) as (v & ->).
  by eexists.
Qed.

Lemma np_mul_same_length xs ys :
  length xs = length ys ->
  np_mul xs ys = Ok (zip_with Z.mul xs ys).
Proof. intros H. unfold np_mul. by rewrite decide_True. Qed.

(** One step of the planning loop on an array with no more strides than
    the shape has dimensions. *)
Lemma arginfo_body_total nd do_reverse shape bs st nm isz strides :
  length shape = nd -> length bs = nd -> (length strides <= nd)%nat ->
  Forall (info_sized nd) (arrayarginfos st) ->
  exists st',
    arginfo_body nd do_reverse shape bs st (nm, isz, strides) = Ok st'
    /\ Forall (info_sized nd) (arrayarginfos st').
Proof.
  intros Hls Hlb Hl Hsz. unfold arginfo_body.
  set (strides' := if do_reverse
                   then slice_assign (replicate nd 0) (length strides)
                          (reverse strides)
                   else slice_assign (replicate nd 0) (length strides)
                          strides).
  set (es := map (fun s => np_floordiv s isz) strides').
  assert (Hes : length es = nd).
  { subst es strides'. rewrite length_map. unfold slice_assign.
    destruct do_reverse;
      rewrite length_app, length_drop, length_replicate, ?length_reverse;
      lia. }
  rewrite (np_mul_same_length es shape) by lia.
  rewrite (np_mul_same_length es bs) by lia.
  cbn [mbind result_bind].
  assert (Hnew : info_sized nd
            {| ai_name := nm; ai_elemstrides := es;
               ai_dimelemstrides := zip_with Z.mul es shape;
               ai_blockelemstrides := zip_with Z.mul es bs;
               ai_inforef := find_inforef es (arrayarginfos st) |}).
  { repeat split; simpl; rewrite ?length_zip_with; lia. }
  destruct (find_inforef es (arrayarginfos st)) as [r|] eqn:Er.
  - apply find_inforef_Some in Er as (info & Hr & _).
    unfold getitem. rewrite Hr. cbn [mbind result_bind].
    eexists. split; [reflexivity|]. simpl.
    apply Forall_app. split; [done|]. by apply Forall_singleton.
  - cbn [mbind result_bind]. eexists. split; [reflexivity|]. simpl.
    apply Forall_app. split; [done|]. by apply Forall_singleton.
Qed.

Lemma emit_info_defines_total nd info :
  info_sized nd info -> exists ds, emit_info_defines nd info = Ok ds.
Proof.
  intros (He & Hd & Hb). unfold emit_info_defines, emit_arr_defines.
  destruct (emit_values_total (ArrMacro "ELEMSTRIDE" (ai_name info))
              (ai_elemstrides info) nd ltac:(lia)) as (d1 & ->).
  destruct (emit_values_total (ArrMacro "DIMELEMSTRIDE" (ai_name info))
              (ai_dimelemstrides info) nd ltac:(lia)) as (d2 & ->).
  destruct (emit_values_total (ArrMacro "BLOCKELEMSTRIDE" (ai_name info))
              (ai_blockelemstrides info) nd ltac:(lia)) as (d3 & ->).
  by eexists.
Qed.

(** A slow-path call of [create_source] returns a source when the shape
    and the strides are there, no array has more strides than the shape
    has dimensions, and grid and block have a first component. *)
Lemma create_source_slow_total self p grid block names sh ais b g :
  for_each (getitem (ia_arg_names (_init_args self))) (_array_arg_inds self)
  = Ok names ->
  sig_contigmatch p && negb (_do_indices self) = false ->
  sig_shape p = Some sh -> sig_arrayitemstrides p = Some ais ->
  Forall (fun a => (length (snd a) <= length sh)%nat) ais ->
  block !! 0%nat = Some b -> grid !! 0%nat = Some g ->
  exists src, create_source self p grid block = Ok (SourceDeferred src).
Proof.
  intros Hnames Hslow Hsh Hais Hlens Hb Hg.
  unfold create_source. rewrite Hnames. cbn [mbind result_bind].
  rewrite Hslow.
  assert (Hplan : exists pl,
            make_plan names p grid block = Ok pl
            /\ ndim pl = length (plan_shape pl)
            /\ length (block_step pl) = ndim pl
            /\ Forall (info_sized (ndim pl)) (arrayarginfos (plan_names pl))).
  { unfold make_plan, len, getitem. rewrite Hais, Hsh, Hb, Hg.
    set (rev := default false (sig_do_reverse p)).
    cbn [mbind result_bind default from_option].
    change (id sh) with sh.
    set (shape := if rev then reverse sh else sh).
    assert (Hshl : length shape = length sh).
    { subst shape. destruct rev; [apply length_reverse | done]. }
    destruct (for_loop_total
                (arginfo_body (length sh) rev shape
                   (calc_block_step shape (b * g)))
                (fun st => Forall (info_sized (length sh)) (arrayarginfos st))
                (map (fun '(arg_name, itemstride) =>
                        (arg_name, itemstride.1, itemstride.2))
                     (zip names ais))
                {| arrayindnames := []; arrayrefnames := [];
                   arrayarginfos := [] |})
      as (st & Hst & Hsz).
    - constructor.
    - intros s [[nm isz] strides] Hs Hin.
      apply list_elem_of_fmap in Hin as ([nm' [isz' str']] & [= -> -> ->] & Hin).
      apply elem_of_zip_r in Hin. simpl in Hin.
      rewrite Forall_forall in Hlens. specialize (Hlens _ Hin).
      simpl in Hlens.
      apply arginfo_body_total; try done.
      by rewrite calc_block_step_length.
    - rewrite Hst. cbn [mbind result_bind]. eexists. split; [reflexivity|].
      cbn [ndim plan_shape block_step plan_names].
      split; [done|]. split; [|done].
      by rewrite calc_block_step_length. }
  destruct Hplan as (pl & -> & Hnd & Hbs & Hsz). cbn [mbind result_bind].
  assert (Hemit : exists src, emit self pl = Ok src).
  { unfold emit.
    assert (Hdefs : exists defs, emit_defines (_do_indices self) pl = Ok defs).
    { unfold emit_defines, emit_dim_defines.
      destruct (emit_values_total (DimMacro "SHAPE") (plan_shape pl) (ndim pl)
                  ltac:(lia)) as (d1 & ->).
      destruct (emit_values_total (DimMacro "BLOCK_STEP") (block_step pl)
                  (ndim pl) ltac:(lia)) as (d2 & ->).
      cbn [mbind result_bind].
      destruct (for_each_total (emit_info_defines (ndim pl))
                  (arrayarginfos (plan_names pl))) as (d3 & ->).
      { intros info Hin. rewrite Forall_forall in Hsz.
        by apply emit_info_defines_total, Hsz. }
      by eexists. }
    destruct Hdefs as (defs & ->). cbn [mbind result_bind].
    destruct (_debug self); [|by eexists].
    assert (Hmax : forall info, info ∈ arrayarginfos (plan_names pl) ->
              exists m, maxoffset (plan_shape pl) (ai_elemstrides info) = Ok m).
    { intros info Hin. rewrite Forall_forall in Hsz.
      destruct (Hsz info Hin) as (He & _). unfold maxoffset.
      rewrite np_mul_same_length by (rewrite length_map; lia).
      by eexists. }
    unfold emit_debug_calc, emit_indtest.
    destruct (for_each_total
                (fun info =>
                   m ← maxoffset (plan_shape pl) (ai_elemstrides info);
                   Ok (DebugArray (ia_name (_init_args self)) (ai_name info) m
                                  (ai_name info)))
                (arrayarginfos (plan_names pl))) as (arrs & ->).
    { intros info Hin. destruct (Hmax info Hin) as (m & ->). by eexists. }
    cbn [mbind result_bind].
    destruct (for_each_total
                (fun info =>
                   m ← maxoffset (plan_shape pl) (ai_elemstrides info);
                   Ok (IndTest (ai_name info) m (ai_name info) (ndim pl)))
                (filter (fun info => ai_inforef info = None)
                        (arrayarginfos (plan_names pl)))) as (tests & ->).
    { intros info Hin. apply list_elem_of_filter in Hin as [_ Hin].
      destruct (Hmax info Hin) as (m & ->). by eexists. }
    by eexists. }
  destruct Hemit as (src & ->). by eexists.
Qed.

Lemma for_each_elem_inv {A B} (f : A -> result B) l ys y :
  for_each f l = Ok ys -> y ∈ ys -> exists x, x ∈ l /\ f x = Ok y.
Proof.
  revert ys. induction l as [|a l IH]; intros ys H Hy.
  - cbn [for_each] in H. injection H as <-. by apply elem_of_nil in Hy.
  - cbn [for_each] in H. apply bind_Ok in H as (y0 & Hy0 & H).
    apply bind_Ok in H as (ys' & Hys & H). injection H as <-.
    apply elem_of_cons in Hy as [->|Hy].
    + exists a. split; [by left | done].
    + destruct (IH ys' Hys Hy) as (x & Hx & Hfx).
      exists x. split; [by right | done].
Qed.

(** Key and source compose on the slow path.  When [create_key] (with
    the classifier of this module) returns a tuple key, [create_source]
    called with the value it returned beside the key returns a deferred
    source: no step of the planning or of the emission raises.  This holds
    when every array index has a name, the shape-defining argument is among
    the arrays, and each array argument has one stride for each of its
    dimensions and no more dimensions than the shape-defining one. *)
Theorem tuple_key_has_a_source self grid block args k p sa :
  create_key py_precalc_array_info self grid block args
  = Ok (KeyTuple k, p) ->
  (forall i, i ∈ _array_arg_inds self ->
     (i < length (ia_arg_names (_init_args self)))%nat) ->
  _shape_arg_index self ∈ _array_arg_inds self ->
  args !! _shape_arg_index self = Some (ArrayArg sa) ->
  (forall i a, i ∈ _array_arg_inds self -> args !! i = Some (ArrayArg a) ->
     length (strides a) = length (shape a)
     /\ (length (shape a) <= length (shape sa))%nat) ->
  exists src, create_source self p grid block = Ok (SourceDeferred src).
Proof.
  intros H Hnamed Hsin Hsa Hwf.
  unfold create_key, py_precalc_array_info in H.
  apply bind_Ok in H as ([args' info] & E & H).
  destruct (precalc_array_info_Ok _ _ _ _ _ E)
    as (st & Hloop & Harr & _ & Hcm & Hasi & Hshape & Hais).
  destruct (classifier_loop _ _ _ _ Harr Hloop)
    as (Hasi_true & Hargs & Hsh & _).
  rewrite Hasi, Hasi_true in H. cbn [negb] in H.
  rewrite orb_false_r in H.
  destruct (contigmatch info && negb (_do_indices self)) eqn:Ec; [done|].
  apply bind_Ok in H as (g1 & Hg1 & H).
  apply bind_Ok in H as (u1 & _ & H).
  apply bind_Ok in H as (b1 & Hb1 & H).
  apply bind_Ok in H as (u2 & _ & H).
  apply bind_Ok in H as (b2 & _ & H).
  apply bind_Ok in H as (u3 & _ & H).
  apply bind_Ok in H as (nd & _ & H).
  apply bind_Ok in H as (rev & _ & H).
  injection H as _ Hp. subst p.
  assert (Hg : exists g, grid !! 0%nat = Some g).
  { unfold getitem in Hg1. destruct grid as [|g grid]; [done|]. by exists g. }
  assert (Hb : exists b, block !! 0%nat = Some b).
  { unfold getitem in Hb1. destruct block as [|b block]; [done|].
    by exists b. }
  destruct Hg as (g & Hg). destruct Hb as (b & Hb).
  destruct (for_each_total (getitem (ia_arg_names (_init_args self)))
              (_array_arg_inds self)) as (names & Hnames).
  { intros i Hi. unfold getitem.
    destruct (lookup_lt_is_Some_2 (ia_arg_names (_init_args self)) i
                (Hnamed i Hi)) as (nm & ->).
    by eexists. }
  apply (create_source_slow_total self _ grid block names (shape sa)
           (arrayitemstrides info) b g); cbn [sig_contigmatch sig_shape
           sig_arrayitemstrides]; try done.
  - rewrite Hshape. by apply (Hsh (_shape_arg_index self) sa).
  - apply Forall_forall. intros [isz str] Hin.
    destruct (for_each_elem_inv _ _ _ _ Hais Hin) as (i & Hi & Hf).
    destruct (Harr i Hi) as (a & Ha).
    specialize (Hargs i a Ha). rewrite decide_True in Hargs by done.
    destruct Hargs as (ns & Hns & Hst).
    unfold getitem in Hf. rewrite Hst in Hf.
    cbn [mbind result_bind attr_itemsize attr_strides with_strides strides]
      in Hf.
    injection Hf as _ <-. cbn [snd].
    destruct (Hwf i a Hi Ha) as (Hl & Hle).
    unfold normalized_strides in Hns.
    rewrite np_mul_same_length in Hns by (by rewrite length_map).
    injection Hns as <-. rewrite length_zip_with, length_map. lia.
Qed.

(** ** The further theorems at the examples *)

(** The column-major [y] of the addition over [mixed_args]: the thread
    that starts at position 1 reads [y] at offset 7 one round later. *)
Lemma column_major_y_reads_flat_position :
  exists st,
    run_odometer mixed_source 1 1 = Some st
    /\ array_offset mixed_source st "y" = Some (1 + Z.of_nat 1 * (3 * 2)).
Proof.
  apply (contiguous_array_reads_flat_position
           add_module mixed_precalc [2; 1] [3; 1; 1]
           ["x"; "y"; "z"]%string mixed_source [3; 4]
           [(4, [16; 4]); (4, [4; 12]); (4, [16; 4])] 3 2
           1%nat "y"%string 4 [4; 12] 1 1).
  - reflexivity.
  - apply (bool_decide_unpack _). reflexivity.
  - vm_compute. reflexivity.
  - reflexivity.
  - repeat constructor.
  - reflexivity.
  - reflexivity.
  - reflexivity.
  - lia.
  - reflexivity.
  - reflexivity.
  - reflexivity.
  - lia.
  - lia.
  - vm_compute. reflexivity.
Defined.

(** Positions 1 and 7 of the shape (3, 4). *)
Lemma indices_of_positions_1_and_7 :
  exists st1 st2,
    run_calc mixed_source 1 = Some st1 /\ run_calc mixed_source 7 = Some st2
    /\ INDEX st1 <> INDEX st2.
Proof.
  apply (distinct_positions_distinct_indices
           add_module mixed_precalc [2; 1] [3; 1; 1] mixed_source [3; 4]
           1 7).
  - vm_compute. reflexivity.
  - reflexivity.
  - repeat constructor.
  - vm_compute. split; [discriminate | reflexivity].
  - vm_compute. split; [discriminate | reflexivity].
  - discriminate.
Defined.


(** The block steps of 6 threads over the shape (3, 4): 0 and 2, which
    make 0 * 1 + 2 * 3 = 6. *)
Lemma block_steps_of_six_threads :
  let sh := traversal_shape mixed_precalc in
  let bs := calc_block_step sh (3 * 2) in
  (forall d x, bs !! d = Some x ->
     macro_value (src_defines mixed_source) (DimMacro "BLOCK_STEP" d)
     = Some x)
  /\ direct_offset (map (fun d => prod (take d sh)) (seq 0 (length sh))) bs
     = (3 * 2) mod prod [3; 4].
Proof.
  apply (block_steps_recompose
           add_module mixed_precalc [2; 1] [3; 1; 1] mixed_source [3; 4] 3 2).
  - vm_compute. reflexivity.
  - reflexivity.
  - repeat constructor.
  - reflexivity.
  - reflexivity.
Defined.

(** The addition called with arguments the classifier cannot inspect. *)
Lemma fast_key_of_pointers_has_no_source :
  exists p,
    create_key pointer_classifier add_module [2; 1] [3; 1; 1]
               [DeviceAllocation; DeviceAllocation; DeviceAllocation;
                ScalarValue 5]
    = Ok (KeyStr (simple_repr (_init_args add_module)), p)
    /\ create_source add_module p [2; 1] [3; 1; 1] = Raise TypeError.
Proof.
  apply (fast_key_without_layout_has_no_source
           pointer_classifier simple_repr add_arguments add_operation
           "add" "" "" "" false None None "K" false add_module
           [2; 1] [3; 1; 1]
           [DeviceAllocation; DeviceAllocation; DeviceAllocation;
            ScalarValue 5]
           [DeviceAllocation; DeviceAllocation; DeviceAllocation;
            ScalarValue 5]
           {| contigmatch := false; arrayspecificinds := false;
              canonical_shape := Some [5]; arrayitemstrides := [] |}).
  - reflexivity.
  - reflexivity.
  - reflexivity.
  - reflexivity.
Defined.

(** Arrays of shapes (4, 4) and (4, 3), with the second designated. *)
Lemma canonical_shape_of_4x4_and_4x3 :
  canonical_shape
    {| contigmatch := true; arrayspecificinds := true;
       canonical_shape := Some [4; 3];
       arrayitemstrides := [(4, [16; 4]); (4, [12; 4])] |}
  = Some (shape {| shape := [4; 3]; strides := [12; 4]; itemsize := 4;
                   f_contiguous := false; c_contiguous := true |}).
Proof.
  apply (canonical_shape_is_designated [0; 1]%nat
           [c_array_4x4; c_array_4x3] 1%nat
           [c_array_4x4; c_array_4x3]).
  - reflexivity.
  - apply (bool_decide_unpack _). reflexivity.
  - reflexivity.
Defined.

(** The arrays of [mixed_args]: two orders, no contiguity match. *)
Lemma contigmatch_of_mixed_args :
  contigmatch
    {| contigmatch := false; arrayspecificinds := true;
       canonical_shape := Some [3; 4];
       arrayitemstrides := [(4, [16; 4]); (4, [4; 12]); (4, [16; 4])] |}
  = true
  <-> exists o, o <> "N"%string
        /\ forall i, i ∈ [0; 1; 2]%nat ->
             exists a, mixed_args !! i = Some (ArrayArg a)
                       /\ array_order a = o.
Proof.
  apply (contigmatch_iff_one_order [0; 1; 2]%nat mixed_args (Some 0%nat)
           mixed_args).
  reflexivity.
Defined.

(** A row vector of shape (1, 4): the stride of its first dimension is
    zeroed. *)
Lemma strides_of_a_row_vector :
  exists ns,
    normalized_strides [1; 4] [16; 4] = Ok ns
    /\ [float_array [1; 4] [0; 4] true true; c_array_4x4] !! 0%nat
       = Some (ArrayArg
                 (with_strides
                    {| shape := [1; 4]; strides := [16; 4]; itemsize := 4;
                       f_contiguous := true; c_contiguous := true |} ns))
    /\ [(4, [0; 4]); (4, [16; 4])] !! 0%nat = Some (4, ns)
    /\ (length [16; 4] = length [1; 4] ->
        forall d s t, [1; 4] !! d = Some s -> [16; 4] !! d = Some t ->
          ns !! d = Some (if 1 <? s then t else 0)).
Proof.
  apply (unit_dimension_strides_are_zeroed [0; 1]%nat
           [row_vector_4; c_array_4x4] (Some 1%nat)
           [float_array [1; 4] [0; 4] true true; c_array_4x4]
           {| contigmatch := false; arrayspecificinds := true;
              canonical_shape := Some [4; 4];
              arrayitemstrides := [(4, [0; 4]); (4, [16; 4])] |}
           0%nat 0%nat
           {| shape := [1; 4]; strides := [16; 4]; itemsize := 4;
              f_contiguous := true; c_contiguous := true |}).
  - reflexivity.
  - reflexivity.
  - reflexivity.
Defined.

(** The row-major [x] of [mixed_args] under ['K']. *)
Lemma order_K_on_mixed_args :
  sig_do_reverse mixed_precalc = Some false.
Proof.
  apply (order_K_keeps_matrices_unreversed
           py_precalc_array_info add_module [2; 1] [3; 1; 1] mixed_args
           mixed_args
           {| contigmatch := false; arrayspecificinds := true;
              canonical_shape := Some [3; 4];
              arrayitemstrides := [(4, [16; 4]); (4, [4; 12]); (4, [16; 4])] |}
           {| shape := [3; 4]; strides := [16; 4]; itemsize := 4;
              f_contiguous := false; c_contiguous := true |}
           [3; 4] mixed_precalc mixed_precalc).
  - reflexivity.
  - reflexivity.
  - reflexivity.
  - reflexivity.
  - reflexivity.
  - simpl. lia.
  - reflexivity.
Defined.

(** Kernels generated without keywords, plain and range. *)
Lemma plain_kernel_has_a_vector_argument :
  (forall a' m f l,
     get_elwise_kernel_and_types example_tools simple_repr
       (ArgList copy_arguments) "z[z_i] = x[x_i]" "copy" false no_kwargs
     = (a', Ok (m, f, l)) ->
     filter (fun a => is_VectorArg a = true) l <> [])
  /\ (forall l0,
        ArgList copy_arguments = ArgList l0 ->
        filter (fun a => is_VectorArg a = true) l0 = [] ->
        (false = true -> kw_do_range no_kwargs = None) ->
        exists l,
          get_elwise_kernel_and_types example_tools simple_repr
            (ArgList copy_arguments) "z[z_i] = x[x_i]" "copy" false no_kwargs
          = (ArgList l, Raise IndexError)
          /\ length l = (length l0 + 1)%nat).
Proof.
  apply (generated_kernel_has_a_vector_argument example_tools simple_repr
           (ArgList copy_arguments) "z[z_i] = x[x_i]" "copy" false
           no_kwargs).
  - reflexivity.
  - reflexivity.
Defined.

(** [copy_kernel], generated plain and then for a range. *)
Lemma copy_kernel_arguments_are_extended :
  let n := ScalarArg (uintp example_tools) "n" in
  let range_args := [ScalarArg (intp example_tools) "start";
                     ScalarArg (intp example_tools) "stop";
                     ScalarArg (intp example_tools) "step"] in
  arguments_of copy_kernel_1 (g_arguments copy_generated_1)
  = copy_arguments ++ [n]
  /\ ek_arguments copy_kernel_2
     = ArgList (copy_arguments ++ [n] ++ range_args)
  /\ arguments_of copy_kernel_2 (g_arguments copy_generated_2)
     = copy_arguments ++ [n] ++ range_args
  /\ arguments_of copy_kernel_2 (g_arguments copy_generated_1)
     = copy_arguments ++ [n] ++ range_args
  /\ ia_arg_names (_init_args (g_mod copy_generated_2))
     = map name (copy_arguments ++ [n] ++ range_args)
  /\ fn_prepared (g_func copy_generated_1)
     = String.concat "" (map (struct_char example_tools)
                             (copy_arguments ++ [n]))
  /\ ek_memo copy_kernel_2 false = Some copy_generated_1
  /\ ek_memo copy_kernel_2 true = Some copy_generated_2.
Proof.
  apply (list_arguments_are_extended_in_place example_tools simple_repr
           copy_arguments "z[z_i] = x[x_i]" "copy" no_kwargs
           copy_kernel_1 copy_generated_1 copy_kernel_2 copy_generated_2).
  - reflexivity.
  - reflexivity.
Defined.

(** [copy_kernel_str], generated plain and then for a range. *)
Lemma copy_kernel_str_variants :
  exists l,
    for_each (parse_c_arg example_tools) (split comma "x,z") = Ok l
    /\ let plain := l ++ [ScalarArg (uintp example_tools) "n"] in
       let ranged := l ++ [ScalarArg (intp example_tools) "start";
                           ScalarArg (intp example_tools) "stop";
                           ScalarArg (intp example_tools) "step"] in
       arguments_of copy_kernel_str_2 (g_arguments copy_generated_str_1)
       = (if false then ranged else plain)
       /\ arguments_of copy_kernel_str_2 (g_arguments copy_generated_str_2)
          = (if false then plain else ranged)
       /\ ek_arguments copy_kernel_str_2 = ArgStr "x,z".
Proof.
  apply (string_arguments_are_parsed_anew example_tools simple_repr
           "x,z" "z[z_i] = x[x_i]" "copy" no_kwargs false
           copy_kernel_str_1 copy_generated_str_1
           copy_kernel_str_2 copy_generated_str_2).
  - reflexivity.
  - reflexivity.
Defined.

(** [copy_kernel] called with [range=slice(0, 5)]. *)
Lemma range_0_5_never_launches :
  exists e,
    snd (__call__ example_tools simple_repr example_gpuarray copy_kernel
           [c_vector_5; c_vector_5] (range_call (Some 0) (Some 5) None))
    = Failed e.
Proof.
  apply (range_without_step_never_launches example_tools simple_repr
           example_gpuarray copy_kernel [c_vector_5; c_vector_5]
           (range_call (Some 0) (Some 5) None)
           {| sl_start := Some 0; sl_stop := Some 5; sl_step := None |}).
  - reflexivity.
  - reflexivity.
Defined.

(** [copy_kernel] called with [slice=slice(None, None, -1)] on vectors of
    five elements. *)
Lemma reversed_slice_of_five :
  (sl_step {| sl_start := None; sl_stop := None; sl_step := Some (-1) |}
   = Some 0 ->
   __call__ example_tools simple_repr example_gpuarray copy_kernel
     [c_vector_5; c_vector_5] (slice_call None None (Some (-1)))
   = (copy_kernel_range, Failed (PyExn ValueError)))
  /\ (sl_step {| sl_start := None; sl_stop := None; sl_step := Some (-1) |}
      <> Some 0 ->
      exists start stop step l,
        slice_indices
          {| sl_start := None; sl_stop := None; sl_step := Some (-1) |}
          (vec_size example_gpuarray
             {| shape := [5]; strides := [4]; itemsize := 4;
                f_contiguous := true; c_contiguous := true |})
        = Ok (start, stop, step)
        /\ __call__ example_tools simple_repr example_gpuarray copy_kernel
             [c_vector_5; c_vector_5] (slice_call None None (Some (-1)))
           = (copy_kernel_range, Launch l)
        /\ l_args l
           = map Given
               (take (length (arguments_of copy_kernel_range
                                (g_arguments copy_generated_range)))
                     [c_vector_5; c_vector_5])
             ++ [PyInt start; PyInt stop; PyInt step]
        /\ (l_grid l, l_block l)
           = splay example_gpuarray (Z.abs (stop - start) / step)
        /\ (0 < step ->
            0 <= start <= vec_size example_gpuarray
                            {| shape := [5]; strides := [4]; itemsize := 4;
                               f_contiguous := true; c_contiguous := true |}
            /\ 0 <= stop <= vec_size example_gpuarray
                              {| shape := [5]; strides := [4]; itemsize := 4;
                                 f_contiguous := true;
                                 c_contiguous := true |})
        /\ (step < 0 ->
            (-1) <= start <= vec_size example_gpuarray
                               {| shape := [5]; strides := [4];
                                  itemsize := 4; f_contiguous := true;
                                  c_contiguous := true |} - 1
            /\ (-1) <= stop <= vec_size example_gpuarray
                                 {| shape := [5]; strides := [4];
                                    itemsize := 4; f_contiguous := true;
                                    c_contiguous := true |} - 1
            /\ Z.abs (stop - start) / step <= 0)).
Proof.
  apply (slice_call_is_clipped_to_the_vector example_tools simple_repr
           example_gpuarray copy_kernel [c_vector_5; c_vector_5]
           (slice_call None None (Some (-1)))
           copy_kernel_range copy_generated_range
           {| shape := [5]; strides := [4]; itemsize := 4;
              f_contiguous := true; c_contiguous := true |}
           {| sl_start := None; sl_stop := None; sl_step := Some (-1) |}).
  - reflexivity.
  - reflexivity.
  - reflexivity.
  - reflexivity.
  - reflexivity.
  - vm_compute. discriminate.
Defined.

(** [copy_kernel] called on two vectors of five elements. *)
Lemma plain_call_on_two_vectors :
  exists l,
    __call__ example_tools simple_repr example_gpuarray copy_kernel
      [c_vector_5; c_vector_5] plain_call
    = (copy_kernel_1, Launch l)
    /\ l_func l = g_func copy_generated_1
    /\ l_grid l = vec_grid example_gpuarray
                    {| shape := [5]; strides := [4]; itemsize := 4;
                       f_contiguous := true; c_contiguous := true |}
    /\ l_block l = vec_block example_gpuarray
                     {| shape := [5]; strides := [4]; itemsize := 4;
                        f_contiguous := true; c_contiguous := true |}
    /\ l_stream l = ck_stream plain_call
    /\ l_args l
       = map Given
           (take (length (arguments_of copy_kernel_1
                            (g_arguments copy_generated_1)))
                 [c_vector_5; c_vector_5])
         ++ [PyInt (vec_mem_size example_gpuarray
                      {| shape := [5]; strides := [4]; itemsize := 4;
                         f_contiguous := true; c_contiguous := true |})]
    /\ (length (l_args l)
        = length (arguments_of copy_kernel_1 (g_arguments copy_generated_1))
        <-> S (length [c_vector_5; c_vector_5])
            = length (arguments_of copy_kernel_1
                        (g_arguments copy_generated_1))).
Proof.
  apply (plain_call_follows_first_vector example_tools simple_repr
           example_gpuarray copy_kernel [c_vector_5; c_vector_5] plain_call
           copy_kernel_1 copy_generated_1).
  - reflexivity.
  - reflexivity.
  - reflexivity.
  - reflexivity.
Defined.

(** The addition over [mixed_args] on 2 blocks of 3 threads: the tuple
    key comes with a deferred source. *)
Lemma mixed_arrays_key_has_a_source :
  exists src,
    create_source add_module mixed_precalc [2; 1] [3; 1; 1]
    = Ok (SourceDeferred src).
Proof.
  apply (tuple_key_has_a_source add_module [2; 1] [3; 1; 1] mixed_args
           mixed_precalc mixed_precalc
           {| shape := [3; 4]; strides := [16; 4]; itemsize := 4;
              f_contiguous := false; c_contiguous := true |}).
  - vm_compute. reflexivity.
  - intros i Hi.
    repeat (apply elem_of_cons in Hi as [->|Hi]; [simpl; lia|]).
    by apply elem_of_nil in Hi.
  - apply (bool_decide_unpack _). reflexivity.
  - reflexivity.
  - intros i a Hi Ha.
    repeat (apply elem_of_cons in Hi as [->|Hi];
            [injection Ha as <-; simpl; lia|]).
    by apply elem_of_nil in Hi.
Defined.

(** ** Shapes that are never compared *)

(** One step of the loop on a well-formed array, with a shape-defining
    argument designated: whatever its shape, the step returns. *)
Lemma precalc_body_designated_total sidx st i a args :
  pa_arrayspecificinds st = true ->
  same_shapes args (pa_args st) ->
  args !! i = Some (ArrayArg a) -> well_formed a ->
  exists st', precalc_body (Some sidx) st i = Ok st'
    /\ pa_arrayspecificinds st' = true
    /\ same_shapes args (pa_args st').
Proof.
  intros Hflag Hsame Hi Hwf.
  destruct (Hsame i a Hi Hwf) as (a' & Hi' & Hs' & Hwf').
  unfold precalc_body, getitem. rewrite Hi'. cbn [mbind result_bind].
  rewrite Hflag. cbn [negb].
  destruct (normalized_strides_Ok (shape a') (strides a') Hwf')
    as (ns & -> & Hns).
  cbn [mbind result_bind].
  set (a2 := {| shape := shape a'; strides := ns; itemsize := itemsize a';
                f_contiguous := f_contiguous a';
                c_contiguous := c_contiguous a' |}).
  destruct (if pa_contigmatch st then _ else _) as [[cm sh] ord].
  rewrite decide_False by (by intros [? _]).
  eexists. split; [done|]. simpl. split; [done|].
  intros j b Hj Hb. destruct (decide (i = j)) as [<-|Hne].
  - exists a2. rewrite list_lookup_insert_eq by (by eapply lookup_lt_Some).
    assert (b = a) as -> by congruence.
    split; [done|]. split; [done|]. unfold well_formed. simpl. done.
  - rewrite list_lookup_insert_ne by done. by apply Hsame.
Qed.

(** Called with a shape-defining argument, the classifier returns for
    well-formed arrays of any shapes. *)
Lemma precalc_array_info_total inds args sidx :
  (forall i, i ∈ inds ->
     exists a, args !! i = Some (ArrayArg a) /\ well_formed a) ->
  exists args' info,
    _precalc_array_info inds args (Some sidx) = Ok (args', info).
Proof.
  intros Harr. unfold _precalc_array_info.
  destruct (for_loop_total (precalc_body (Some sidx))
              (fun st => pa_arrayspecificinds st = true
                         /\ same_shapes args (pa_args st))
              inds
              {| pa_contigmatch := true; pa_arrayspecificinds := true;
                 pa_shape := None; pa_order := None; pa_args := args |})
    as (st & -> & _ & Hsame).
  - split; [done|]. intros i a Hi Hw. by exists a.
  - intros s i [Hf Hs] Hi. destruct (Harr i Hi) as (a & Ha & Hw).
    by apply (precalc_body_designated_total sidx s i a args).
  - cbn [mbind result_bind].
    destruct (for_each_total
                (fun i => arg ← getitem (pa_args st) i;
                          isz ← attr_itemsize arg;
                          str ← attr_strides arg; Ok (isz, str)) inds)
      as (ais & ->).
    + intros i Hi. destruct (Harr i Hi) as (a & Ha & Hw).
      destruct (Hsame i a Ha Hw) as (a' & Ha' & _).
      unfold getitem. rewrite Ha'. by eexists.
    + by eexists _, _.
Qed.

(** A shape mismatch that [create_key] raises is one the classifier has
    raised. *)
Lemma create_key_mismatch_is_the_classifiers drv self grid block args s c :
  create_key drv self grid block args = Raise (ShapeMismatch s c) ->
  drv args (_array_arg_inds self) (_shape_arg_index self)
  = Raise (ShapeMismatch s c).
Proof.
  unfold create_key. intros H.
  destruct (drv args _ _) as [[args' info]|e] eqn:E;
    cbn [mbind result_bind] in H.
  2:{ by injection H as ->. }
  exfalso.
  destruct (_ && _); [done|].
  unfold require_unit, getitem, len in H.
  repeat (match type of H with
          | context [?l !! ?i] =>
              destruct (l !! i); cbn [mbind result_bind] in H; [|done]
          | context [decide ?P] =>
              destruct (decide P); cbn [mbind result_bind] in H; [done|]
          end).
  destruct (canonical_shape info); cbn [mbind result_bind] in H; [|done].
  destruct (decide (_order self = "C"%string)); cbn [mbind result_bind] in H;
    [done|].
  destruct (decide (_order self = "K"%string)); cbn [mbind result_bind] in H;
    [|done].
  destruct (args' !! _) as [a|]; cbn [mbind result_bind] in H; [|done].
  destruct a as [a| |v]; cbn [attr_strides mbind result_bind] in H;
    [|done|done].
  unfold np_argmin in H. destruct (map Z.abs (strides a));
    cbn [mbind result_bind] in H; done.
Qed.

(** C6, which the code does not meet.  A module constructed with no
    shape-defining argument designated ([shape_arg_index] [None]) takes the
    first array argument as the shape-defining one (lines 87-90), and
    [create_key] always hands that index to the classifier (line 148), so
    the comparison of line 134 is never made.  For any call whose array
    arguments are well-formed arrays, whatever their shapes: the
    classifier, as [create_key] calls it, returns, and reports the shape of
    the first array argument as the canonical shape; [create_key] never
    raises the shape mismatch; and every precalc value it returns carries
    that shape. *)
Theorem undesignated_shapes_are_never_compared
    py_repr arguments operation name_ preamble loop_prep after_loop
    do_range array_arg_inds do_indices order debug self args :
  __init__ py_repr arguments operation name_ preamble loop_prep after_loop
    do_range None array_arg_inds do_indices order debug = Ok self ->
  (forall i, i ∈ _array_arg_inds self ->
     exists a, args !! i = Some (ArrayArg a) /\ well_formed a) ->
  exists first a0 args' info,
    _array_arg_inds self !! 0%nat = Some first
    /\ args !! first = Some (ArrayArg a0)
    /\ py_precalc_array_info args (_array_arg_inds self)
         (_shape_arg_index self) = Ok (args', info)
    /\ canonical_shape info = Some (shape a0)
    /\ (forall grid block s c,
          create_key py_precalc_array_info self grid block args
          <> Raise (ShapeMismatch s c))
    /\ (forall grid block k p,
          create_key py_precalc_array_info self grid block args = Ok (k, p) ->
          sig_shape p = Some (shape a0)).
Proof.
  intros Hinit Harr.
  destruct (init_fields _ _ _ _ _ _ _ _ _ _ _ _ _ _ Hinit)
    as (_ & Hfirst & _).
  cbn beta iota in Hfirst.
  assert (Hin : _shape_arg_index self ∈ _array_arg_inds self)
    by (by eapply list_elem_of_lookup_2).
  destruct (Harr _ Hin) as (a0 & Ha0 & Hw0).
  destruct (precalc_array_info_total (_array_arg_inds self) args
              (_shape_arg_index self) Harr) as (args' & info & Hok).
  assert (Hshape : canonical_shape info = Some (shape a0)).
  { destruct (precalc_array_info_Ok _ _ _ _ _ Hok)
      as (st & Hloop & Harr' & _ & _ & _ & -> & _).
    destruct (classifier_loop _ _ _ _ Harr' Hloop) as (_ & _ & Hsh & _).
    by apply (Hsh (_shape_arg_index self) a0). }
  exists (_shape_arg_index self), a0, args', info.
  split; [done|]. split; [done|]. split; [done|]. split; [done|]. split.
  - intros grid block s c H.
    apply create_key_mismatch_is_the_classifiers in H.
    unfold py_precalc_array_info in H. congruence.
  - intros grid block k p H. unfold create_key, py_precalc_array_info in H.
    rewrite Hok in H. cbn [mbind result_bind] in H.
    destruct (_ && _).
    + injection H as _ <-. done.
    + apply bind_Ok in H as (g1 & _ & H).
      apply bind_Ok in H as (u1 & _ & H).
      apply bind_Ok in H as (b1 & _ & H).
      apply bind_Ok in H as (u2 & _ & H).
      apply bind_Ok in H as (b2 & _ & H).
      apply bind_Ok in H as (u3 & _ & H).
      apply bind_Ok in H as (nd & _ & H).
      apply bind_Ok in H as (rev & _ & H).
      injection H as _ <-. done.
Qed.

(** The example of the design document as a call of the addition, built
    with nothing designated: [x] of shape (4, 4) and [y] of shape (4, 3)
    get the fast-path key and the shape (4, 4), and [create_source] emits
    the text of the fast path. *)
Example mismatched_shapes_get_a_key :
  __init__ simple_repr add_arguments add_operation "add" "" "" "" false
    None None false "K" false = Ok add_module
  /\ exists p txt,
       create_key py_precalc_array_info add_module [1; 1; 1] [32; 1; 1]
         mismatched_args
       = Ok (KeyStr (simple_repr add_init_args), p)
       /\ sig_shape p = Some [4; 4]
       /\ create_source add_module p [1; 1; 1] [32; 1; 1]
          = Ok (SourceText txt).
Proof. split; [reflexivity|]. eexists _, _. vm_compute. done. Qed.

(** The addition, built with nothing designated, on [mismatched_args]. *)
Lemma mismatched_shapes_are_not_compared :
  exists first a0 args' info,
    _array_arg_inds add_module !! 0%nat = Some first
    /\ mismatched_args !! first = Some (ArrayArg a0)
    /\ py_precalc_array_info mismatched_args (_array_arg_inds add_module)
         (_shape_arg_index add_module) = Ok (args', info)
    /\ canonical_shape info = Some (shape a0)
    /\ (forall grid block s c,
          create_key py_precalc_array_info add_module grid block
            mismatched_args
          <> Raise (ShapeMismatch s c))
    /\ (forall grid block k p,
          create_key py_precalc_array_info add_module grid block
            mismatched_args = Ok (k, p) ->
          sig_shape p = Some (shape a0)).
Proof.
  apply (undesignated_shapes_are_never_compared
           simple_repr add_arguments add_operation "add"%string
           ""%string ""%string ""%string false None false "K"%string false
           add_module mismatched_args).
  - reflexivity.
  - intros i Hi.
    repeat (apply elem_of_cons in Hi as [->|Hi];
            [eexists; split; reflexivity|]).
    by apply elem_of_nil in Hi.
Defined.
